(** * ChatBetween: the UDP chat transport and its file-transfer protocol

    A shallow embedding of [ChatClass.cpp] (with the declarations of
    [ChatClass.h]) and of the polling loop of [main.cpp].

    The [ChatClass] object and the parts of the operating system it talks
    to (the files on disk, the [FILE] handles it holds open, the datagrams
    it handed to [sendto], the lines it printed) are one record, [world];
    every method is a function on it.  What the operating system decides
    (the clock, how many bytes [fwrite] or [sendto] take, whether a file
    can be created) is read from an [env]. *)

From Stdlib Require Import ZArith List Lia Ascii String.
From stdpp Require Import base option list gmap strings pretty.

Local Open Scope Z_scope.

(** ** Bytes, C strings and the 32-bit [int] *)

Definition byte := ascii.

Definition ASCII_NULL_ZERO : byte := "000"%char.
Definition ASCII_LINE_FEED : byte := "010"%char.
Definition ASCII_CARRIAGE_RETURN : byte := "013"%char.
Definition ASCII_TAB : byte := "009"%char.
Definition ASCII_SPACE : byte := " "%char.
Definition ASCII_SLASH : byte := "/"%char.

Definition INTER_WRITE_HOLDOFF_DELAY : Z := 10000.
Definition SENT_CTRL_IP_SIZE : nat := 101.
Definition MAX_OUT_DATA_SIZE : Z := 1024.
Definition MAX_OUT_FILE_NAME_SIZE : nat := 256.
Definition MAX_FILE_WRITE_RETRY_COUNT : nat := 20.
Definition MAX_FILE_OVERWRITE_CHECK : nat := 20.
Definition HANDLE_NOT_VALID : Z := -1.
Definition ERRORLEVEL_NO_SOCKET : Z := 10.
Definition ERRORLEVEL_NO_BIND : Z := 11.
Definition UDP_IN_BUFFER_SIZE : nat := 1024 * 2.
Definition XFER_HDR_CMD_SIZE : nat := 11.
Definition XFER_HDR_NAME_SZIE : nat := 101.

(** [enum transfer_type], left "as a signed integer". *)
Definition trans_type_send : Z := 1.
Definition trans_type_get_request : Z := 2.

(** The value an [int] takes when a wider integer is stored into it. *)
Definition int_wrap (z : Z) : Z := (z + 2 ^ 31) mod 2 ^ 32 - 2 ^ 31.

Definition INT_MAX : Z := 2 ^ 31 - 1.

Definition byte_of_Z (z : Z) : byte := ascii_of_N (Z.to_N (z mod 256)).
Definition Z_of_byte (b : byte) : Z := Z.of_N (N_of_ascii b).

(** An [int] in memory: four bytes, least significant first. *)
Definition bytes_of_int (z : Z) : list byte :=
  [ byte_of_Z z; byte_of_Z (z / 2 ^ 8); byte_of_Z (z / 2 ^ 16);
    byte_of_Z (z / 2 ^ 24) ].

Definition int_of_bytes (b : list byte) : Z :=
  int_wrap (Z_of_byte (nth 0 b ASCII_NULL_ZERO)
            + 2 ^ 8 * Z_of_byte (nth 1 b ASCII_NULL_ZERO)
            + 2 ^ 16 * Z_of_byte (nth 2 b ASCII_NULL_ZERO)
            + 2 ^ 24 * Z_of_byte (nth 3 b ASCII_NULL_ZERO)).

(** The characters of a C string: what precedes the first NUL. *)
Fixpoint cstr (mem : list byte) : list byte :=
  match mem with
  | [] => []
  | c :: rest => if decide (c = ASCII_NULL_ZERO) then [] else c :: cstr rest
  end.

Definition strlen (mem : list byte) : nat := length (cstr mem).

(** [n] bytes copied out of [mem]; the model reads zero past the end of
    the region it was given. *)
Definition memcpy (n : nat) (mem : list byte) : list byte :=
  take n (mem ++ replicate n ASCII_NULL_ZERO).

(** [strncmp(s1, s2, n)]: the sign of the first difference within [n]
    characters, comparison stopping at a NUL. *)
Fixpoint strncmp (s1 s2 : list byte) (n : nat) : Z :=
  match n with
  | O => 0
  | S n' =>
      let c1 := hd ASCII_NULL_ZERO s1 in
      let c2 := hd ASCII_NULL_ZERO s2 in
      if decide (c1 = c2)
      then if decide (c1 = ASCII_NULL_ZERO) then 0
           else strncmp (tl s1) (tl s2) n'
      else Z_of_byte c1 - Z_of_byte c2
  end.

Definition bytes_of_string (s : string) : list byte := list_ascii_of_string s.
Definition string_of_bytes (b : list byte) : string := string_of_list_ascii b.

(** The marker of a file-transfer frame. *)
Definition xfer_tag : list byte := bytes_of_string ":xfer:".

(** ** The frame header *)

Record file_transfer_header := {
  header_command : list byte;   (* char[ XFER_HDR_CMD_SIZE ]  *)
  file_name : list byte;        (* char[ XFER_HDR_NAME_SZIE ] *)
  file_size : Z;                (* int                        *)
  trans_type : Z                (* transfer_type              *)
}.

(** Offsets of the fields: 11 + 101 = 112 is already a multiple of four,
    so the two integers follow without padding. *)
Definition OFFSET_FILE_NAME : nat := XFER_HDR_CMD_SIZE.
Definition OFFSET_FILE_SIZE : nat := XFER_HDR_CMD_SIZE + XFER_HDR_NAME_SZIE.
Definition OFFSET_TRANS_TYPE : nat := OFFSET_FILE_SIZE + 4.
Definition sizeof_file_header : nat := OFFSET_TRANS_TYPE + 4.

(** [memcpy( &file_header, this_data_p, sizeof( file_header ) )] *)
Definition header_of_bytes (this_data : list byte) : file_transfer_header :=
  let raw := memcpy sizeof_file_header this_data in
  {| header_command := take XFER_HDR_CMD_SIZE raw;
     file_name := take XFER_HDR_NAME_SZIE (drop OFFSET_FILE_NAME raw);
     file_size := int_of_bytes (drop OFFSET_FILE_SIZE raw);
     trans_type := int_of_bytes (drop OFFSET_TRANS_TYPE raw) |}.

(** The bytes [send_data( &file_header, sizeof( file_header ) )] sends. *)
Definition bytes_of_header (h : file_transfer_header) : list byte :=
  memcpy XFER_HDR_CMD_SIZE (header_command h)
  ++ memcpy XFER_HDR_NAME_SZIE (file_name h)
  ++ bytes_of_int (file_size h)
  ++ bytes_of_int (trans_type h).

(** ** The receiving side's control blocks *)

Record file_sent_control := {
  in_file_transfer : bool;
  to_receive_count : Z;
  out_file_p : option nat;       (* FILE *, [None] for NULL *)
  transfer_start_time : Z;       (* time_t *)
  ip_address : string
}.

(** What the program prints. *)
Inductive message :=
  | msg_unable_to_send
  | msg_sending (name : list byte) (size : Z)
  | msg_file_not_found (path : list byte)
  | msg_aborted_previous (ip : string)
  | msg_inbound_file (name : string) (size : Z) (ip : string)
  | msg_timed_out
  | msg_file_requested (path : list byte)
  | msg_text (text : list byte)
  | msg_logging_turned (on : bool).

(** ** The object and its surroundings *)

Record world := {
  send_socket : Z;
  receive_socket : Z;
  transmit_port : Z;
  receive_port : Z;
  udp_inbound_buffer : list byte;
  send_control : list file_sent_control;
  disk : gmap string (list byte);      (* the files, by path *)
  open_files : gmap nat string;        (* handles open for writing *)
  next_file : nat;                     (* the next handle fopen returns *)
  wire : list (list byte);             (* datagrams sent, oldest first *)
  console : list message;              (* lines printed, oldest first *)
  sendto_calls : nat;
  fwrite_calls : nat
}.

(** What the operating system answers. *)
Record env := {
  time_now : Z;                        (* time( NULL ) *)
  sendto_limit : nat -> option positive;
    (* the k-th sendto: [None] is -1, [Some n] takes up to n bytes *)
  fwrite_limit : nat -> nat;           (* the k-th fwrite takes that many *)
  fopen_wb_ok : string -> bool         (* can this path be created? *)
}.

(** Field updates. *)
Definition set_udp_inbound_buffer (f : list byte -> list byte) (w : world) : world :=
  {| send_socket := send_socket w; receive_socket := receive_socket w;
     transmit_port := transmit_port w; receive_port := receive_port w;
     udp_inbound_buffer := f (udp_inbound_buffer w);
     send_control := send_control w; disk := disk w;
     open_files := open_files w; next_file := next_file w;
     wire := wire w; console := console w;
     sendto_calls := sendto_calls w; fwrite_calls := fwrite_calls w |}.

Definition set_send_control
    (f : list file_sent_control -> list file_sent_control) (w : world) : world :=
  {| send_socket := send_socket w; receive_socket := receive_socket w;
     transmit_port := transmit_port w; receive_port := receive_port w;
     udp_inbound_buffer := udp_inbound_buffer w;
     send_control := f (send_control w); disk := disk w;
     open_files := open_files w; next_file := next_file w;
     wire := wire w; console := console w;
     sendto_calls := sendto_calls w; fwrite_calls := fwrite_calls w |}.

Definition set_disk
    (f : gmap string (list byte) -> gmap string (list byte)) (w : world) : world :=
  {| send_socket := send_socket w; receive_socket := receive_socket w;
     transmit_port := transmit_port w; receive_port := receive_port w;
     udp_inbound_buffer := udp_inbound_buffer w;
     send_control := send_control w; disk := f (disk w);
     open_files := open_files w; next_file := next_file w;
     wire := wire w; console := console w;
     sendto_calls := sendto_calls w; fwrite_calls := fwrite_calls w |}.

Definition set_open_files
    (f : gmap nat string -> gmap nat string) (w : world) : world :=
  {| send_socket := send_socket w; receive_socket := receive_socket w;
     transmit_port := transmit_port w; receive_port := receive_port w;
     udp_inbound_buffer := udp_inbound_buffer w;
     send_control := send_control w; disk := disk w;
     open_files := f (open_files w); next_file := next_file w;
     wire := wire w; console := console w;
     sendto_calls := sendto_calls w; fwrite_calls := fwrite_calls w |}.

Definition set_next_file (f : nat -> nat) (w : world) : world :=
  {| send_socket := send_socket w; receive_socket := receive_socket w;
     transmit_port := transmit_port w; receive_port := receive_port w;
     udp_inbound_buffer := udp_inbound_buffer w;
     send_control := send_control w; disk := disk w;
     open_files := open_files w; next_file := f (next_file w);
     wire := wire w; console := console w;
     sendto_calls := sendto_calls w; fwrite_calls := fwrite_calls w |}.

Definition set_wire (f : list (list byte) -> list (list byte)) (w : world) : world :=
  {| send_socket := send_socket w; receive_socket := receive_socket w;
     transmit_port := transmit_port w; receive_port := receive_port w;
     udp_inbound_buffer := udp_inbound_buffer w;
     send_control := send_control w; disk := disk w;
     open_files := open_files w; next_file := next_file w;
     wire := f (wire w); console := console w;
     sendto_calls := sendto_calls w; fwrite_calls := fwrite_calls w |}.

Definition set_sendto_calls (f : nat -> nat) (w : world) : world :=
  {| send_socket := send_socket w; receive_socket := receive_socket w;
     transmit_port := transmit_port w; receive_port := receive_port w;
     udp_inbound_buffer := udp_inbound_buffer w;
     send_control := send_control w; disk := disk w;
     open_files := open_files w; next_file := next_file w;
     wire := wire w; console := console w;
     sendto_calls := f (sendto_calls w); fwrite_calls := fwrite_calls w |}.

Definition set_fwrite_calls (f : nat -> nat) (w : world) : world :=
  {| send_socket := send_socket w; receive_socket := receive_socket w;
     transmit_port := transmit_port w; receive_port := receive_port w;
     udp_inbound_buffer := udp_inbound_buffer w;
     send_control := send_control w; disk := disk w;
     open_files := open_files w; next_file := next_file w;
     wire := wire w; console := console w;
     sendto_calls := sendto_calls w; fwrite_calls := f (fwrite_calls w) |}.

(** [printf] *)
Definition print (m : message) (w : world) : world :=
  {| send_socket := send_socket w; receive_socket := receive_socket w;
     transmit_port := transmit_port w; receive_port := receive_port w;
     udp_inbound_buffer := udp_inbound_buffer w;
     send_control := send_control w; disk := disk w;
     open_files := open_files w; next_file := next_file w;
     wire := wire w; console := console w ++ [m];
     sendto_calls := sendto_calls w; fwrite_calls := fwrite_calls w |}.

(** ** The C library calls the class makes *)

(** [fopen( path, "rb" )] returns a handle exactly for a file that is
    there; the handle is closed again at once wherever the class only
    probes for existence. *)
Definition file_exists (path : string) (w : world) : bool :=
  bool_decide (is_Some (disk w !! path)).

(** [fopen( path, "wb" )]: the file is created empty, or emptied. *)
Definition fopen_wb (e : env) (path : string) (w : world) : option nat * world :=
  if fopen_wb_ok e path
  then (Some (next_file w),
        set_next_file S
          (set_open_files (insert (next_file w) path)
             (set_disk (insert path []) w)))
  else (None, w).

Definition fclose (h : nat) (w : world) : world :=
  set_open_files (delete h) w.

(** [fwrite( data, 1, size, h )]: the bytes taken are appended to the file;
    the result is their number. *)
Definition fwrite (e : env) (h : nat) (data : list byte) (w : world) : nat * world :=
  let accepted := take (fwrite_limit e (fwrite_calls w)) data in
  let w' := set_fwrite_calls S w in
  match open_files w !! h with
  | Some path =>
      (length accepted, set_disk (alter (fun old => old ++ accepted) path) w')
  | None => (O, w')
  end.

(** [sendto]: [None] for a negative result, else the number of bytes
    that left in a datagram (at least one, at most what was offered). *)
Definition sendto (e : env) (the_bytes : list byte) (w : world) : option nat * world :=
  let w' := set_sendto_calls S w in
  match sendto_limit e (sendto_calls w) with
  | None => (None, w')
  | Some n =>
      let sent := take (Pos.to_nat n) the_bytes in
      (Some (length sent), set_wire (fun l => l ++ [sent]) w')
  end.

(** ** ChatClass::send_data *)

(** The [while( this_size > 0 )] loop.  Every round either ends the loop
    or sends at least one byte, so [length the_bytes] rounds are enough
    ([send_data_loop_fuel]). *)
Fixpoint send_data_loop (fuel : nat) (e : env) (the_bytes : list byte)
    (w : world) : world :=
  match fuel with
  | O => w
  | S fuel' =>
      match the_bytes with
      | [] => w
      | _ :: _ =>
          match sendto e the_bytes w with
          | (None, w1) => print msg_unable_to_send w1
          | (Some bytes_sent, w1) =>
              send_data_loop fuel' e (drop bytes_sent the_bytes) w1
          end
      end
  end.

Definition send_data (e : env) (this_data : list byte) (w : world) : world :=
  if decide (send_socket w ≠ HANDLE_NOT_VALID)
  then send_data_loop (length this_data) e this_data w
  else w.

(** ** ChatClass::send_file *)

(** [skipspace] *)
Fixpoint skipspace (x : list byte) : list byte :=
  match x with
  | [] => []
  | c :: rest =>
      if decide (c = ASCII_TAB ∨ c = ASCII_SPACE) then skipspace rest else x
  end.

(** The loop that overwrites trailing end-of-line characters with NUL.
    On the empty string the source looks at the byte before the string;
    the model stops there.  Every round shortens the string, so
    [strlen p] rounds are enough ([remove_endline_fuel]). *)
Fixpoint remove_endline (fuel : nat) (p : list byte) : list byte :=
  match fuel with
  | O => p
  | S fuel' =>
      match last (cstr p) with
      | Some c =>
          if decide (c = ASCII_CARRIAGE_RETURN ∨ c = ASCII_LINE_FEED)
          then remove_endline fuel' (<[pred (strlen p) := ASCII_NULL_ZERO]> p)
          else p
      | None => p
      end
  end.

(** [strrchr( p, c )], as an offset into [p]. *)
Fixpoint strrchr (p : list byte) (c : byte) : option nat :=
  match p with
  | [] => None
  | x :: rest =>
      if decide (x = ASCII_NULL_ZERO) then None
      else match strrchr rest c with
           | Some i => Some (S i)
           | None => if decide (x = c) then Some O else None
           end
  end.

(** The [while( out_count > 0 )] loop over the open input file, whose
    unread part is [in_file]; [out_data_size] is
    [sizeof( outbound_data )].  Every round lowers [out_count], so
    [out_count] rounds are enough ([send_file_loop_fuel]). *)
Fixpoint send_file_loop (fuel : nat) (e : env) (out_data_size : Z)
    (in_file : list byte) (out_count : Z) (w : world) : world :=
  match fuel with
  | O => w
  | S fuel' =>
      if 0 <? out_count then
        let block_size :=
          if out_data_size <? out_count then out_data_size else out_count in
        let outbound_data := take (Z.to_nat block_size) in_file in
        let w1 := send_data e outbound_data w in
        send_file_loop fuel' e out_data_size
          (drop (Z.to_nat block_size) in_file) (out_count - block_size) w1
      else w
  end.

(** What both [send_file] and [get_file] first make of their argument:
    leading white space skipped, trailing end-of-line characters removed. *)
Definition requested_path (path_and_name_p : list byte) : list byte :=
  let p := skipspace path_and_name_p in
  remove_endline (strlen p) p.

(** [send_file], for an [outbound_data] of [out_data_size] bytes.  The
    file is there, and can be opened, exactly when the disk has it; its
    size goes into the [int] [out_count]. *)
Definition send_file_sized (out_data_size : Z) (e : env)
    (path_and_name_p : list byte) (response_to_get_request : bool)
    (w : world) : world :=
  let p := requested_path path_and_name_p in
  match disk w !! string_of_bytes (cstr p) with
  | Some contents =>
      let out_count := int_wrap (Z.of_nat (length contents)) in
      let file_name_p :=
        match strrchr p ASCII_SLASH with
        | Some i => drop (S i) p
        | None => p
        end in
      let file_header :=
        {| header_command := xfer_tag;
           file_name := memcpy (XFER_HDR_NAME_SZIE - 1) file_name_p;
           file_size := out_count;
           trans_type := trans_type_send |} in
      let w1 := send_data e (bytes_of_header file_header) w in
      let w2 := print (msg_sending (cstr file_name_p) out_count) w1 in
      send_file_loop (Z.to_nat out_count) e out_data_size contents out_count w2
  | None =>
      if response_to_get_request then w
      else print (msg_file_not_found (cstr p)) w
  end.

Definition send_file : env -> list byte -> bool -> world -> world :=
  send_file_sized MAX_OUT_DATA_SIZE.

(** ** ChatClass::get_file and ChatClass::get_file_request *)

Definition get_file (e : env) (path_and_name_p : list byte) (w : world) : world :=
  let p := requested_path path_and_name_p in
  let file_header :=
    {| header_command := xfer_tag;
       file_name := memcpy (XFER_HDR_NAME_SZIE - 1) p;
       file_size := 0;
       trans_type := trans_type_get_request |} in
  let w1 := send_data e (bytes_of_header file_header) w in
  print (msg_file_requested (cstr p)) w1.

(** What a pointer to the name field of a local copy of the header points
    at: the field, and behind it the bytes of [file_size] and [trans_type]
    up to the end of the structure. *)
Definition name_field_onwards (this_data : list byte) : list byte :=
  drop OFFSET_FILE_NAME (memcpy sizeof_file_header this_data).

(** [send_file( file_header.file_name, true )]: the path handed to
    [send_file] is a pointer into the local copy of the header, so what
    [send_file] reads from it goes on into the two integers.  The 100
    bytes it copies from behind a slash can reach past the structure;
    there the model reads zeros, as [memcpy] has it.  In a request the
    name field ends with a NUL, so the path and the name as C strings
    lie within the field. *)
Definition get_file_request (e : env) (this_data : list byte) (w : world) : world :=
  send_file e (name_field_onwards this_data) true w.

(** ** ChatClass::find_send_control *)

(** The index of the first entry whose address is [ip]; [None] stands for
    [CONTROL_NOT_FOUND]. *)
Fixpoint find_send_control (l : list file_sent_control) (ip : string) : option nat :=
  match l with
  | [] => None
  | c :: rest =>
      if decide (ip_address c = ip) then Some O
      else S <$> find_send_control rest ip
  end.

(** The test both receive methods make on an entry:
    [true == in_file_transfer && NULL != out_file_p]. *)
Definition is_receiving (c : file_sent_control) : bool :=
  in_file_transfer c && bool_decide (is_Some (out_file_p c)).

(** ** ChatClass::receive_file_block *)

(** The [while( this_byte_size > 0 && write_try_count < ... )] loop.  A
    round either writes at least one byte or uses up one of the attempts,
    so [21 * length this_data + 21] rounds are enough
    ([write_loop_fuel]). *)
Fixpoint write_loop (fuel : nat) (e : env) (h : nat) (this_data : list byte)
    (write_try_count : nat) (w : world) : world :=
  match fuel with
  | O => w
  | S fuel' =>
      match this_data with
      | [] => w
      | _ :: _ =>
          if (write_try_count <? MAX_FILE_WRITE_RETRY_COUNT)%nat then
            match fwrite e h this_data w with
            | (O, w1) => write_loop fuel' e h this_data (S write_try_count) w1
            | (S n as write_result, w1) =>
                write_loop fuel' e h (drop write_result this_data) O w1
            end
          else w
      end
  end.

Definition write_fuel (this_data : list byte) : nat :=
  ((S MAX_FILE_WRITE_RETRY_COUNT) * length this_data
   + S MAX_FILE_WRITE_RETRY_COUNT)%nat.

Definition set_transfer_start_time (t : Z) (c : file_sent_control) : file_sent_control :=
  {| in_file_transfer := in_file_transfer c;
     to_receive_count := to_receive_count c;
     out_file_p := out_file_p c;
     transfer_start_time := t;
     ip_address := ip_address c |}.

Definition set_to_receive_count (n : Z) (c : file_sent_control) : file_sent_control :=
  {| in_file_transfer := in_file_transfer c;
     to_receive_count := n;
     out_file_p := out_file_p c;
     transfer_start_time := transfer_start_time c;
     ip_address := ip_address c |}.

(** [this_data] is the [this_byte_size] bytes at [this_data_p]. *)
Definition receive_file_block (e : env) (this_data : list byte) (ip : string)
    (w : world) : bool * world :=
  let orig_block_size := Z.of_nat (length this_data) in
  match find_send_control (send_control w) ip with
  | None => (false, w)
  | Some control_index =>
      match send_control w !! control_index with
      | None => (false, w)
      | Some c =>
          match out_file_p c with
          | Some h =>
              if in_file_transfer c then
                let w1 := write_loop (write_fuel this_data) e h this_data O w in
                let c1 := set_transfer_start_time (time_now e) c in
                let c2 :=
                  if orig_block_size <=? to_receive_count c1
                  then set_to_receive_count (to_receive_count c1 - orig_block_size) c1
                  else c1 in
                if to_receive_count c2 =? 0
                then (true, set_send_control (delete control_index) (fclose h w1))
                else (true, set_send_control (<[control_index := c2]>) w1)
              else (false, w)
          | None => (false, w)
          end
      end
  end.

(** ** ChatClass::receive_file_start *)

(** The loop that looks for a name that is not on disk yet.  The test
    [name_try_count++ < MAX_FILE_OVERWRITE_CHECK] increments the counter
    before the body runs.  The counter ends the loop within
    [MAX_FILE_OVERWRITE_CHECK] rounds ([choose_file_name_fuel]). *)
Fixpoint choose_file_name (fuel : nat) (base : list byte) (name_try_count : nat)
    (w : world) : option string :=
  match fuel with
  | O => None
  | S fuel' =>
      if (name_try_count <? MAX_FILE_OVERWRITE_CHECK)%nat then
        let name_try_count := S name_try_count in
        let out_file_name :=
          if (0 <? name_try_count)%nat
          then string_of_bytes base +:+ pretty name_try_count
          else string_of_bytes base in
        if file_exists out_file_name w
        then choose_file_name fuel' base name_try_count w
        else Some out_file_name
      else None
  end.

(** The first part of the method: an entry of this device is taken out of
    the vector, its file closed if it was receiving. *)
Definition drop_previous (ip : string) (w : world) : world :=
  match find_send_control (send_control w) ip with
  | None => w
  | Some control_index =>
      let w1 :=
        match send_control w !! control_index with
        | Some c =>
            match out_file_p c with
            | Some h =>
                if in_file_transfer c
                then print (msg_aborted_previous ip) (fclose h w)
                else w
            | None => w
            end
        | None => w
        end in
      set_send_control (delete control_index) w1
  end.

(** [this_data_p] is the receive buffer, [this_byte_size] the size of the
    frame that was read into it.  [strcpy( out_file_name,
    file_header.file_name )] copies the C string that begins at the name
    field: when the field holds no NUL it runs on into the bytes of
    [file_size] and [trans_type].  [file_transfer] calls the method with a
    [trans_type] of 1, whose upper bytes are zero, so the string ends
    within the header; its at most 106 characters and the digits fit the
    256 bytes of [out_file_name]. *)
Definition receive_file_start (e : env) (this_byte_size : nat) (ip : string)
    (w : world) : world :=
  let w1 := drop_previous ip w in
  let this_data := udp_inbound_buffer w1 in
  let file_header := header_of_bytes this_data in
  if file_size file_header =? 0 then w1
  else
    match choose_file_name MAX_FILE_OVERWRITE_CHECK
            (cstr (name_field_onwards this_data)) O w1 with
    | None => w1
    | Some out_file_name =>
        match fopen_wb e out_file_name w1 with
        | (None, w2) => w2
        | (Some h, w2) =>
            let this_control :=
              {| in_file_transfer := true;
                 to_receive_count := file_size file_header;
                 out_file_p := Some h;
                 transfer_start_time := time_now e;
                 ip_address := ip |} in
            let w3 :=
              print (msg_inbound_file out_file_name
                       (to_receive_count this_control) ip) w2 in
            let w4 := set_send_control (fun l => l ++ [this_control]) w3 in
            if (sizeof_file_header <? this_byte_size)%nat
            then snd (receive_file_block e
                        (take (this_byte_size - sizeof_file_header)
                           (drop sizeof_file_header this_data)) ip w4)
            else w4
        end
    end.

(** ** ChatClass::file_transfer *)

Definition file_transfer (e : env) (this_byte_size : nat) (ip : string)
    (w : world) : world :=
  let file_header := header_of_bytes (udp_inbound_buffer w) in
  if decide (trans_type file_header = trans_type_send)
  then receive_file_start e this_byte_size ip w
  else if decide (trans_type file_header = trans_type_get_request)
       then get_file_request e (udp_inbound_buffer w) w
       else w.

(** ** ChatClass::read_data *)

(** [recvfrom] on a frame that is waiting: at most the size of the buffer
    is stored at its start, the rest of the buffer keeps what it held. *)
Definition recvfrom (frame : list byte) (w : world) : Z * world :=
  let got := take UDP_IN_BUFFER_SIZE frame in
  (Z.of_nat (length got),
   set_udp_inbound_buffer (fun old => got ++ drop (length got) old) w).

(** [inbound] is the frame waiting on the receive socket with the address
    of its sender, if there is one. *)
Definition read_data (e : env) (inbound : option (list byte * string))
    (w : world) : Z * world :=
  match inbound with
  | Some (frame, ip) =>
      if decide (receive_socket w ≠ HANDLE_NOT_VALID) then
        let '(read_count, w1) := recvfrom frame w in
        if 0 <? read_count then
          if decide (strncmp (udp_inbound_buffer w1) xfer_tag 6 = 0)
          then (0, file_transfer e (Z.to_nat read_count) ip w1)
          else
            match receive_file_block e
                    (take (Z.to_nat read_count) (udp_inbound_buffer w1)) ip w1 with
            | (true, w2) => (0, w2)
            | (false, w2) => (read_count, w2)
            end
        else (read_count, w1)
      else (0, w)
  | None =>
      if decide (receive_socket w ≠ HANDLE_NOT_VALID) then (-1, w) else (0, w)
  end.

(** ** ChatClass::transfer_timed_out *)

(** The two tests made on an entry: the timer runs, and it shows ten
    seconds or more. *)
Definition timer_expired (current_time : Z) (c : file_sent_control) : bool :=
  (0 <? transfer_start_time c) && (transfer_start_time c + 10 <=? current_time).

(** The [for] loop: the index of the first entry that passes them. *)
Fixpoint find_timed_out (current_time : Z) (l : list file_sent_control) : option nat :=
  match l with
  | [] => None
  | c :: rest =>
      if timer_expired current_time c then Some O
      else S <$> find_timed_out current_time rest
  end.

(** What is done for the entry found, before it is erased. *)
Definition close_timed_out (w : world) (c : file_sent_control) : world :=
  match out_file_p c with
  | Some h => print msg_timed_out (fclose h w)
  | None => w
  end.

(** The [while( true == restart_search )] loop.  Every round but the last
    erases an entry, so [S (length (send_control w))] rounds are enough
    ([sweep_loop_once]). *)
Fixpoint sweep_loop (fuel : nat) (current_time : Z) (any_timeouts : bool)
    (w : world) : bool * world :=
  match fuel with
  | O => (any_timeouts, w)
  | S fuel' =>
      match find_timed_out current_time (send_control w) with
      | None => (any_timeouts, w)
      | Some this_index =>
          let w1 :=
            match send_control w !! this_index with
            | Some c => close_timed_out w c
            | None => w
            end in
          sweep_loop fuel' current_time true
            (set_send_control (delete this_index) w1)
      end
  end.

Definition transfer_timed_out (e : env) (w : world) : bool * world :=
  sweep_loop (S (length (send_control w))) (time_now e) false w.

(** ** ChatClass::send_text *)

(** The text goes out with its terminating NUL. *)
Definition send_text (e : env) (this_text_p : list byte) (w : world) : world :=
  if decide (send_socket w ≠ HANDLE_NOT_VALID)
  then send_data e (cstr this_text_p ++ [ASCII_NULL_ZERO]) w
  else w.

(** ** ChatClass::how_many_are_running and the constructor *)

(** [records] are the lines [fgets] returns from [ps x | grep chat] before
    the end of the listing; a line is counted unless [strstr] finds
    "grep" in it. *)
Fixpoint how_many_are_running (records : list string) : Z :=
  match records with
  | [] => 0
  | in_record :: rest =>
      match String.index 0 "grep" in_record with
      | None => 1 + how_many_are_running rest
      | Some _ => how_many_are_running rest
      end
  end.

(** The port a [sin_port] filled with [htons( p )] denotes. *)
Definition htons (p : Z) : Z := p mod 2 ^ 16.

(** The two local variables [transmit_port] and [receive_port]. *)
Definition choose_ports (running_count this_port_number : Z) : Z * Z :=
  if 1 <? running_count
  then (this_port_number, int_wrap (this_port_number + 1))
  else (int_wrap (this_port_number + 1), this_port_number).

(** The machine the program is started on. *)
Record host := {
  ps_records : list string;
  send_socket_fd : Z;               (* what the first socket() returns *)
  receive_socket_fd : Z;            (* what the second socket() returns *)
  bind_ok : bool;
  host_disk : gmap string (list byte)
}.

(** The constructor: the object, or the value the process exits with. *)
Definition ChatClass_new (m : host) (this_port_number : Z) : Z + world :=
  let running_count := how_many_are_running (ps_records m) in
  let '(tx, rx) := choose_ports running_count this_port_number in
  if send_socket_fd m <? 0 then inl ERRORLEVEL_NO_SOCKET
  else if receive_socket_fd m <? 0 then inl ERRORLEVEL_NO_SOCKET
  else if bind_ok m then
    inr {| send_socket := send_socket_fd m;
           receive_socket := receive_socket_fd m;
           transmit_port := htons tx;
           receive_port := htons rx;
           udp_inbound_buffer := replicate UDP_IN_BUFFER_SIZE ASCII_NULL_ZERO;
           send_control := [];
           disk := host_disk m;
           open_files := ∅;
           next_file := O;
           wire := [];
           console := [];
           sendto_calls := O;
           fwrite_calls := O |}
  else inl ERRORLEVEL_NO_BIND.

(** ** The loop of main *)

(** The first step of a round, as far as it works on the chat object:
    [read_data], and a frame it hands back is NUL-terminated in the buffer
    and printed.  The call of the logger that follows the [printf] works
    on another object; [main_poll_logged] below has both. *)
Definition main_poll (e : env) (inbound : option (list byte * string))
    (w : world) : world :=
  let '(read_count, w1) := read_data e inbound w in
  if 0 <? read_count then
    let w2 :=
      set_udp_inbound_buffer (<[Z.to_nat read_count := ASCII_NULL_ZERO]>) w1 in
    print (msg_text (cstr (udp_inbound_buffer w2))) w2
  else w1.

(** What the operator typed, once a line is complete. *)
Inductive command :=
  | command_send (path : list byte)
  | command_get (path : list byte)
  | command_text (text : list byte).

(** What main calls on the chat object for the line; the call of the
    logger that follows [send_text] is in [main_command_logged] below. *)
Definition main_command (e : env) (c : command) (w : world) : world :=
  match c with
  | command_send path => send_file e path false w
  | command_get path => get_file e path w
  | command_text text => send_text e text w
  end.

(** ** Words of the specification *)

(** The chunks of [size] bytes a file is cut into, in file order; [fuel]
    bounds their number. *)
Fixpoint chunks (fuel : nat) (size : nat) (contents : list byte) : list (list byte) :=
  match fuel with
  | O => []
  | S fuel' =>
      match contents with
      | [] => []
      | _ :: _ => take size contents :: chunks fuel' size (drop size contents)
      end
  end.

(** A network on which every [sendto] succeeds and takes [bound] bytes
    or more, so that a datagram of up to [bound] bytes leaves whole. *)
Definition sendto_takes (bound : nat) (e : env) : Prop :=
  forall k, exists n, sendto_limit e k = Some n /\ (bound <= Pos.to_nat n)%nat.

(** An entry whose last activity is ten seconds or more before [now]. *)
Definition timed_out (now : Z) (c : file_sent_control) : bool :=
  transfer_start_time c + 10 <=? now.

(** No two entries of the vector carry the same address. *)
Definition one_block_per_peer (w : world) : Prop :=
  NoDup (ip_address <$> send_control w).

(** The handles still open once an entry of the device was taken out. *)
Definition open_after_drop (ip : string) (w : world) : gmap nat string :=
  match find_send_control (send_control w) ip with
  | Some i =>
      match send_control w !! i with
      | Some c =>
          match out_file_p c with
          | Some h => if in_file_transfer c then delete h (open_files w)
                      else open_files w
          | None => open_files w
          end
      | None => open_files w
      end
  | None => open_files w
  end.

(** An entry after a chunk: the timer restarted, [n] bytes to come. *)
Definition after_chunk (e : env) (n : Z) (c : file_sent_control) : file_sent_control :=
  set_to_receive_count n (set_transfer_start_time (time_now e) c).

(** The sweep in one pass, as the specification words it: the entries
    that timed out are closed in the order of the vector and taken out,
    the others stay as they are. *)
Definition sweep_once (now : Z) (w : world) : world :=
  set_send_control (filter (fun c => timer_expired now c = false))
    (foldl close_timed_out w
       (filter (fun c => timer_expired now c = true) (send_control w))).

(** The device [ip] has an entry that is receiving. *)
Definition receiving_from (ip : string) (w : world) : Prop :=
  exists i c,
    find_send_control (send_control w) ip = Some i /\
    send_control w !! i = Some c /\
    is_receiving c = true.

(** Every handle an entry holds was returned by an earlier [fopen]. *)
Definition handles_known (w : world) : Prop :=
  forall c h, c ∈ send_control w -> out_file_p c = Some h -> (h < next_file w)%nat.

Definition registry_ok (w : world) : Prop :=
  one_block_per_peer w /\ handles_known w.

(** [w'] has the vector, the files and the handles of [w]. *)
Definition files_untouched (w w' : world) : Prop :=
  send_control w' = send_control w /\ next_file w' = next_file w /\
  open_files w' = open_files w /\ disk w' = disk w.

(** Every entry of [l'] continues an entry of [l]: same device, same
    handle; and the devices of [l'] are devices of [l], in their order. *)
Definition continues (l l' : list file_sent_control) : Prop :=
  (ip_address <$> l') `sublist_of` (ip_address <$> l) /\
  forall c', c' ∈ l' ->
    exists c, c ∈ l /\ ip_address c' = ip_address c /\ out_file_p c' = out_file_p c.

(** ** Machines and frames to run the model on *)

(** An operating system on which every call succeeds in full; 65507 bytes
    is the most a UDP datagram carries. *)
Definition calm (t : Z) : env :=
  {| time_now := t;
     sendto_limit := fun _ => Some 65507%positive;
     fwrite_limit := fun _ => UDP_IN_BUFFER_SIZE;
     fopen_wb_ok := fun _ => true |}.


(** A host on which this is the only chat running: [ps x | grep chat]
    lists the program, the shell [popen] started and the [grep] itself. *)
Definition lone_host : host :=
  {| ps_records :=
       [ " 2101 pts/0    S+     0:00 ./chat";
         " 2102 pts/0    S+     0:00 sh -c ps x | grep chat";
         " 2104 pts/0    S+     0:00 grep chat" ];
     send_socket_fd := 3;
     receive_socket_fd := 4;
     bind_ok := true;
     host_disk := ∅ |}.

(** The object the constructor builds there on the default port. *)
Definition fresh : world :=
  {| send_socket := 3;
     receive_socket := 4;
     transmit_port := 5778;
     receive_port := 5777;
     udp_inbound_buffer := replicate UDP_IN_BUFFER_SIZE ASCII_NULL_ZERO;
     send_control := [];
     disk := ∅;
     open_files := ∅;
     next_file := O;
     wire := [];
     console := [];
     sendto_calls := O;
     fwrite_calls := O |}.

(** The frame [send_file] opens a transfer of [size] bytes with. *)
Definition send_frame (name : string) (size : Z) : list byte :=
  bytes_of_header
    {| header_command := xfer_tag;
       file_name := bytes_of_string name;
       file_size := size;
       trans_type := trans_type_send |}.

Definition peer_a : string := "192.168.1.20".
Definition peer_b : string := "192.168.1.21".

(** [fresh] after a peer announced a file of [size] bytes. *)
Definition receiving (name : string) (size : Z) (ip : string) (t : Z) : world :=
  snd (read_data (calm t) (Some (send_frame name size, ip)) fresh).

(** [fresh] after two peers each announced a file at time 100. *)
Definition two_transfers : world :=
  snd (read_data (calm 100) (Some (send_frame "b.txt" 7, peer_b))
         (receiving "a.txt" 5 peer_a 100)).

(** [fresh] after a peer announced an empty file: nothing was started,
    the frame is still in the buffer. *)
Definition after_empty_announcement : world :=
  snd (read_data (calm 100) (Some (send_frame "notes.txt" 0, peer_a)) fresh).

(** A world whose directory holds a file "big" of 2 GiB. *)
Definition big_contents : list byte :=
  replicate (Z.to_nat (2 ^ 31)) ASCII_NULL_ZERO.

Definition with_big_file : world :=
  set_disk (insert "big" big_contents) fresh.

(** A world whose directory holds a file "notes.txt" of 2500 bytes. *)
Definition notes_contents : list byte := replicate 2500 "a"%char.

Definition with_notes : world :=
  set_disk (insert "notes.txt" notes_contents) fresh.

(** A network whose [sendto] takes two bytes at a time. *)
Definition trickle (t : Z) : env :=
  {| time_now := t;
     sendto_limit := fun _ => Some 2%positive;
     fwrite_limit := fun _ => UDP_IN_BUFFER_SIZE;
     fopen_wb_ok := fun _ => true |}.

(** The entries of the devices other than [ip], in the order of the
    vector. *)
Definition others (ip : string) (l : list file_sent_control) : list file_sent_control :=
  filter (fun c => ip_address c <> ip) l.

(** ** A run of frames from one peer *)

(** The frames of one peer, each taken off the socket by one call of
    [read_data], as the loop of main does when nothing else arrives in
    between. *)
Definition feed (e : env) (ip : string) (frames : list (list byte)) (w : world) : world :=
  foldl (fun w frame => snd (read_data e (Some (frame, ip)) w)) w frames.

(** A chunk that [read_data] cannot take for a header frame whatever the
    buffer held before: its leading bytes are not the tag, and if it is
    shorter than the tag, they are not the beginning of the tag. *)
Definition clear_of_tag (chunk : list byte) : Prop :=
  take (length chunk) xfer_tag <> take 6 chunk.

(** The entry of a transfer under way. *)
Definition receiving_block (ip : string) (h : nat) (left t : Z) : file_sent_control :=
  {| in_file_transfer := true; to_receive_count := left;
     out_file_p := Some h; transfer_start_time := t; ip_address := ip |}.

(** The receiver in the middle of a transfer from [ip]: beside the
    entries [sc], the files [ofs] and the disk [d] it began with, it holds
    the last entry of the vector for [ip], with the handle [h] open on
    [path], which holds [written] so far. *)
Definition transfer_open (ip : string) (h : nat) (path : string)
    (sc : list file_sent_control) (ofs : gmap nat string)
    (d : gmap string (list byte)) (con : list message)
    (written : list byte) (left : Z) (w : world) : Prop :=
  receive_socket w <> HANDLE_NOT_VALID /\
  (exists t, send_control w = sc ++ [receiving_block ip h left t]) /\
  open_files w = <[h := path]> ofs /\
  disk w = <[path := written]> d /\
  console w = con.

(** The part of a path behind its last slash, which [send_file] puts into
    the header as the name of the file. *)
Definition file_name_of (p : list byte) : list byte :=
  match strrchr p ASCII_SLASH with
  | Some i => drop (S i) p
  | None => p
  end.

(** ** Files the program is not writing *)

(** The worlds the loop of main gets to from [w0], round by round. *)
Inductive runs_to (w0 : world) : world -> Prop :=
  | runs_nowhere : runs_to w0 w0
  | runs_poll e inbound w :
      runs_to w0 w -> runs_to w0 (main_poll e inbound w)
  | runs_command e c w :
      runs_to w0 w -> runs_to w0 (main_command e c w)
  | runs_timed_out e w :
      runs_to w0 w -> runs_to w0 (snd (transfer_timed_out e w)).

(** The file [p] holds [c] and no handle is open on it. *)
Definition closed_file (p : string) (c : list byte) (w : world) : Prop :=
  disk w !! p = Some c /\ forall h, open_files w !! h <> Some p.

(** A world whose directory holds "a.txt1" to "a.txt20". *)
Definition crowded : world :=
  set_disk
    (fun d => foldr (fun j : nat => insert ("a.txt" +:+ pretty j)%string []) d (seq 1 20))
    fresh.

(** The control blocks and the open handles agree: every block is
    receiving, no two blocks hold the same handle, and the handles that
    are open are exactly the handles the blocks hold. *)
Definition tidy (l : list file_sent_control) (ofs : gmap nat string) : Prop :=
  (forall c, c ∈ l -> is_receiving c = true) /\
  NoDup (out_file_p <$> l) /\
  (forall h, is_Some (ofs !! h) <-> Some h ∈ out_file_p <$> l).

Definition handles_tidy (w : world) : Prop :=
  tidy (send_control w) (open_files w).

(** ** ChatClass::~ChatClass *)

(** The two sockets closed: each one that is assigned is closed and
    flagged as closed. *)
Definition close_sockets (w : world) : world :=
  {| send_socket :=
       if decide (send_socket w ≠ HANDLE_NOT_VALID)
       then HANDLE_NOT_VALID else send_socket w;
     receive_socket :=
       if decide (receive_socket w ≠ HANDLE_NOT_VALID)
       then HANDLE_NOT_VALID else receive_socket w;
     transmit_port := transmit_port w; receive_port := receive_port w;
     udp_inbound_buffer := udp_inbound_buffer w;
     send_control := send_control w; disk := disk w;
     open_files := open_files w; next_file := next_file w;
     wire := wire w; console := console w;
     sendto_calls := sendto_calls w; fwrite_calls := fwrite_calls w |}.

(** The [for] loop of the destructor: the index of the first entry whose
    [out_file_p] is not NULL. *)
Fixpoint find_open_file (l : list file_sent_control) : option nat :=
  match l with
  | [] => None
  | c :: rest =>
      match out_file_p c with
      | Some _ => Some O
      | None => S <$> find_open_file rest
      end
  end.

(** The [while( true == restart_search )] loop of the destructor.  Every
    round but the last erases an entry, so [S (length (send_control w))]
    rounds are enough ([close_files_loop_done]). *)
Fixpoint close_files_loop (fuel : nat) (w : world) : world :=
  match fuel with
  | O => w
  | S fuel' =>
      match find_open_file (send_control w) with
      | None => w
      | Some this_index =>
          let w1 :=
            match send_control w !! this_index with
            | Some c =>
                match out_file_p c with
                | Some h => fclose h w
                | None => w
                end
            | None => w
            end in
          close_files_loop fuel' (set_send_control (delete this_index) w1)
      end
  end.

(** The destructor, as far as it acts on the world. *)
Definition ChatClass_delete (w : world) : world :=
  close_files_loop (S (length (send_control w))) (close_sockets w).

(** ** main.cpp: the console *)

Module ChatDefines.
Definition command_exit : list byte := bytes_of_string "exit".
Definition command_send : list byte := bytes_of_string ":send".
Definition command_get : list byte := bytes_of_string ":get".
Definition command_log : list byte := bytes_of_string ":log".
Definition MAX_CONSOLE_IN_SIZE : nat := 1024.
End ChatDefines.

(** [console_in_data] and [console_in_count]. *)
Record console_in := {
  console_in_data : list byte;      (* char[ MAX_CONSOLE_IN_SIZE ] *)
  console_in_count : Z              (* int                         *)
}.

(** [bytes] written into [mem] from [offset] on. *)
Definition store (mem : list byte) (offset : nat) (bytes : list byte) : list byte :=
  take offset mem ++ bytes ++ drop (offset + length bytes) mem.

(** [arrival] is what the terminal has ready when [read] is called; [read]
    stores as much of it as it was asked for and returns the number of
    bytes stored, and a result that is not above 0 leaves everything as
    it is.  The size asked for is computed in [size_t]. *)
Definition accumulate_console_input (arrival : list byte) (s : console_in)
    : Z * console_in :=
  let asked :=
    (Z.of_nat ChatDefines.MAX_CONSOLE_IN_SIZE - (console_in_count s + 1))
    mod 2 ^ 64 in
  let got := take (Z.to_nat asked) arrival in
  let read_count := int_wrap (Z.of_nat (length got)) in
  if 0 <? read_count then
    let data := store (console_in_data s) (Z.to_nat (console_in_count s)) got in
    let count := int_wrap (console_in_count s + read_count) in
    match data !! Z.to_nat (count - 1) with
    | Some c =>
        if decide (c = ASCII_CARRIAGE_RETURN \/ c = ASCII_LINE_FEED)
        then (count,
              {| console_in_data := <[Z.to_nat count := ASCII_NULL_ZERO]> data;
                 console_in_count := count |})
        else (0, {| console_in_data := data; console_in_count := count |})
    | None => (0, {| console_in_data := data; console_in_count := count |})
    end
  else (0, s).

(** The calls of successive rounds of the loop of main, as long as none
    of them returns a line: what each returned, and the buffer after the
    last. *)
Fixpoint console_reads (arrivals : list (list byte)) (s : console_in)
    : list Z * console_in :=
  match arrivals with
  | [] => ([], s)
  | arrival :: rest =>
      let '(read_count, s1) := accumulate_console_input arrival s in
      let '(counts, s2) := console_reads rest s1 in
      (read_count :: counts, s2)
  end.

(** What main does with a complete line: the chain of [strncmp] tests. *)
Inductive console_line :=
  | line_exit
  | line_log
  | line_command (c : command).

Definition console_dispatch (console_in_data : list byte) : console_line :=
  if decide (strncmp console_in_data ChatDefines.command_exit
               (strlen ChatDefines.command_exit) = 0)
  then line_exit
  else if decide (strncmp console_in_data ChatDefines.command_send
                    (strlen ChatDefines.command_send) = 0)
  then line_command (command_send (drop 5 console_in_data))
  else if decide (strncmp console_in_data ChatDefines.command_get
                    (strlen ChatDefines.command_get) = 0)
  then line_command (command_get (drop 4 console_in_data))
  else if decide (strncmp console_in_data ChatDefines.command_log
                    (strlen ChatDefines.command_log) = 0)
  then line_log
  else line_command (command_text console_in_data).

(** What a call got does not end a line. *)
Definition unfinished (piece : list byte) : Prop :=
  match last piece with
  | Some c => c <> ASCII_CARRIAGE_RETURN /\ c <> ASCII_LINE_FEED
  | None => False
  end.

(** ** ChatClass::set_non_blocking and ChatClass::set_blocking *)

(** [O_NONBLOCK] of [fcntl.h] on Linux. *)
Definition O_NONBLOCK : Z := 2048.

(** The table [t] holds the file status flags of the descriptors that
    are open.  [fcntl( fd, F_GETFL, 0 )]: the flags, or -1 for a
    descriptor that is not open. *)
Definition fcntl_getfl (fd : Z) (t : gmap Z Z) : Z :=
  match t !! fd with
  | Some flags => flags
  | None => -1
  end.

(** [fcntl( fd, F_SETFL, flags )]: 0 with the flags set, or -1 for a
    descriptor that is not open. *)
Definition fcntl_setfl (fd flags : Z) (t : gmap Z Z) : Z * gmap Z Z :=
  match t !! fd with
  | Some _ => (0, <[fd := flags]> t)
  | None => (-1, t)
  end.

Definition set_non_blocking (this_socket : Z) (t : gmap Z Z) : bool * gmap Z Z :=
  if decide (this_socket = HANDLE_NOT_VALID) then (false, t)
  else
    let flags := fcntl_getfl this_socket t in
    let flags := Z.lor flags O_NONBLOCK in
    let '(result, t') := fcntl_setfl this_socket flags t in
    (bool_decide (result = 0), t').

Definition set_blocking (this_socket : Z) (t : gmap Z Z) : bool * gmap Z Z :=
  if decide (this_socket = HANDLE_NOT_VALID) then (false, t)
  else
    let flags := fcntl_getfl this_socket t in
    let flags := Z.land flags (Z.lnot O_NONBLOCK) in
    let '(result, t') := fcntl_setfl this_socket flags t in
    (bool_decide (result = 0), t').

(** * LoggingClass.cpp *)

(** The fields of [struct tm] the class reads. *)
Record tm := {
  tm_mday : Z;
  tm_mon : Z;
  tm_year : Z;
  tm_hour : Z;
  tm_min : Z;
  tm_sec : Z
}.

Definition months : list string :=
  [ "Jan"; "Feb"; "Mar"; "Apr"; "May"; "Jun";
    "Jul"; "Aug"; "Sep"; "Oct"; "Nov"; "Dec" ]%string.

(** What [sprintf] makes of [%02d]: the decimal digits, with a zero in
    front when that is one character only. *)
Definition format_02d (z : Z) : string :=
  let digits := pretty z in
  if (String.length digits <? 2)%nat then ("0" +:+ digits)%string else digits.

(** The name [sprintf] builds; a month outside the table is left out. *)
Definition build_log_file_name (our_time : tm) : string :=
  (format_02d (tm_mday our_time)
   +:+ default "" (months !! Z.to_nat (tm_mon our_time))
   +:+ format_02d (tm_year our_time + 1900)
   +:+ format_02d (tm_hour our_time) +:+ "-"
   +:+ format_02d (tm_min our_time) +:+ "-"
   +:+ format_02d (tm_sec our_time) +:+ "-chatlog.txt")%string.

(** The object with the directory its log is in and the lines it
    printed; [write_log_p] is the name of the file the handle is open
    on. *)
Record LoggingClass := {
  write_log_p : option string;
  log_file_name : string;
  logging_enabled : bool;
  log_disk : gmap string (list byte);
  log_console : list string
}.

(** The constructor, in a directory that holds [files]. *)
Definition LoggingClass_new (files : gmap string (list byte)) : LoggingClass :=
  {| write_log_p := None; log_file_name := ""; logging_enabled := true;
     log_disk := files; log_console := [] |}.

(** [our_time] is what [localtime_r] returns, [fopen_ok] whether the file
    can be created; [fopen( name, "w+t" )] creates the file empty, or
    empties it. *)
Definition logging_create_log (our_time : tm) (fopen_ok : bool) (l : LoggingClass)
    : LoggingClass :=
  match write_log_p l with
  | None =>
      let name := build_log_file_name our_time in
      if fopen_ok
      then {| write_log_p := Some name; log_file_name := name;
              logging_enabled := logging_enabled l;
              log_disk := <[name := []]> (log_disk l);
              log_console := log_console l |}
      else {| write_log_p := None; log_file_name := name;
              logging_enabled := logging_enabled l;
              log_disk := log_disk l;
              log_console := log_console l ++ [name] |}
  | Some _ => l
  end.

(** [fputs] writes the C string at [this_text_p]. *)
Definition logging_write_log (this_text_p : list byte) (l : LoggingClass)
    : LoggingClass :=
  match write_log_p l with
  | Some name =>
      if logging_enabled l
      then {| write_log_p := write_log_p l; log_file_name := log_file_name l;
              logging_enabled := logging_enabled l;
              log_disk := alter (fun old => old ++ cstr this_text_p) name (log_disk l);
              log_console := log_console l |}
      else l
  | None => l
  end.

Definition logging_enable_disable (logging_on_off : bool) (l : LoggingClass)
    : LoggingClass :=
  {| write_log_p := write_log_p l; log_file_name := log_file_name l;
     logging_enabled := logging_on_off;
     log_disk := log_disk l; log_console := log_console l |}.

(** The destructor. *)
Definition LoggingClass_delete (l : LoggingClass) : LoggingClass :=
  match write_log_p l with
  | Some _ =>
      {| write_log_p := None; log_file_name := log_file_name l;
         logging_enabled := logging_enabled l;
         log_disk := log_disk l; log_console := log_console l |}
  | None => l
  end.

(** The calls main can make on the object once it is built. *)
Inductive logging_call :=
  | call_create_log (our_time : tm) (fopen_ok : bool)
  | call_write_log (this_text_p : list byte)
  | call_enable_disable (logging_on_off : bool).

Definition logging_step (l : LoggingClass) (c : logging_call) : LoggingClass :=
  match c with
  | call_create_log our_time fopen_ok => logging_create_log our_time fopen_ok l
  | call_write_log this_text_p => logging_write_log this_text_p l
  | call_enable_disable logging_on_off => logging_enable_disable logging_on_off l
  end.

(** What a log holds after the calls, as one reads it off the calls: the
    texts written while logging was on, in their order. *)
Fixpoint logged (on : bool) (calls : list logging_call) : list byte :=
  match calls with
  | [] => []
  | call_create_log _ _ :: rest => logged on rest
  | call_write_log this_text_p :: rest =>
      (if on then cstr this_text_p else []) ++ logged on rest
  | call_enable_disable logging_on_off :: rest => logged logging_on_off rest
  end.

(** ** The loop of main with its log *)

Definition set_log_disk (files : gmap string (list byte)) (l : LoggingClass)
    : LoggingClass :=
  {| write_log_p := write_log_p l; log_file_name := log_file_name l;
     logging_enabled := logging_enabled l;
     log_disk := files; log_console := log_console l |}.

(** The chat object and the logger of main work in the same directory:
    a call on the logger finds the files as the chat object left them,
    and the chat object finds them afterwards as the logger left them. *)
Definition logging_in (call : LoggingClass -> LoggingClass) (w : world)
    (l : LoggingClass) : world * LoggingClass :=
  let l' := call (set_log_disk (disk w) l) in
  (set_disk (fun _ => log_disk l') w, l').

(** The first part of a round as main is compiled, [WANT_LOGGING] being
    1: what [main_poll] does, and after the [printf] the call
    [log_interface.logging_write_log( udp_inbound_buffer )]. *)
Definition main_poll_logged (e : env) (inbound : option (list byte * string))
    (wl : world * LoggingClass) : world * LoggingClass :=
  let '(w, l) := wl in
  let '(read_count, w1) := read_data e inbound w in
  if 0 <? read_count then
    let w2 :=
      set_udp_inbound_buffer (<[Z.to_nat read_count := ASCII_NULL_ZERO]>) w1 in
    let w3 := print (msg_text (cstr (udp_inbound_buffer w2))) w2 in
    logging_in (logging_write_log (udp_inbound_buffer w2)) w3 l
  else (w1, l).

(** The second part: what [main_command] does, and for a line of text
    the call [log_interface.logging_write_log( console_in_data )] after
    [send_text]. *)
Definition main_command_logged (e : env) (c : command)
    (wl : world * LoggingClass) : world * LoggingClass :=
  let '(w, l) := wl in
  match c with
  | command_text text =>
      logging_in (logging_write_log text) (send_text e text w) l
  | _ => (main_command e c w, l)
  end.

(** The states the chat object goes through from its construction on:
    the steps of the loop of main on the object itself, and in between
    the calls main makes on its logger, which change the files the
    object finds. *)
Inductive reachable : world -> Prop :=
  | reachable_new m this_port_number w :
      ChatClass_new m this_port_number = inr w -> reachable w
  | reachable_poll e inbound w :
      reachable w -> reachable (main_poll e inbound w)
  | reachable_command e c w :
      reachable w -> reachable (main_command e c w)
  | reachable_timed_out e w :
      reachable w -> reachable (snd (transfer_timed_out e w))
  | reachable_logged c l w :
      reachable w ->
      reachable (fst (logging_in (fun l => logging_step l c) w l)).

(** The frames of one peer, each met by one round of main. *)
Definition deliver_logged (e : env) (ip : string) (frames : list (list byte))
    (wl : world * LoggingClass) : world * LoggingClass :=
  foldl (fun wl frame => main_poll_logged e (Some (frame, ip)) wl) wl frames.

(** The [:log] line: main turns the switch it keeps, tells the logger
    and prints how the switch stands.  Switch and logger are both on at
    first and change here only, together, so the model reads the switch
    off the logger. *)
Definition main_log_command (wl : world * LoggingClass) : world * LoggingClass :=
  let '(w, l) := wl in
  let logging_on := negb (logging_enabled l) in
  (print (msg_logging_turned logging_on) w,
   logging_enable_disable logging_on l).

(** The chat object and the logger the loop of main gets to from [wl0],
    round by round: a frame is looked for, a line the operator completed
    is served, the transfers are swept. *)
Inductive runs_logged_to (wl0 : world * LoggingClass)
    : world * LoggingClass -> Prop :=
  | logged_nowhere : runs_logged_to wl0 wl0
  | logged_poll e inbound wl :
      runs_logged_to wl0 wl -> runs_logged_to wl0 (main_poll_logged e inbound wl)
  | logged_command e c wl :
      runs_logged_to wl0 wl -> runs_logged_to wl0 (main_command_logged e c wl)
  | logged_log wl :
      runs_logged_to wl0 wl -> runs_logged_to wl0 (main_log_command wl)
  | logged_timed_out e wl :
      runs_logged_to wl0 wl ->
      runs_logged_to wl0 (snd (transfer_timed_out e (fst wl)), snd wl).

(** What a call of [logging_write_log] with the text [line] makes of the
    files [d]. *)
Definition log_written (line : list byte) (l : LoggingClass)
    (d : gmap string (list byte)) : gmap string (list byte) :=
  match write_log_p l with
  | Some name =>
      if logging_enabled l then alter (fun old => old ++ line) name d else d
  | None => d
  end.

(** A day to run the model on. *)
Definition all_saints : tm :=
  {| tm_mday := 1; tm_mon := 10; tm_year := 126;
     tm_hour := 20; tm_min := 5; tm_sec := 3 |}.

(** Handles that are open are open on different files, and these files
    are on the disk. *)
Definition paths_apart (w : world) : Prop :=
  (forall h1 h2 p,
     open_files w !! h1 = Some p -> open_files w !! h2 = Some p -> h1 = h2) /\
  (forall h p, open_files w !! h = Some p -> is_Some (disk w !! p)).

(** The handle [h] is open on the file [path], which holds [content]. *)
Definition holds_open (h : nat) (path : string) (content : list byte) (w : world) : Prop :=
  open_files w !! h = Some path /\ disk w !! path = Some content.

(** No entry of the device [ip] holds the handle [h] or a handle that is
    open on [path]. *)
Definition foreign (ip : string) (h : nat) (path : string) (w : world) : Prop :=
  forall c' h',
    c' ∈ send_control w -> ip_address c' = ip -> out_file_p c' = Some h' ->
    h' <> h /\ open_files w !! h' <> Some path.

(** A file system that takes nothing at every other call of [fwrite] and
    three bytes at the others. *)
Definition hesitant (t : Z) : env :=
  {| time_now := t;
     sendto_limit := fun _ => Some 65507%positive;
     fwrite_limit := fun k => if Nat.even k then O else 3%nat;
     fopen_wb_ok := fun _ => true |}.

(** Projections of updated worlds. *)
Ltac fields :=
  cbn [send_socket receive_socket transmit_port receive_port
       udp_inbound_buffer send_control disk open_files next_file wire console
       sendto_calls fwrite_calls
       set_udp_inbound_buffer set_send_control set_disk set_open_files
       set_next_file set_wire set_sendto_calls set_fwrite_calls print fclose
       fst snd].

(** * Properties *)

(** ** Port roles (C9) *)

Lemma new_fresh : ChatClass_new lone_host 5777 = inr fresh.
Proof. reflexivity. Qed.

(** C9, as the specification states it, fails: the specification has the
    first instance on a host send on the base port and receive on the next
    one.  On a host where the program finds only itself running, the
    constructor does the opposite: it sends on 5778 and receives on 5777. *)
Lemma first_instance_sends_on_next_port :
  how_many_are_running (ps_records lone_host) = 1 /\
  exists w, ChatClass_new lone_host 5777 = inr w /\
    transmit_port w = 5778 /\ receive_port w = 5777 /\
    ~ (transmit_port w = 5777 /\ receive_port w = 5778).
Proof.
  split; [reflexivity|].
  exists fresh. repeat split; try reflexivity.
  intros [H _]. discriminate H.
Qed.

(** C9, amended: an instance that counts no other chat program on its
    host (a running count of at most one) sends on the base port plus one
    and receives on the base port; an instance that counts more than one
    sends on the base port and receives on the base port plus one. *)
Theorem ports_by_running_count (m : host) (base : Z) (w : world) :
  0 <= base < 65535 ->
  ChatClass_new m base = inr w ->
  (how_many_are_running (ps_records m) <= 1 ->
     transmit_port w = base + 1 /\ receive_port w = base) /\
  (1 < how_many_are_running (ps_records m) ->
     transmit_port w = base /\ receive_port w = base + 1).
Proof.
  intros Hbase Hnew.
  assert (Hw : int_wrap (base + 1) = base + 1).
  { unfold int_wrap. rewrite Z.mod_small; lia. }
  assert (Hh : forall p, 0 <= p < 65536 -> htons p = p).
  { intros p Hp. unfold htons. apply Z.mod_small. lia. }
  unfold ChatClass_new, choose_ports in Hnew. rewrite Hw in Hnew.
  destruct (Z.ltb_spec 1 (how_many_are_running (ps_records m))) as [Hc|Hc];
    destruct (send_socket_fd m <? 0); try discriminate;
    destruct (receive_socket_fd m <? 0); try discriminate;
    destruct (bind_ok m); try discriminate;
    injection Hnew as <-; cbn [transmit_port receive_port];
    rewrite !Hh by lia; split; intros; (lia || (split; reflexivity)).
Qed.

Lemma ports_by_running_count_witness :
  transmit_port fresh = 5777 + 1 /\ receive_port fresh = 5777.
Proof.
  apply (proj1 (ports_by_running_count lone_host 5777 fresh
                  ltac:(lia) new_fresh)).
  vm_compute. discriminate.
Defined.

(** ** The loops run to their end *)

(** The rounds given to each loop are enough: with more of them the
    result is the same. *)
Lemma send_data_loop_fuel fuel1 fuel2 e the_bytes w :
  (length the_bytes <= fuel1)%nat -> (length the_bytes <= fuel2)%nat ->
  send_data_loop fuel1 e the_bytes w = send_data_loop fuel2 e the_bytes w.
Proof.
  revert fuel2 the_bytes w.
  induction fuel1 as [|fuel1 IH]; intros fuel2 the_bytes w H1 H2.
  - destruct the_bytes; [now destruct fuel2|cbn in H1; lia].
  - destruct the_bytes as [|x rest]; [now destruct fuel2|].
    destruct fuel2 as [|fuel2]; [cbn in H2; lia|].
    cbn [send_data_loop]. unfold sendto.
    destruct (sendto_limit e (sendto_calls w)) as [n|]; [|reflexivity].
    assert (Hsent : (1 <= length (take (Pos.to_nat n) (x :: rest)))%nat).
    { rewrite length_take. cbn [length]. lia. }
    apply IH; rewrite length_drop; cbn [length] in *; lia.
Qed.

Lemma write_loop_fuel fuel1 fuel2 e h this_data k w :
  (k <= MAX_FILE_WRITE_RETRY_COUNT)%nat ->
  (S MAX_FILE_WRITE_RETRY_COUNT * length this_data
   + (MAX_FILE_WRITE_RETRY_COUNT - k) < fuel1)%nat ->
  (S MAX_FILE_WRITE_RETRY_COUNT * length this_data
   + (MAX_FILE_WRITE_RETRY_COUNT - k) < fuel2)%nat ->
  write_loop fuel1 e h this_data k w = write_loop fuel2 e h this_data k w.
Proof.
  unfold MAX_FILE_WRITE_RETRY_COUNT.
  revert fuel2 this_data k w.
  induction fuel1 as [|fuel1 IH]; intros fuel2 this_data k w Hk H1 H2; [lia|].
  destruct fuel2 as [|fuel2]; [lia|].
  cbn [write_loop]. destruct this_data as [|x rest]; [reflexivity|].
  unfold MAX_FILE_WRITE_RETRY_COUNT.
  destruct (Nat.ltb_spec k 20) as [Hlt|Hge]; [|reflexivity].
  unfold fwrite.
  set (accepted := take (fwrite_limit e (fwrite_calls w)) (x :: rest)).
  assert (Hacc : (length accepted <= length (x :: rest))%nat).
  { subst accepted. rewrite length_take. lia. }
  destruct (open_files w !! h) as [path|].
  - destruct (length accepted) as [|n] eqn:Hn.
    + apply IH; cbn [length] in *; lia.
    + apply IH; rewrite ?length_drop; cbn [length] in *; lia.
  - apply IH; cbn [length] in *; lia.
Qed.

Lemma send_file_loop_fuel fuel1 fuel2 e size in_file out_count w :
  0 < size ->
  (Z.to_nat out_count <= fuel1)%nat -> (Z.to_nat out_count <= fuel2)%nat ->
  send_file_loop fuel1 e size in_file out_count w =
  send_file_loop fuel2 e size in_file out_count w.
Proof.
  intros Hsize. revert fuel2 in_file out_count w.
  induction fuel1 as [|fuel1 IH]; intros fuel2 in_file out_count w H1 H2.
  - destruct fuel2; [reflexivity|]. cbn [send_file_loop].
    destruct (Z.ltb_spec 0 out_count); [lia|reflexivity].
  - cbn [send_file_loop]. destruct (Z.ltb_spec 0 out_count) as [Hpos|Hle].
    + destruct fuel2 as [|fuel2]; [lia|]. cbn [send_file_loop].
      destruct (Z.ltb_spec 0 out_count); [|lia].
      apply IH; destruct (size <? out_count); lia.
    + destruct fuel2; [reflexivity|]. cbn [send_file_loop].
      destruct (Z.ltb_spec 0 out_count); [lia|reflexivity].
Qed.

Lemma cstr_insert_nul p i :
  (i < strlen p)%nat -> cstr (<[i := ASCII_NULL_ZERO]> p) = take i (cstr p).
Proof.
  unfold strlen. revert i. induction p as [|c rest IH]; intros i Hi; [cbn in Hi; lia|].
  cbn [cstr] in Hi |- *. destruct (decide (c = ASCII_NULL_ZERO)) as [Hc|Hc];
    [cbn in Hi; lia|].
  destruct i as [|i]; cbn [insert list_insert cstr take].
  - now rewrite decide_True.
  - rewrite decide_False by exact Hc. cbn [take]. f_equal.
    apply IH. cbn [length] in Hi. lia.
Qed.

Lemma remove_endline_fuel fuel1 fuel2 p :
  (strlen p <= fuel1)%nat -> (strlen p <= fuel2)%nat ->
  remove_endline fuel1 p = remove_endline fuel2 p.
Proof.
  revert fuel2 p. induction fuel1 as [|fuel1 IH]; intros fuel2 p H1 H2.
  - assert (Hnil : cstr p = []) by (apply length_zero_iff_nil; unfold strlen in H1; lia).
    destruct fuel2; [reflexivity|]. cbn [remove_endline]. now rewrite Hnil.
  - cbn [remove_endline]. destruct (last (cstr p)) as [c|] eqn:Hlast.
    + assert (Hpos : (0 < strlen p)%nat).
      { unfold strlen. destruct (cstr p); [discriminate|cbn; lia]. }
      destruct fuel2 as [|fuel2]; [lia|]. cbn [remove_endline]. rewrite Hlast.
      destruct (decide _); [|reflexivity].
      apply IH; unfold strlen at 1; rewrite cstr_insert_nul by lia;
        rewrite length_take; fold (strlen p); lia.
    + destruct fuel2; [reflexivity|]. cbn [remove_endline]. now rewrite Hlast.
Qed.

Lemma choose_file_name_fuel fuel1 fuel2 base k w :
  (MAX_FILE_OVERWRITE_CHECK <= fuel1 + k)%nat ->
  (MAX_FILE_OVERWRITE_CHECK <= fuel2 + k)%nat ->
  choose_file_name fuel1 base k w = choose_file_name fuel2 base k w.
Proof.
  revert fuel2 k. induction fuel1 as [|fuel1 IH]; intros fuel2 k H1 H2.
  - destruct fuel2; [reflexivity|]. cbn [choose_file_name].
    destruct (Nat.ltb_spec k MAX_FILE_OVERWRITE_CHECK); [cbn in H1; lia|reflexivity].
  - cbn [choose_file_name].
    destruct (Nat.ltb_spec k MAX_FILE_OVERWRITE_CHECK) as [Hlt|Hge].
    + destruct fuel2 as [|fuel2]; [cbn in H2; lia|]. cbn [choose_file_name].
      destruct (Nat.ltb_spec k MAX_FILE_OVERWRITE_CHECK); [|lia].
      destruct (file_exists _ w); [|reflexivity]. apply IH; lia.
    + destruct fuel2; [reflexivity|]. cbn [choose_file_name].
      destruct (Nat.ltb_spec k MAX_FILE_OVERWRITE_CHECK); [lia|reflexivity].
Qed.


(** ** The name of the output file (C3) *)

(** Whatever name the loop settles on carries a number between the
    counter's next value and twenty behind the requested name. *)
Lemma choose_file_name_suffixed fuel base k w name :
  choose_file_name fuel base k w = Some name ->
  exists j : nat,
    (k < j <= MAX_FILE_OVERWRITE_CHECK)%nat /\
    name = string_of_bytes base +:+ pretty j.
Proof.
  revert k. induction fuel as [|fuel IH]; intros k H; [discriminate|].
  cbn [choose_file_name] in H.
  destruct (Nat.ltb_spec k MAX_FILE_OVERWRITE_CHECK) as [Hk|Hk]; [|discriminate].
  change (0 <? S k)%nat with true in H. cbv iota in H.
  destruct (file_exists _ w).
  - destruct (IH _ H) as (j & Hj & ->). exists j. split; [lia|reflexivity].
  - injection H as <-. exists (S k). split; [lia|reflexivity].
Qed.

(** C3 fails on the code: a transfer of "report.txt" into an empty
    directory is stored as "report.txt1".  The literal name is not tried,
    although it is free before and after. *)
Theorem literal_name_is_skipped :
  let w := receiving "report.txt" 5 peer_a 100 in
  file_exists "report.txt" fresh = false /\
  file_exists "report.txt" w = false /\
  disk w !! "report.txt1" = Some [] /\
  open_files w !! O = Some "report.txt1" /\
  send_control w =
    [ {| in_file_transfer := true; to_receive_count := 5;
         out_file_p := Some O; transfer_start_time := 100;
         ip_address := peer_a |} ].
Proof. vm_compute. repeat split; reflexivity. Qed.

(** ** Frames that announce an empty file (C6) *)

Lemma drop_previous_buffer ip w :
  udp_inbound_buffer (drop_previous ip w) = udp_inbound_buffer w.
Proof.
  unfold drop_previous. destruct (find_send_control _ _); [|reflexivity].
  cbn. destruct (_ !! _) as [c|]; [|reflexivity].
  destruct (out_file_p c); [|reflexivity].
  destruct (in_file_transfer c); reflexivity.
Qed.

Lemma drop_previous_disk ip w : disk (drop_previous ip w) = disk w.
Proof.
  unfold drop_previous. destruct (find_send_control _ _); [|reflexivity].
  cbn. destruct (_ !! _) as [c|]; [|reflexivity].
  destruct (out_file_p c); [|reflexivity].
  destruct (in_file_transfer c); reflexivity.
Qed.

Lemma drop_previous_next_file ip w : next_file (drop_previous ip w) = next_file w.
Proof.
  unfold drop_previous. destruct (find_send_control _ _); [|reflexivity].
  cbn. destruct (_ !! _) as [c|]; [|reflexivity].
  destruct (out_file_p c); [|reflexivity].
  destruct (in_file_transfer c); reflexivity.
Qed.

Lemma drop_previous_send_control ip w :
  send_control (drop_previous ip w) =
  match find_send_control (send_control w) ip with
  | Some i => delete i (send_control w)
  | None => send_control w
  end.
Proof.
  unfold drop_previous. destruct (find_send_control _ _); [|reflexivity].
  cbn. destruct (_ !! _) as [c|]; [|reflexivity].
  destruct (out_file_p c); [|reflexivity].
  destruct (in_file_transfer c); reflexivity.
Qed.

Lemma drop_previous_open_files ip w :
  open_files (drop_previous ip w) = open_after_drop ip w.
Proof.
  unfold drop_previous, open_after_drop.
  destruct (find_send_control _ _); [|reflexivity].
  cbn. destruct (_ !! _) as [c|]; [|reflexivity].
  destruct (out_file_p c); [|reflexivity].
  destruct (in_file_transfer c); reflexivity.
Qed.

(** When all twenty numbered names are taken, no name is chosen, and the
    request ends with the previous entry of the device taken out and
    nothing else done: no file, no control block. *)
Lemma choose_file_name_exhausted fuel base k w :
  (forall j : nat, (k < j <= MAX_FILE_OVERWRITE_CHECK)%nat ->
     file_exists (string_of_bytes base +:+ pretty j) w = true) ->
  choose_file_name fuel base k w = None.
Proof.
  revert k. induction fuel as [|fuel IH]; intros k Hall; [reflexivity|].
  cbn [choose_file_name].
  destruct (Nat.ltb_spec k MAX_FILE_OVERWRITE_CHECK) as [Hlt|Hge]; [|reflexivity].
  change (0 <? S k)%nat with true. cbv iota.
  rewrite Hall by lia. apply IH. intros j Hj. apply Hall. lia.
Qed.

Lemma receive_file_start_exhausted e n ip w :
  (forall j : nat, (0 < j <= MAX_FILE_OVERWRITE_CHECK)%nat ->
     file_exists
       (string_of_bytes (cstr (name_field_onwards (udp_inbound_buffer w)))
        +:+ pretty j) w = true) ->
  receive_file_start e n ip w = drop_previous ip w.
Proof.
  intros Hall. unfold receive_file_start.
  destruct (_ =? 0); [reflexivity|].
  rewrite choose_file_name_exhausted; [reflexivity|].
  intros j Hj. rewrite drop_previous_buffer.
  unfold file_exists. rewrite drop_previous_disk. now apply Hall.
Qed.

(** C6, as the specification states it, fails: a frame that announces an
    empty file does change the registry when its sender has a transfer
    open.  The open transfer is aborted first: its entry is erased and its
    file closed. *)
Lemma empty_file_frame_aborts_open_transfer :
  let w := receiving "report.txt" 5 peer_a 100 in
  let w' := snd (read_data (calm 101) (Some (send_frame "notes.txt" 0, peer_a)) w) in
  file_size (header_of_bytes (send_frame "notes.txt" 0)) = 0 /\
  length (send_control w) = 1%nat /\
  open_files w !! O = Some "report.txt1" /\
  send_control w' = [] /\
  open_files w' !! O = None /\
  send_control w' <> send_control w.
Proof. vm_compute. repeat split; try reflexivity. discriminate. Qed.

(** C6, amended: a frame that announces an empty file creates no control
    block and no file and leaves the disk as it was; the registry and the
    open handles change in one case only, when the sender already has an
    entry: that entry is erased, and its file closed if it was receiving.
    When the sender has no entry nothing changes at all. *)
Theorem empty_file_frame_creates_nothing (e : env) (n : nat) (ip : string) (w : world) :
  file_size (header_of_bytes (udp_inbound_buffer w)) = 0 ->
  let w' := receive_file_start e n ip w in
  disk w' = disk w /\
  next_file w' = next_file w /\
  open_files w' = open_after_drop ip w /\
  send_control w' =
    match find_send_control (send_control w) ip with
    | Some i => delete i (send_control w)
    | None => send_control w
    end /\
  (find_send_control (send_control w) ip = None -> w' = w).
Proof.
  intros Hsize w'. subst w'. unfold receive_file_start.
  rewrite drop_previous_buffer, Hsize. cbn [Z.eqb].
  rewrite drop_previous_disk, drop_previous_next_file,
    drop_previous_open_files, drop_previous_send_control.
  repeat split. intros Hnone. unfold drop_previous. rewrite Hnone. reflexivity.
Qed.

Lemma empty_file_frame_creates_nothing_witness :
  let w := snd (recvfrom (send_frame "notes.txt" 0) (receiving "report.txt" 5 peer_a 100)) in
  let w' := receive_file_start (calm 101) sizeof_file_header peer_a w in
  disk w' = disk w /\
  next_file w' = next_file w /\
  open_files w' = open_after_drop peer_a w /\
  send_control w' =
    match find_send_control (send_control w) peer_a with
    | Some i => delete i (send_control w)
    | None => send_control w
    end /\
  (find_send_control (send_control w) peer_a = None -> w' = w).
Proof.
  apply (empty_file_frame_creates_nothing (calm 101) sizeof_file_header peer_a
           (snd (recvfrom (send_frame "notes.txt" 0)
                   (receiving "report.txt" 5 peer_a 100)))).
  vm_compute. reflexivity.
Defined.

(** ** Chunks and the remaining count (C2, C10) *)

Lemma fwrite_frame e h data w :
  let w' := snd (fwrite e h data w) in
  send_control w' = send_control w /\ open_files w' = open_files w /\
  next_file w' = next_file w /\ wire w' = wire w /\ console w' = console w /\
  udp_inbound_buffer w' = udp_inbound_buffer w /\
  sendto_calls w' = sendto_calls w.
Proof.
  unfold fwrite. destruct (open_files w !! h); cbn; repeat split.
Qed.

Lemma write_loop_frame fuel e h data k w :
  let w' := write_loop fuel e h data k w in
  send_control w' = send_control w /\ open_files w' = open_files w /\
  next_file w' = next_file w /\ wire w' = wire w /\ console w' = console w /\
  udp_inbound_buffer w' = udp_inbound_buffer w /\
  sendto_calls w' = sendto_calls w.
Proof.
  revert data k w. induction fuel as [|fuel IH]; intros data k w; cbn zeta.
  { cbn. repeat split. }
  cbn [write_loop]. destruct data as [|b data]; [repeat split|].
  destruct (k <? MAX_FILE_WRITE_RETRY_COUNT)%nat; [|repeat split].
  pose proof (fwrite_frame e h (b :: data) w) as Hf. cbn zeta in Hf.
  destruct (fwrite e h (b :: data) w) as [[|n] w1]; cbn [snd] in Hf.
  - specialize (IH (b :: data) (S k) w1). cbn zeta in IH.
    destruct Hf as (<- & <- & <- & <- & <- & <- & <-). exact IH.
  - specialize (IH (drop (S n) (b :: data)) O w1). cbn zeta in IH.
    destruct Hf as (<- & <- & <- & <- & <- & <- & <-). exact IH.
Qed.


Lemma is_receiving_inv c :
  is_receiving c = true ->
  in_file_transfer c = true /\ exists h, out_file_p c = Some h.
Proof.
  unfold is_receiving. destruct (in_file_transfer c); [|discriminate].
  destruct (out_file_p c) as [h|]; [eauto|discriminate].
Qed.

(** What [receive_file_block] does with the chunk of a device whose entry
    is receiving, in terms of the count the entry shows afterwards. *)
Lemma receive_file_block_receiving e data ip w i c h :
  find_send_control (send_control w) ip = Some i ->
  send_control w !! i = Some c ->
  in_file_transfer c = true ->
  out_file_p c = Some h ->
  let size := Z.of_nat (length data) in
  let left := if size <=? to_receive_count c
              then to_receive_count c - size else to_receive_count c in
  let w1 := write_loop (write_fuel data) e h data O w in
  receive_file_block e data ip w =
    if left =? 0
    then (true, set_send_control (delete i) (fclose h w1))
    else (true, set_send_control (<[i := after_chunk e left c]>) w1).
Proof.
  intros Hfind Hlook Hin Hout. cbn zeta. unfold receive_file_block.
  rewrite Hfind, Hlook, Hout, Hin. cbn [to_receive_count set_transfer_start_time].
  destruct (Z.of_nat (length data) <=? to_receive_count c);
    cbn [to_receive_count set_to_receive_count set_transfer_start_time];
    destruct (_ =? 0); reflexivity.
Qed.

Lemma take_drop_taken {A} n (l : list A) :
  take n l ++ drop (length (take n l)) l = l.
Proof.
  rewrite length_take. destruct (Nat.le_gt_cases n (length l)) as [Hle|Hgt].
  - rewrite Nat.min_l by exact Hle. apply take_drop.
  - rewrite Nat.min_r by lia. rewrite take_ge, drop_all by lia. apply app_nil_r.
Qed.

(** The loop of [receive_file_block] on a file system that never refuses
    [MAX_FILE_WRITE_RETRY_COUNT] times in a row: [tries] counts the calls
    just before that took nothing. *)
Lemma write_loop_retries e h path :
  (forall k, exists j, (j < MAX_FILE_WRITE_RETRY_COUNT)%nat /\
                       (0 < fwrite_limit e (k + j))%nat) ->
  forall fuel data tries w old,
    open_files w !! h = Some path ->
    disk w !! path = Some old ->
    (tries <= fwrite_calls w)%nat ->
    (forall i, (i < tries)%nat ->
       fwrite_limit e (fwrite_calls w - 1 - i) = O) ->
    (S MAX_FILE_WRITE_RETRY_COUNT * length data
     + (MAX_FILE_WRITE_RETRY_COUNT - tries) < fuel)%nat ->
    let w' := write_loop fuel e h data tries w in
    disk w' !! path = Some (old ++ data) /\
    forall p, p <> path -> disk w' !! p = disk w !! p.
Proof.
  unfold MAX_FILE_WRITE_RETRY_COUNT. intros Hlive.
  induction fuel as [|fuel IH]; intros data tries w old Hopen Hold Hcalls Hzero Hfuel;
    [lia|].
  cbn zeta. cbn [write_loop]. destruct data as [|b data].
  { rewrite app_nil_r. split; [exact Hold|reflexivity]. }
  assert (Htries : (tries < 20)%nat).
  { destruct (Nat.lt_ge_cases tries 20) as [Hlt|Hge]; [exact Hlt|exfalso].
    destruct (Hlive (fwrite_calls w - 20)%nat) as (j & Hj & Hpos).
    pose proof (Hzero (19 - j)%nat ltac:(lia)) as Hz.
    replace (fwrite_calls w - 1 - (19 - j))%nat
      with (fwrite_calls w - 20 + j)%nat in Hz by lia.
    rewrite Hz in Hpos. lia. }
  unfold MAX_FILE_WRITE_RETRY_COUNT.
  destruct (Nat.ltb_spec tries 20) as [_|Hge]; [|lia].
  unfold fwrite. rewrite Hopen.
  set (accepted := take (fwrite_limit e (fwrite_calls w)) (b :: data)).
  set (w1 := set_disk (alter (fun old => old ++ accepted) path)
               (set_fwrite_calls S w)).
  assert (Hopen1 : open_files w1 !! h = Some path) by exact Hopen.
  assert (Hold1 : disk w1 !! path = Some (old ++ accepted)).
  { subst w1. fields. now rewrite lookup_alter_eq, Hold. }
  assert (Hother1 : forall p, p <> path -> disk w1 !! p = disk w !! p).
  { intros p Hp. subst w1. fields. apply lookup_alter_ne. congruence. }
  destruct (length accepted) as [|n] eqn:Hlen.
  - assert (Hnone : accepted = []) by now apply length_zero_iff_nil.
    assert (Hlimit : fwrite_limit e (fwrite_calls w) = O).
    { subst accepted. destruct (fwrite_limit e (fwrite_calls w)); [reflexivity|].
      discriminate Hnone. }
    rewrite Hnone, app_nil_r in Hold1.
    destruct (IH (b :: data) (S tries) w1 old Hopen1 Hold1) as [Hd Ho].
    + subst w1. fields. lia.
    + intros i Hi. subst w1. fields.
      destruct i as [|i].
      * replace (S (fwrite_calls w) - 1 - 0)%nat with (fwrite_calls w) by lia.
        exact Hlimit.
      * replace (S (fwrite_calls w) - 1 - S i)%nat
          with (fwrite_calls w - 1 - i)%nat by lia.
        apply Hzero. lia.
    + cbn [length] in Hfuel |- *. lia.
    + split; [exact Hd|]. intros p Hp. rewrite Ho by exact Hp. now apply Hother1.
  - destruct (IH (drop (S n) (b :: data)) O w1 (old ++ accepted) Hopen1 Hold1)
      as [Hd Ho].
    + lia.
    + intros i Hi. lia.
    + rewrite length_drop. cbn [length] in Hfuel |- *. lia.
    + split.
      * rewrite Hd, <- app_assoc. f_equal. f_equal.
        rewrite <- Hlen. apply take_drop_taken.
      * intros p Hp. rewrite Ho by exact Hp. now apply Hother1.
Qed.

(** C2, as the specification states it, fails: the specification has a
    chunk larger than the remaining count accepted up to the bound, the
    counter floored at zero and the transfer completed.  With five bytes
    to come, a chunk of ten bytes is written to the file in full, the count
    stays at five, and the transfer is not completed: the entry stays in
    the vector and the file stays open. *)
Lemma oversized_chunk_completes_nothing :
  let w := receiving "report.txt" 5 peer_a 100 in
  let r := read_data (calm 101) (Some (bytes_of_string "0123456789", peer_a)) w in
  to_receive_count <$> send_control w = [5] /\
  fst r = 0 /\
  to_receive_count <$> send_control (snd r) = [5] /\
  open_files (snd r) !! O = Some "report.txt1" /\
  disk (snd r) !! "report.txt1" = Some (bytes_of_string "0123456789").
Proof. vm_compute. repeat split; reflexivity. Qed.

(** C2, amended: for every control block that is receiving with a positive
    remaining count, a chunk is accepted and the count neither grows nor
    falls below zero.  A chunk smaller than the count lowers it by the
    chunk's size; a chunk of exactly the count completes the transfer (the
    output is closed, the block erased); a chunk larger than the count
    leaves the count as it was and the transfer open, so that it completes
    nothing.  What goes to the file does not depend on the count: nothing
    is cut to it.  When [fwrite] never takes nothing twenty times in a
    row, the whole chunk, also one larger than the count, is appended to
    the file the block holds open, and no other file changes. *)
Theorem remaining_count_after_chunk
    (e : env) (data : list byte) (ip : string) (w : world)
    (i : nat) (c : file_sent_control) :
  find_send_control (send_control w) ip = Some i ->
  send_control w !! i = Some c ->
  is_receiving c = true ->
  0 < to_receive_count c ->
  let size := Z.of_nat (length data) in
  let w' := snd (receive_file_block e data ip w) in
  fst (receive_file_block e data ip w) = true /\
  (size < to_receive_count c ->
     send_control w' =
       <[i := after_chunk e (to_receive_count c - size) c]> (send_control w) /\
     open_files w' = open_files w /\
     0 < to_receive_count c - size <= to_receive_count c) /\
  (size = to_receive_count c ->
     send_control w' = delete i (send_control w) /\
     exists h, out_file_p c = Some h /\ open_files w' = delete h (open_files w)) /\
  (to_receive_count c < size ->
     send_control w' = <[i := after_chunk e (to_receive_count c) c]> (send_control w) /\
     open_files w' = open_files w) /\
  (forall (h : nat) (path : string) (old : list byte),
     out_file_p c = Some h ->
     open_files w !! h = Some path ->
     disk w !! path = Some old ->
     (forall k, exists j, (j < MAX_FILE_WRITE_RETRY_COUNT)%nat /\
                          (0 < fwrite_limit e (k + j))%nat) ->
     disk w' !! path = Some (old ++ data) /\
     forall p, p <> path -> disk w' !! p = disk w !! p).
Proof.
  intros Hfind Hlook Hrecv Hpos size w'.
  destruct (is_receiving_inv _ Hrecv) as (Hin & h & Hout).
  pose proof (receive_file_block_receiving e data ip w i c h Hfind Hlook Hin Hout)
    as Hblock. cbn zeta in Hblock. fold size in Hblock.
  pose proof (write_loop_frame (write_fuel data) e h data O w) as Hframe.
  cbn zeta in Hframe. destruct Hframe as (Hsc & Hof & _).
  assert (Hwritten : forall (h' : nat) (path : string) (old : list byte),
            out_file_p c = Some h' ->
            open_files w !! h' = Some path ->
            disk w !! path = Some old ->
            (forall k, exists j, (j < MAX_FILE_WRITE_RETRY_COUNT)%nat /\
                                 (0 < fwrite_limit e (k + j))%nat) ->
            disk w' !! path = Some (old ++ data) /\
            forall p, p <> path -> disk w' !! p = disk w !! p).
  { intros h' path old Hout' Hopen Hold Hlive.
    assert (h' = h) by congruence. subst h'.
    destruct (write_loop_retries e h path Hlive (write_fuel data) data O w old
                Hopen Hold) as [Hd Ho].
    - lia.
    - intros k Hk. lia.
    - unfold write_fuel. lia.
    - subst w'. rewrite Hblock.
      destruct (_ =? 0); cbn [snd]; fields; split; assumption. }
  split; [|split; [|split; [|split; [|exact Hwritten]]]]; clear Hwritten;
    subst w'; rewrite Hblock; clear Hblock;
    destruct (Z.leb_spec size (to_receive_count c)) as [Hle|Hgt].
  - destruct (_ =? 0); reflexivity.
  - destruct (_ =? 0); reflexivity.
  - intros Hlt.
    destruct (Z.eqb_spec (to_receive_count c - size) 0) as [Hz|Hnz]; [lia|].
    cbn [snd]. fields. rewrite Hsc, Hof.
    split; [reflexivity|]. split; [reflexivity|lia].
  - intros Hlt. lia.
  - intros Heq.
    destruct (Z.eqb_spec (to_receive_count c - size) 0) as [Hz|Hnz]; [|lia].
    cbn [snd]. fields. rewrite Hsc. split; [reflexivity|].
    exists h. rewrite Hof. split; [exact Hout|reflexivity].
  - intros Heq. lia.
  - intros Hlt. lia.
  - intros _.
    destruct (Z.eqb_spec (to_receive_count c) 0) as [Hz|Hnz]; [lia|].
    cbn [snd]. fields. rewrite Hsc, Hof. split; reflexivity.
Qed.

Lemma remaining_count_after_chunk_witness :
  let w := receiving "report.txt" 5 peer_a 100 in
  let w' := snd (receive_file_block (calm 101) (bytes_of_string "0123456789") peer_a w) in
  to_receive_count <$> send_control w' = [5] /\ open_files w' = open_files w.
Proof.
  pose (c := {| in_file_transfer := true; to_receive_count := 5;
                out_file_p := Some O; transfer_start_time := 100;
                ip_address := peer_a |}).
  pose proof (remaining_count_after_chunk (calm 101) (bytes_of_string "0123456789")
                peer_a (receiving "report.txt" 5 peer_a 100) O c
                eq_refl eq_refl eq_refl eq_refl) as (_ & _ & _ & Hover & _).
  destruct (Hover eq_refl) as (Hsc & Hof).
  cbn zeta. rewrite Hsc, Hof. split; reflexivity.
Defined.



(** ** The timeout sweep (C7) *)

Section Filter.
Context {A : Type} (P : A -> Prop) `{forall x, Decision (P x)}.

Lemma filter_all (l : list A) : Forall P l -> filter P l = l.
Proof.
  induction 1 as [|x l Hx _ IH]; [reflexivity|].
  rewrite filter_cons_True by assumption. now rewrite IH.
Qed.

Lemma filter_none (l : list A) : Forall (fun x => ~ P x) l -> filter P l = [].
Proof.
  induction 1 as [|x l Hx _ IH]; [reflexivity|].
  now rewrite filter_cons_False by assumption.
Qed.

Lemma filter_agree (Q : A -> Prop) `{forall x, Decision (Q x)} (l : list A) :
  Forall (fun x => P x <-> Q x) l -> filter P l = filter Q l.
Proof.
  induction 1 as [|x l Hx _ IH]; [reflexivity|].
  rewrite !filter_cons, IH. destruct (decide (P x)), (decide (Q x)); tauto.
Qed.
End Filter.

Lemma find_timed_out_none now l :
  find_timed_out now l = None ->
  Forall (fun c => timer_expired now c = false) l.
Proof.
  induction l as [|c l IH]; cbn; [constructor|].
  destruct (timer_expired now c) eqn:He; [discriminate|].
  destruct (find_timed_out now l); [discriminate|].
  intros _. constructor; auto.
Qed.

Lemma find_timed_out_some now l i :
  find_timed_out now l = Some i ->
  exists l1 c l2,
    l = l1 ++ c :: l2 /\ length l1 = i /\
    Forall (fun c => timer_expired now c = false) l1 /\
    timer_expired now c = true.
Proof.
  revert i. induction l as [|c l IH]; intros i; cbn; [discriminate|].
  destruct (timer_expired now c) eqn:He.
  - intros [= <-]. exists [], c, l. repeat split; auto.
  - destruct (find_timed_out now l) as [j|]; [|discriminate].
    cbn. intros [= <-].
    destruct (IH j eq_refl) as (l1 & c' & l2 & -> & <- & Hl1 & Hc).
    exists (c :: l1), c', l2. repeat split; auto.
Qed.

Lemma close_timed_out_send_control w c :
  send_control (close_timed_out w c) = send_control w.
Proof. unfold close_timed_out. destruct (out_file_p c); reflexivity. Qed.

Lemma close_timed_out_disk w c : disk (close_timed_out w c) = disk w.
Proof. unfold close_timed_out. destruct (out_file_p c); reflexivity. Qed.

Lemma close_timed_out_set f w c :
  close_timed_out (set_send_control f w) c =
  set_send_control f (close_timed_out w c).
Proof. unfold close_timed_out. destruct (out_file_p c); reflexivity. Qed.

Lemma foldl_close_set f cs w :
  foldl close_timed_out (set_send_control f w) cs =
  set_send_control f (foldl close_timed_out w cs).
Proof.
  revert w. induction cs as [|c cs IH]; intros w; [reflexivity|].
  cbn [foldl]. now rewrite close_timed_out_set, IH.
Qed.

Lemma foldl_close_send_control cs w :
  send_control (foldl close_timed_out w cs) = send_control w.
Proof.
  revert w. induction cs as [|c cs IH]; intros w; [reflexivity|].
  cbn [foldl]. now rewrite IH, close_timed_out_send_control.
Qed.

Lemma foldl_close_disk cs w : disk (foldl close_timed_out w cs) = disk w.
Proof.
  revert w. induction cs as [|c cs IH]; intros w; [reflexivity|].
  cbn [foldl]. now rewrite IH, close_timed_out_disk.
Qed.

(** A handle is open after the entries [cs] were closed exactly when it
    was open before and none of them held it. *)
Lemma foldl_close_open_files cs w h :
  open_files (foldl close_timed_out w cs) !! h =
  if decide (Some h ∈ out_file_p <$> cs) then None else open_files w !! h.
Proof.
  revert w. induction cs as [|c cs IH]; intros w.
  - cbn. destruct (decide _) as [Hin|_]; [|reflexivity]. now apply elem_of_nil in Hin.
  - cbn [foldl]. rewrite IH. rewrite fmap_cons.
    unfold close_timed_out.
    destruct (decide (Some h ∈ out_file_p <$> cs)) as [Hin|Hnin].
    + rewrite decide_True; [reflexivity|]. apply elem_of_cons. now right.
    + destruct (out_file_p c) as [h'|] eqn:Hc.
      * fields. destruct (decide (h' = h)) as [->|Hne].
        -- rewrite decide_True by (apply elem_of_cons; now left).
           apply lookup_delete_eq.
        -- rewrite decide_False.
           ++ now apply lookup_delete_ne.
           ++ intros Hin. apply elem_of_cons in Hin as [[= ->]|Hin]; tauto.
      * rewrite decide_False; [reflexivity|].
        intros Hin. apply elem_of_cons in Hin as [[=]|Hin]; tauto.
Qed.

Lemma existsb_expired_false now l :
  Forall (fun c => timer_expired now c = false) l ->
  existsb (timer_expired now) l = false.
Proof.
  induction 1 as [|c l Hc _ IH]; [reflexivity|]. cbn. now rewrite Hc, IH.
Qed.

(** The loop with its restarts does what one pass over the vector does;
    it comes to an end within the rounds it is given. *)
Lemma sweep_loop_once fuel now a w :
  (length (send_control w) < fuel)%nat ->
  sweep_loop fuel now a w =
    (a || existsb (timer_expired now) (send_control w), sweep_once now w).
Proof.
  revert a w. induction fuel as [|fuel IH]; intros a w Hlen; [lia|].
  cbn [sweep_loop].
  destruct (find_timed_out now (send_control w)) as [i|] eqn:Hfind.
  - destruct (find_timed_out_some _ _ _ Hfind) as (l1 & c & l2 & Hl & Hi & Hl1 & Hc).
    assert (Hlook : send_control w !! i = Some c).
    { rewrite Hl. now apply list_lookup_middle. }
    rewrite Hlook, IH.
    2:{ fields. rewrite close_timed_out_send_control, length_delete.
        - apply lookup_lt_Some in Hlook. lia.
        - rewrite Hlook. eauto. }
    assert (Hex : existsb (timer_expired now) (send_control w) = true).
    { rewrite Hl, existsb_app. cbn. rewrite Hc. now rewrite orb_true_r. }
    rewrite Hex, orb_true_r. cbn [orb]. f_equal.
    unfold sweep_once. fields.
    rewrite close_timed_out_send_control, foldl_close_set.
    rewrite Hl, <- Hi, delete_middle, !filter_app.
    rewrite (filter_none (fun c => timer_expired now c = true) l1).
    2:{ eapply Forall_impl; [exact Hl1|]. cbn. intros x ->. discriminate. }
    rewrite (filter_cons_True (fun c => timer_expired now c = true)) by exact Hc.
    cbn [app foldl].
    unfold set_send_control. fields. f_equal.
    rewrite !foldl_close_send_control, close_timed_out_send_control.
    rewrite Hl, delete_middle, !filter_app.
    rewrite (filter_cons_False (fun c => timer_expired now c = false));
      [reflexivity|]. rewrite Hc. discriminate.
  - pose proof (find_timed_out_none _ _ Hfind) as Hall.
    rewrite existsb_expired_false, orb_false_r by exact Hall. f_equal.
    unfold sweep_once.
    rewrite (filter_none (fun c => timer_expired now c = true)).
    2:{ eapply Forall_impl; [exact Hall|]. cbn. intros x ->. discriminate. }
    cbn [foldl]. unfold set_send_control.
    rewrite filter_all by exact Hall. now destruct w.
Qed.

Lemma timer_expired_running now c :
  0 < transfer_start_time c -> timer_expired now c = timed_out now c.
Proof.
  intros Hrun. unfold timer_expired, timed_out.
  destruct (Z.ltb_spec 0 (transfer_start_time c)); [reflexivity|lia].
Qed.

(** C7, as the specification states it, fails on one point: the sweep
    counts nothing.  With two transfers that both timed out, both entries
    are erased, and what the method returns is the truth value "some
    transfer timed out", whose value as an integer is 1, not 2. *)
Lemma sweep_reports_a_flag_not_a_count :
  let r := transfer_timed_out (calm 110) two_transfers in
  length (filter (fun c => timed_out 110 c = true) (send_control two_transfers)) = 2%nat /\
  send_control (snd r) = [] /\
  fst r = true /\
  Z.b2z (fst r) = 1 /\
  Z.b2z (fst r) <>
    Z.of_nat (length (filter (fun c => timed_out 110 c = true)
                        (send_control two_transfers))).
Proof. vm_compute. repeat split; try reflexivity. discriminate. Qed.

(** C7, amended: when the timers of all control blocks run, the sweep
    erases exactly the blocks whose last activity is ten seconds old or
    older, closing the output of each of them that is open; every other
    block, every other open file and the disk are left as they were; and
    the sweep returns whether at least one block timed out (a truth value,
    not a count). *)
Theorem sweep_removes_timed_out (e : env) (w : world) :
  Forall (fun c => 0 < transfer_start_time c) (send_control w) ->
  let now := time_now e in
  let r := transfer_timed_out e w in
  send_control (snd r) =
    filter (fun c => timed_out now c = false) (send_control w) /\
  (forall c h, c ∈ send_control w -> timed_out now c = true ->
     out_file_p c = Some h -> open_files (snd r) !! h = None) /\
  (forall h,
     (forall c, c ∈ send_control w -> timed_out now c = true ->
        out_file_p c <> Some h) ->
     open_files (snd r) !! h = open_files w !! h) /\
  disk (snd r) = disk w /\
  (fst r = true <-> exists c, c ∈ send_control w /\ timed_out now c = true).
Proof.
  intros Hrun now r. subst r. unfold transfer_timed_out. fold now.
  rewrite sweep_loop_once by lia. cbn [fst snd orb].
  assert (Hagree : forall b,
            Forall (fun c => timer_expired now c = b <-> timed_out now c = b)
              (send_control w)).
  { intros b. eapply Forall_impl; [exact Hrun|]. cbn. intros c Hc.
    now rewrite timer_expired_running. }
  unfold sweep_once. fields.
  rewrite foldl_close_send_control, foldl_close_disk.
  rewrite (filter_agree _ _ _ (Hagree false)), (filter_agree _ _ _ (Hagree true)).
  split; [reflexivity|]. split; [|split; [|split; [reflexivity|]]].
  - intros c h Hin Hout Hc. rewrite foldl_close_open_files.
    rewrite decide_True; [reflexivity|].
    apply list_elem_of_fmap. exists c. split; [now symmetry|].
    apply list_elem_of_filter. now split.
  - intros h Hnone. rewrite foldl_close_open_files.
    rewrite decide_False; [reflexivity|].
    intros Hin. apply list_elem_of_fmap in Hin as (c & Hc & Hin).
    apply list_elem_of_filter in Hin as (Hout & Hin).
    now apply (Hnone c Hin Hout).
  - rewrite existsb_exists. split.
    + intros (c & Hin & Hc). exists c. split; [now apply list_elem_of_In|].
      rewrite Forall_forall in Hrun. rewrite <- timer_expired_running; [exact Hc|].
      apply Hrun. now apply list_elem_of_In.
    + intros (c & Hin & Hc). exists c. split; [now apply list_elem_of_In|].
      rewrite Forall_forall in Hrun. rewrite timer_expired_running; [exact Hc|].
      now apply Hrun.
Qed.

Lemma sweep_removes_timed_out_witness :
  let r := transfer_timed_out (calm 110) (receiving "report.txt" 5 peer_a 100) in
  send_control (snd r) = [] /\ open_files (snd r) !! O = None /\ fst r = true.
Proof.
  pose (c := {| in_file_transfer := true; to_receive_count := 5;
                out_file_p := Some O; transfer_start_time := 100;
                ip_address := peer_a |}).
  assert (Hin : c ∈ send_control (receiving "report.txt" 5 peer_a 100)).
  { apply elem_of_cons. left. reflexivity. }
  pose proof (sweep_removes_timed_out (calm 110)
                (receiving "report.txt" 5 peer_a 100)
                ltac:(repeat constructor))
    as (Hsc & Hclosed & _ & _ & Hflag).
  cbn zeta. rewrite Hsc. split; [reflexivity|]. split.
  - apply (Hclosed c O Hin eq_refl eq_refl).
  - apply Hflag. exists c. split; [exact Hin|reflexivity].
Defined.

(** ** Inbound dispatch (C5, C8) *)

Lemma Z_of_byte_inj c1 c2 : Z_of_byte c1 = Z_of_byte c2 -> c1 = c2.
Proof.
  unfold Z_of_byte. intros Heq. apply N2Z.inj in Heq.
  rewrite <- (ascii_N_embedding c1), <- (ascii_N_embedding c2). now rewrite Heq.
Qed.

(** Against a string without NUL, [strncmp] over its whole length is zero
    exactly when the other string starts with it. *)
Lemma strncmp_zero_iff s1 s2 n :
  Forall (fun c => c <> ASCII_NULL_ZERO) s2 ->
  length s2 = n ->
  strncmp s1 s2 n = 0 <-> take n s1 = s2.
Proof.
  revert s1 s2. induction n as [|n IH]; intros s1 s2 Hnul Hlen.
  - destruct s2; [|discriminate]. cbn. now rewrite take_0.
  - destruct s2 as [|c2 s2]; [discriminate|].
    inversion Hnul as [|? ? Hc2 Hnul']; subst.
    injection Hlen as Hlen. cbn [strncmp hd tl].
    destruct s1 as [|c1 s1]; cbn [hd tl take].
    + destruct (decide (ASCII_NULL_ZERO = c2)) as [Heq|Hne]; [congruence|].
      split; [|discriminate]. intros Hz. exfalso. apply Hne.
      apply Z_of_byte_inj. lia.
    + destruct (decide (c1 = c2)) as [->|Hne].
      * rewrite decide_False by assumption. rewrite (IH s1 s2 Hnul' Hlen).
        split; [now intros ->|now intros [= ->]].
      * split; [|now intros [= -> _]]. intros Hz. exfalso. apply Hne.
        apply Z_of_byte_inj. lia.
Qed.

Lemma strncmp_xfer_tag buf : strncmp buf xfer_tag 6 = 0 <-> take 6 buf = xfer_tag.
Proof.
  apply strncmp_zero_iff; [|reflexivity].
  repeat constructor; discriminate.
Qed.

Lemma find_send_control_Some l ip i :
  find_send_control l ip = Some i ->
  exists c, l !! i = Some c /\ ip_address c = ip.
Proof.
  revert i. induction l as [|c l IH]; intros i; cbn; [discriminate|].
  destruct (decide (ip_address c = ip)) as [Hc|Hc].
  - intros [= <-]. eauto.
  - destruct (find_send_control l ip) as [j|]; [|discriminate].
    cbn. intros [= <-]. apply (IH j eq_refl).
Qed.

Lemma find_send_control_None l ip :
  find_send_control l ip = None <-> ip ∉ ip_address <$> l.
Proof.
  induction l as [|c l IH]; cbn.
  - split; [|reflexivity]. intros _ Hin. now apply elem_of_nil in Hin.
  - rewrite not_elem_of_cons.
    destruct (decide (ip_address c = ip)) as [Hc|Hc].
    + split; [discriminate|]. intros [Hne _]. congruence.
    + destruct (find_send_control l ip) as [j|]; cbn.
      * split; [discriminate|]. intros [_ Hnin]. now apply IH in Hnin.
      * split; [|reflexivity]. intros _. split; [congruence|]. now apply IH.
Qed.

Lemma receive_file_block_idle e data ip w :
  ~ receiving_from ip w -> receive_file_block e data ip w = (false, w).
Proof.
  intros Hidle. unfold receive_file_block.
  destruct (find_send_control (send_control w) ip) as [i|] eqn:Hfind; [|reflexivity].
  destruct (send_control w !! i) as [c|] eqn:Hlook; [|reflexivity].
  destruct (out_file_p c) as [h|] eqn:Hout; [|reflexivity].
  destruct (in_file_transfer c) eqn:Hin; [|reflexivity].
  exfalso. apply Hidle. exists i, c. repeat split; try assumption.
  unfold is_receiving. now rewrite Hin, Hout.
Qed.

Lemma receive_file_block_busy e data ip w :
  receiving_from ip w -> fst (receive_file_block e data ip w) = true.
Proof.
  intros (i & c & Hfind & Hlook & Hrecv).
  destruct (is_receiving_inv _ Hrecv) as (Hin & h & Hout).
  rewrite (receive_file_block_receiving e data ip w i c h Hfind Hlook Hin Hout).
  now destruct (_ =? 0).
Qed.

(** The first six bytes of the buffer once a frame is stored are the
    frame's own when it has as many. *)
Lemma recvfrom_lead frame w :
  (6 <= length frame)%nat ->
  take 6 (udp_inbound_buffer (snd (recvfrom frame w))) = take 6 frame.
Proof.
  intros Hlen. unfold recvfrom. fields.
  rewrite take_app_le.
  - rewrite take_take. reflexivity.
  - rewrite length_take. unfold UDP_IN_BUFFER_SIZE. lia.
Qed.

Lemma recvfrom_stored frame w :
  let got := take UDP_IN_BUFFER_SIZE frame in
  take (length got) (udp_inbound_buffer (snd (recvfrom frame w))) = got.
Proof. cbn zeta. unfold recvfrom. fields. now rewrite take_app_length. Qed.

Lemma receiving_from_dec ip w : receiving_from ip w \/ ~ receiving_from ip w.
Proof.
  unfold receiving_from.
  destruct (find_send_control (send_control w) ip) as [i|] eqn:Hfind.
  - destruct (send_control w !! i) as [c|] eqn:Hlook.
    + destruct (is_receiving c) eqn:Hrecv.
      * left. eauto.
      * right. intros (i' & c' & [= <-] & Hl & Hr). congruence.
    + right. intros (i' & c' & [= <-] & Hl & Hr). congruence.
  - right. intros (i' & c' & [=] & _).
Qed.

(** What [read_data] does with a frame that is waiting, by the two tests
    it makes. *)
Lemma read_data_frame e frame ip w :
  receive_socket w <> HANDLE_NOT_VALID ->
  frame <> [] ->
  let got := take UDP_IN_BUFFER_SIZE frame in
  let w1 := snd (recvfrom frame w) in
  read_data e (Some (frame, ip)) w =
    if decide (take 6 (udp_inbound_buffer w1) = xfer_tag)
    then (0, file_transfer e (length got) ip w1)
    else match receive_file_block e got ip w1 with
         | (true, w2) => (0, w2)
         | (false, w2) => (Z.of_nat (length got), w2)
         end.
Proof.
  intros Hsock Hframe got w1. unfold read_data.
  rewrite decide_True by exact Hsock.
  change (recvfrom frame w) with (Z.of_nat (length got), w1). cbv iota beta.
  assert (Hpos : (0 < length got)%nat).
  { subst got. destruct frame; [congruence|]. cbn. lia. }
  destruct (Z.ltb_spec 0 (Z.of_nat (length got))) as [_|Hle]; [|lia].
  pose proof (recvfrom_stored frame w) as Hst. cbn zeta in Hst.
  fold got in Hst. fold w1 in Hst. rewrite Nat2Z.id, Hst.
  destruct (decide (strncmp (udp_inbound_buffer w1) xfer_tag 6 = 0)) as [Ht|Ht];
    [rewrite decide_True by now apply strncmp_xfer_tag
    |rewrite decide_False by (intros Hl; now apply Ht, strncmp_xfer_tag)];
    reflexivity.
Qed.

(** C5: the code departs from the claim on a frame shorter than the tag.
    The two bytes ":x" do not begin with the tag and their sender has no
    control block, so they are to be handed back as text; but [read_data]
    compares the first six bytes of the receive buffer, not of the frame,
    although its own comment has the inbound frame checked.  The buffer
    still holds the header frame received before, whose bytes complete
    the tag, and [read_data] takes the two bytes for a header and reports
    them consumed: the text is lost. *)
Lemma short_frame_taken_for_a_header :
  let frame := bytes_of_string ":x" in
  let r := read_data (calm 101) (Some (frame, peer_b)) after_empty_announcement in
  take 6 frame <> xfer_tag /\
  send_control after_empty_announcement = [] /\
  find_send_control (send_control after_empty_announcement) peer_b = None /\
  fst r = 0 /\
  fst r <> Z.of_nat (length frame).
Proof. vm_compute. repeat split; try reflexivity; discriminate. Qed.

(** X23: what [read_data] does with a frame, case by case.  An empty
    frame is reported as no data and changes nothing.  Any other frame is
    classified by the first six bytes of the receive buffer once the
    frame is stored in it, which are the frame's own leading bytes
    whenever the frame has six bytes or more.  When they equal the tag
    ":xfer:" the frame is handed to [file_transfer] and nothing is
    reported to the caller; otherwise the frame is reported consumed if
    and only if its sender has a control block that is receiving, and
    else its bytes (as many as fit the buffer) are reported back to the
    caller unchanged. *)
Theorem dispatch_by_leading_bytes
    (e : env) (frame : list byte) (ip : string) (w : world) :
  receive_socket w <> HANDLE_NOT_VALID ->
  let got := take UDP_IN_BUFFER_SIZE frame in
  let w1 := snd (recvfrom frame w) in
  let lead := take 6 (udp_inbound_buffer w1) in
  let r := read_data e (Some (frame, ip)) w in
  (frame = [] ->
     r = (0, w1) /\ udp_inbound_buffer w1 = udp_inbound_buffer w) /\
  (frame <> [] ->
     ((6 <= length frame)%nat -> lead = take 6 frame) /\
     (lead = xfer_tag ->
        r = (0, file_transfer e (length got) ip w1)) /\
     (lead <> xfer_tag ->
        (fst r = 0 <-> receiving_from ip w) /\
        (~ receiving_from ip w ->
           r = (Z.of_nat (length got), w1) /\
           take (length got) (udp_inbound_buffer w1) = got))).
Proof.
  intros Hsock got w1 lead r. split.
  { intros ->. subst r w1. unfold read_data.
    rewrite decide_True by exact Hsock. split; reflexivity. }
  intros Hframe.
  split; [apply recvfrom_lead|].
  subst r. rewrite (read_data_frame e frame ip w Hsock Hframe).
  fold got. fold w1. fold lead.
  assert (Hpos : 0 < Z.of_nat (length got)).
  { subst got. destruct frame; [congruence|]. cbn. lia. }
  split.
  - intros Hlead. now rewrite decide_True.
  - intros Hlead. rewrite decide_False by exact Hlead.
    assert (Hsame : receiving_from ip w1 <-> receiving_from ip w) by reflexivity.
    split.
    + split.
      * intros Hzero. apply Hsame.
        destruct (receiving_from_dec ip w1) as [Hbusy|Hidle]; [exact Hbusy|].
        rewrite (receive_file_block_idle e got ip w1 Hidle) in Hzero.
        cbv beta iota in Hzero. cbn [fst] in Hzero. lia.
      * intros Hbusy. apply Hsame in Hbusy.
        pose proof (receive_file_block_busy e got ip w1 Hbusy) as Htrue.
        destruct (receive_file_block e got ip w1) as [[|] w2]; [reflexivity|].
        discriminate Htrue.
    + intros Hidle. rewrite (receive_file_block_idle e got ip w1).
      * split; [reflexivity|]. apply recvfrom_stored.
      * intros Hbusy. now apply Hidle, Hsame.
Qed.

Lemma dispatch_by_leading_bytes_witness :
  read_data (calm 100) (Some (bytes_of_string "hello", peer_a)) fresh =
    (5, snd (recvfrom (bytes_of_string "hello") fresh)).
Proof.
  pose proof (dispatch_by_leading_bytes (calm 100) (bytes_of_string "hello")
                peer_a fresh ltac:(discriminate)) as (_ & Hsome).
  destruct (Hsome ltac:(discriminate)) as (_ & _ & Hother).
  destruct (Hother ltac:(vm_compute; discriminate)) as (_ & Hidle).
  apply Hidle. intros (i & c & Hfind & _). discriminate Hfind.
Defined.

Lemma sizeof_file_header_eq : sizeof_file_header = 120%nat.
Proof. reflexivity. Qed.








(** ** One control block per peer (C4) *)

Lemma sublist_fmap {A B} (f : A -> B) (l1 l2 : list A) :
  l1 `sublist_of` l2 -> (f <$> l1) `sublist_of` (f <$> l2).
Proof.
  induction 1 as [|x l1 l2 _ IH|x l1 l2 _ IH]; cbn.
  - constructor.
  - now apply sublist_skip.
  - now apply sublist_cons.
Qed.

Lemma files_untouched_refl w : files_untouched w w.
Proof. repeat split. Qed.

Lemma files_untouched_trans w1 w2 w3 :
  files_untouched w1 w2 -> files_untouched w2 w3 -> files_untouched w1 w3.
Proof.
  intros (H1 & H2 & H3 & H4) (H1' & H2' & H3' & H4').
  repeat split; congruence.
Qed.

Lemma send_data_loop_untouched fuel e the_bytes w :
  files_untouched w (send_data_loop fuel e the_bytes w).
Proof.
  revert the_bytes w. induction fuel as [|fuel IH]; intros the_bytes w;
    [apply files_untouched_refl|].
  cbn [send_data_loop]. destruct the_bytes as [|b rest]; [apply files_untouched_refl|].
  unfold sendto. destruct (sendto_limit e (sendto_calls w)) as [n|].
  - eapply files_untouched_trans; [|apply IH]. repeat split.
  - repeat split.
Qed.

Lemma send_data_untouched e this_data w : files_untouched w (send_data e this_data w).
Proof.
  unfold send_data. destruct (decide _);
    [apply send_data_loop_untouched|apply files_untouched_refl].
Qed.

Lemma print_untouched m w : files_untouched w (print m w).
Proof. repeat split. Qed.

Lemma send_file_loop_untouched fuel e size in_file out_count w :
  files_untouched w (send_file_loop fuel e size in_file out_count w).
Proof.
  revert in_file out_count w. induction fuel as [|fuel IH]; intros in_file out_count w;
    [apply files_untouched_refl|].
  cbn [send_file_loop]. destruct (0 <? out_count); [|apply files_untouched_refl].
  eapply files_untouched_trans; [apply send_data_untouched|apply IH].
Qed.

Lemma send_file_untouched size e path reply w :
  files_untouched w (send_file_sized size e path reply w).
Proof.
  unfold send_file_sized. destruct (disk w !! _) as [contents|].
  - eapply files_untouched_trans; [apply send_data_untouched|].
    eapply files_untouched_trans; [apply print_untouched|].
    apply send_file_loop_untouched.
  - destruct reply; [apply files_untouched_refl|apply print_untouched].
Qed.

Lemma get_file_untouched e path w : files_untouched w (get_file e path w).
Proof.
  unfold get_file.
  eapply files_untouched_trans; [apply send_data_untouched|apply print_untouched].
Qed.

Lemma send_text_untouched e text w : files_untouched w (send_text e text w).
Proof.
  unfold send_text. destruct (decide _);
    [apply send_data_untouched|apply files_untouched_refl].
Qed.

Lemma main_command_untouched e c w : files_untouched w (main_command e c w).
Proof.
  destruct c; cbn [main_command];
    [apply send_file_untouched|apply get_file_untouched|apply send_text_untouched].
Qed.

Lemma registry_ok_untouched w w' :
  files_untouched w w' -> registry_ok w -> registry_ok w'.
Proof.
  intros (Hsc & Hnf & _ & _) (Hone & Hknown).
  unfold registry_ok, one_block_per_peer, handles_known. now rewrite Hsc, Hnf.
Qed.

Lemma continues_refl l : continues l l.
Proof. split; [reflexivity|]. intros c Hc. exists c. auto. Qed.

Lemma continues_delete l i : continues l (delete i l).
Proof.
  split.
  - apply sublist_fmap, sublist_delete.
  - intros c Hc. exists c. split; [|auto]. eapply list_elem_of_delete_inv, Hc.
Qed.

Lemma continues_insert l i c c2 :
  l !! i = Some c ->
  ip_address c2 = ip_address c -> out_file_p c2 = out_file_p c ->
  continues l (<[i := c2]> l).
Proof.
  intros Hlook Hip Hout. split.
  - rewrite list_fmap_insert, Hip, list_insert_id; [reflexivity|].
    now rewrite list_lookup_fmap, Hlook.
  - intros c' Hc'. apply list_elem_of_lookup in Hc' as (j & Hj).
    destruct (decide (i = j)) as [<-|Hne].
    + rewrite list_lookup_insert_eq in Hj by (eapply lookup_lt_Some, Hlook).
      injection Hj as <-. exists c. split; [|auto].
      eapply list_elem_of_lookup_2, Hlook.
    + rewrite list_lookup_insert_ne in Hj by exact Hne.
      exists c'. split; [|auto]. eapply list_elem_of_lookup_2, Hj.
Qed.

Lemma continues_filter (P : file_sent_control -> Prop) `{forall c, Decision (P c)} l :
  continues l (filter P l).
Proof.
  split.
  - apply sublist_fmap, sublist_filter.
  - intros c Hc. exists c. split; [|auto].
    now apply list_elem_of_filter in Hc as [_ Hc].
Qed.

(** A vector that continues one that is in order, while [fopen] hands out
    no handle, is in order. *)
Lemma registry_ok_continues w w' :
  continues (send_control w) (send_control w') ->
  (next_file w <= next_file w')%nat ->
  registry_ok w -> registry_ok w'.
Proof.
  intros (Hsub & Hfrom) Hnext (Hone & Hknown). split.
  - eapply sublist_NoDup; [exact Hone|exact Hsub].
  - intros c' h Hc' Hout. destruct (Hfrom c' Hc') as (c & Hc & _ & Hsame).
    rewrite Hsame in Hout. specialize (Hknown c h Hc Hout). lia.
Qed.

Lemma receive_file_block_continues e data ip w :
  let w' := snd (receive_file_block e data ip w) in
  continues (send_control w) (send_control w') /\
  next_file w' = next_file w /\
  (forall h, open_files w !! h = None -> open_files w' !! h = None).
Proof.
  cbn zeta. destruct (receiving_from_dec ip w) as [(i & c & Hfind & Hlook & Hrecv)|Hidle].
  - destruct (is_receiving_inv _ Hrecv) as (Hin & h & Hout).
    rewrite (receive_file_block_receiving e data ip w i c h Hfind Hlook Hin Hout).
    pose proof (write_loop_frame (write_fuel data) e h data O w) as Hframe.
    cbn zeta in Hframe. destruct Hframe as (Hsc & Hof & Hnf & _).
    destruct (_ =? 0); fields; rewrite Hsc, Hof, Hnf.
    + split; [apply continues_delete|]. split; [reflexivity|].
      intros h' Hnone. destruct (decide (h = h')) as [->|Hne].
      * apply lookup_delete_eq.
      * now rewrite lookup_delete_ne.
    + split; [|split; [reflexivity|auto]].
      now apply (continues_insert _ _ c).
  - rewrite (receive_file_block_idle e data ip w Hidle). cbn [snd].
    split; [apply continues_refl|]. split; [reflexivity|auto].
Qed.

Lemma registry_ok_receive_file_block e data ip w :
  registry_ok w -> registry_ok (snd (receive_file_block e data ip w)).
Proof.
  intros Hok. pose proof (receive_file_block_continues e data ip w) as Hc.
  cbn zeta in Hc. destruct Hc as (Hcont & Hnf & _).
  apply (registry_ok_continues w); [exact Hcont|lia|exact Hok].
Qed.

(** The entry [find_send_control] returns is the first of its device. *)
Lemma find_send_control_split l ip i :
  find_send_control l ip = Some i ->
  exists l1 c l2,
    l = l1 ++ c :: l2 /\ length l1 = i /\ ip_address c = ip /\
    ip ∉ ip_address <$> l1.
Proof.
  revert i. induction l as [|c l IH]; intros i; cbn; [discriminate|].
  destruct (decide (ip_address c = ip)) as [Hc|Hc].
  - intros [= <-]. exists [], c, l. repeat split; [exact Hc|].
    cbn. intros Hin. now apply elem_of_nil in Hin.
  - destruct (find_send_control l ip) as [j|]; [|discriminate].
    cbn. intros [= <-].
    destruct (IH j eq_refl) as (l1 & c' & l2 & -> & <- & Hip & Hnin).
    exists (c :: l1), c', l2. repeat split; [exact Hip|].
    cbn. rewrite not_elem_of_cons. split; [congruence|exact Hnin].
Qed.

(** Once the entry of a device is taken out, the device has none. *)
Lemma drop_previous_absent ip w :
  one_block_per_peer w ->
  ip ∉ ip_address <$> send_control (drop_previous ip w).
Proof.
  intros Hone. rewrite drop_previous_send_control.
  destruct (find_send_control (send_control w) ip) as [i|] eqn:Hfind.
  - destruct (find_send_control_split _ _ _ Hfind) as (l1 & c & l2 & Hl & Hi & Hip & Hnin).
    unfold one_block_per_peer in Hone. rewrite Hl in Hone |- *.
    rewrite <- Hi, delete_middle, fmap_app.
    rewrite fmap_app, fmap_cons, Hip in Hone.
    apply NoDup_app in Hone as (_ & _ & Hone).
    apply NoDup_cons in Hone as (Hnin2 & _).
    rewrite elem_of_app. tauto.
  - now apply find_send_control_None.
Qed.

Lemma drop_previous_continues ip w :
  continues (send_control w) (send_control (drop_previous ip w)).
Proof.
  rewrite drop_previous_send_control.
  destruct (find_send_control _ _); [apply continues_delete|apply continues_refl].
Qed.

Lemma registry_ok_drop_previous ip w :
  registry_ok w -> registry_ok (drop_previous ip w).
Proof.
  intros Hok. apply (registry_ok_continues w);
    [apply drop_previous_continues|rewrite drop_previous_next_file; lia|exact Hok].
Qed.

(** The ways [receive_file_start] can end: with the previous entry taken
    out and nothing else done, or with a new entry at the end of the
    vector, holding a handle [fopen] just returned, to which the data that
    trails the header may have been given. *)
Lemma receive_file_start_cases e n ip w :
  let w1 := drop_previous ip w in
  let w' := receive_file_start e n ip w in
  w' = w1 \/
  exists name this_control w4 data,
    ip_address this_control = ip /\
    out_file_p this_control = Some (next_file w1) /\
    send_control w4 = send_control w1 ++ [this_control] /\
    next_file w4 = S (next_file w1) /\
    open_files w4 = <[next_file w1 := name]> (open_files w1) /\
    (w' = w4 \/ w' = snd (receive_file_block e data ip w4)).
Proof.
  cbn zeta. unfold receive_file_start.
  destruct (_ =? 0); [now left|].
  destruct (choose_file_name _ _ _ _) as [name|]; [|now left].
  unfold fopen_wb. destruct (fopen_wb_ok e name); [|now left].
  right.
  eexists name, _, _,
    (take (n - sizeof_file_header)
       (drop sizeof_file_header (udp_inbound_buffer (drop_previous ip w)))).
  repeat match goal with |- _ /\ _ => split end.
  6:{ destruct (sizeof_file_header <? n)%nat; [right|left]; reflexivity. }
  3: reflexivity.
  all: reflexivity.
Qed.

Lemma registry_ok_receive_file_start e n ip w :
  registry_ok w -> registry_ok (receive_file_start e n ip w).
Proof.
  intros Hok.
  pose proof (registry_ok_drop_previous ip w Hok) as [Hone1 Hknown1].
  pose proof (drop_previous_absent ip w (proj1 Hok)) as Habsent.
  destruct (receive_file_start_cases e n ip w)
    as [->|(name & tc & w4 & data & Hip & Hout & Hsc & Hnf & _ & Hw')];
    [now split|].
  assert (Hok4 : registry_ok w4).
  { split.
    - unfold one_block_per_peer. rewrite Hsc, fmap_app. apply NoDup_app.
      split; [exact Hone1|]. split; [|apply NoDup_singleton].
      intros x Hx Hx'. cbn in Hx'. apply list_elem_of_singleton in Hx'.
      rewrite Hip in Hx'. congruence.
    - intros c h Hc Hh. rewrite Hsc in Hc. rewrite Hnf.
      apply elem_of_app in Hc as [Hc|Hc].
      + specialize (Hknown1 c h Hc Hh). lia.
      + apply list_elem_of_singleton in Hc. subst c.
        rewrite Hout in Hh. injection Hh as <-. lia. }
  destruct Hw' as [->| ->]; [exact Hok4|].
  now apply registry_ok_receive_file_block.
Qed.

Lemma registry_ok_file_transfer e n ip w :
  registry_ok w -> registry_ok (file_transfer e n ip w).
Proof.
  intros Hok. unfold file_transfer.
  destruct (decide _); [now apply registry_ok_receive_file_start|].
  destruct (decide _); [|exact Hok].
  eapply registry_ok_untouched; [apply send_file_untouched|exact Hok].
Qed.

Lemma registry_ok_recvfrom frame w :
  registry_ok w -> registry_ok (snd (recvfrom frame w)).
Proof. intros Hok. exact Hok. Qed.

Lemma registry_ok_read_data e inbound w :
  registry_ok w -> registry_ok (snd (read_data e inbound w)).
Proof.
  intros Hok. unfold read_data.
  destruct inbound as [[frame ip]|]; [|now destruct (decide _)].
  destruct (decide _); [|exact Hok].
  pose proof (registry_ok_recvfrom frame w Hok) as Hok1.
  destruct (recvfrom frame w) as [read_count w1]. cbn [snd] in Hok1.
  destruct (0 <? read_count); [|exact Hok1].
  destruct (decide _); [now apply registry_ok_file_transfer|].
  pose proof (registry_ok_receive_file_block e
                (take (Z.to_nat read_count) (udp_inbound_buffer w1)) ip w1 Hok1)
    as Hok2.
  now destruct (receive_file_block _ _ _ _) as [[|] w2].
Qed.

Lemma registry_ok_main_poll e inbound w :
  registry_ok w -> registry_ok (main_poll e inbound w).
Proof.
  intros Hok. unfold main_poll.
  pose proof (registry_ok_read_data e inbound w Hok) as Hok1.
  destruct (read_data e inbound w) as [read_count w1]. cbn [snd] in Hok1.
  destruct (0 <? read_count); exact Hok1.
Qed.

Lemma foldl_close_next_file cs w :
  next_file (foldl close_timed_out w cs) = next_file w.
Proof.
  revert w. induction cs as [|c cs IH]; intros w; [reflexivity|].
  cbn [foldl]. rewrite IH. unfold close_timed_out.
  now destruct (out_file_p c).
Qed.

Lemma registry_ok_transfer_timed_out e w :
  registry_ok w -> registry_ok (snd (transfer_timed_out e w)).
Proof.
  intros Hok. unfold transfer_timed_out. rewrite sweep_loop_once by lia.
  cbn [snd]. apply (registry_ok_continues w); [| |exact Hok].
  - unfold sweep_once. fields. rewrite foldl_close_send_control.
    apply continues_filter.
  - unfold sweep_once. fields. rewrite foldl_close_next_file. lia.
Qed.

Lemma registry_ok_new m port w : ChatClass_new m port = inr w -> registry_ok w.
Proof.
  unfold ChatClass_new. destruct (choose_ports _ _) as [tx rx].
  destruct (_ <? 0); [discriminate|]. destruct (_ <? 0); [discriminate|].
  destruct (bind_ok m); [|discriminate]. intros [= <-]. split.
  - apply NoDup_nil_2.
  - intros c h Hc. now apply elem_of_nil in Hc.
Qed.

(** The loop of main never leaves the states in which every device has at
    most one entry and every entry holds a handle of its own time. *)
Lemma reachable_registry_ok w : reachable w -> registry_ok w.
Proof.
  induction 1 as [m port w Hnew|e inbound w _ IH|e c w _ IH|e w _ IH|c l w _ IH].
  - eapply registry_ok_new, Hnew.
  - now apply registry_ok_main_poll.
  - eapply registry_ok_untouched; [apply main_command_untouched|exact IH].
  - now apply registry_ok_transfer_timed_out.
  - exact IH.
Qed.

(** The rounds of main with the calls of the logger in them stay within
    these states. *)
Lemma reachable_main_poll_logged e inbound w l :
  reachable w -> reachable (fst (main_poll_logged e inbound (w, l))).
Proof.
  intros Hr. unfold main_poll_logged.
  pose proof (reachable_poll e inbound w Hr) as Hpoll. unfold main_poll in Hpoll.
  destruct (read_data e inbound w) as [read_count w1].
  destruct (0 <? read_count); [|exact Hpoll].
  exact (reachable_logged (call_write_log _) l _ Hpoll).
Qed.

Lemma reachable_main_command_logged e c w l :
  reachable w -> reachable (fst (main_command_logged e c (w, l))).
Proof.
  intros Hr. pose proof (reachable_command e c w Hr) as Hcmd.
  destruct c as [path|path|text]; [exact Hcmd|exact Hcmd|].
  exact (reachable_logged (call_write_log text) l _ Hcmd).
Qed.

Lemma drop_previous_idle ip w :
  find_send_control (send_control w) ip = None -> drop_previous ip w = w.
Proof. intros Hnone. unfold drop_previous. now rewrite Hnone. Qed.

Lemma choose_file_name_first_free fuel base k w :
  (MAX_FILE_OVERWRITE_CHECK <= fuel + k)%nat ->
  match choose_file_name fuel base k w with
  | Some name =>
      exists j : nat,
        (k < j <= MAX_FILE_OVERWRITE_CHECK)%nat /\
        name = (string_of_bytes base +:+ pretty j)%string /\
        file_exists name w = false /\
        forall i : nat, (k < i < j)%nat ->
          file_exists (string_of_bytes base +:+ pretty i) w = true
  | None =>
      forall j : nat, (k < j <= MAX_FILE_OVERWRITE_CHECK)%nat ->
        file_exists (string_of_bytes base +:+ pretty j) w = true
  end.
Proof.
  revert k. induction fuel as [|fuel IH]; intros k Hfuel.
  - cbn [choose_file_name]. intros j Hj. lia.
  - cbn [choose_file_name].
    destruct (Nat.ltb_spec k MAX_FILE_OVERWRITE_CHECK) as [Hlt|Hge];
      [|intros j Hj; lia].
    change (0 <? S k)%nat with true. cbv iota.
    destruct (file_exists (string_of_bytes base +:+ pretty (S k)) w) eqn:Hex.
    + specialize (IH (S k) ltac:(lia)).
      destruct (choose_file_name fuel base (S k) w) as [name|].
      * destruct IH as (j & Hj & Hname & Hfree & Hbelow).
        exists j. split; [lia|]. split; [exact Hname|]. split; [exact Hfree|].
        intros i Hi. destruct (decide (i = S k)) as [->|Hne]; [exact Hex|].
        apply Hbelow. lia.
      * intros j Hj. destruct (decide (j = S k)) as [->|Hne]; [exact Hex|].
        apply IH. lia.
    + exists (S k). split; [lia|]. split; [reflexivity|]. split; [exact Hex|].
      intros i Hi. lia.
Qed.

(** C4: in every state the loop of main can reach, no two control blocks
    carry the same peer address; and when [receive_file_start] is entered
    for a peer whose entry is receiving, that transfer is aborted first
    (its file is closed and its entry erased, leaving the peer without an
    entry), and the new transfer then begins as it would for a peer that
    had none: the old handle stays closed, the only entry the peer can have
    afterwards is a new one over a newly opened file, and there is still at
    most one entry per peer.  And the new transfer does begin: when the
    header is of the kind of a sent file and announces a file that is not
    empty, one of the twenty names the method tries is free, and the file
    can be created, then the first free name is taken, the file is
    created empty under it on a new handle, and the peer gets a new entry
    at the end of the vector with that handle, the announced size as its
    count and the time of the call; data that came behind the header is
    then taken as the first chunk of the new transfer. *)
Theorem latest_start_wins (w : world) :
  reachable w ->
  one_block_per_peer w /\
  forall (e : env) (n : nat) (ip : string) (i : nat)
         (c : file_sent_control) (h : nat),
    find_send_control (send_control w) ip = Some i ->
    send_control w !! i = Some c ->
    in_file_transfer c = true ->
    out_file_p c = Some h ->
    let w0 := drop_previous ip w in
    let w' := receive_file_start e n ip w in
    let header := header_of_bytes (udp_inbound_buffer w) in
    let base := string_of_bytes (cstr (name_field_onwards (udp_inbound_buffer w))) in
    open_files w0 !! h = None /\
    send_control w0 = delete i (send_control w) /\
    (ip ∉ ip_address <$> send_control w0) /\
    receive_file_start e n ip w0 = w' /\
    open_files w' !! h = None /\
    (forall c', c' ∈ send_control w' -> ip_address c' = ip ->
       out_file_p c' = Some (next_file w) /\ c' <> c) /\
    one_block_per_peer w' /\
    (trans_type header = trans_type_send ->
     file_size header <> 0 ->
     forall j : nat,
       (0 < j <= MAX_FILE_OVERWRITE_CHECK)%nat ->
       file_exists (base +:+ pretty j) w = false ->
       (forall k : nat, (0 < k <= j)%nat ->
          fopen_wb_ok e (base +:+ pretty k) = true) ->
       exists (k : nat) (w4 : world),
         (0 < k <= j)%nat /\
         file_exists (base +:+ pretty k) w = false /\
         (forall m : nat, (0 < m < k)%nat ->
            file_exists (base +:+ pretty m) w = true) /\
         send_control w4 =
           delete i (send_control w)
           ++ [{| in_file_transfer := true;
                  to_receive_count := file_size header;
                  out_file_p := Some (next_file w);
                  transfer_start_time := time_now e;
                  ip_address := ip |}] /\
         open_files w4 =
           <[next_file w := (base +:+ pretty k)%string]> (delete h (open_files w)) /\
         disk w4 = <[(base +:+ pretty k)%string := []]> (disk w) /\
         next_file w4 = S (next_file w) /\
         w' = if (sizeof_file_header <? n)%nat
              then snd (receive_file_block e
                          (take (n - sizeof_file_header)
                             (drop sizeof_file_header (udp_inbound_buffer w)))
                          ip w4)
              else w4).
Proof.
  intros Hreach. pose proof (reachable_registry_ok w Hreach) as Hok.
  split; [exact (proj1 Hok)|].
  intros e n ip i c h Hfind Hlook Hin Hout w0 w' header base.
  pose proof (drop_previous_absent ip w (proj1 Hok)) as Habsent. fold w0 in Habsent.
  assert (Hclosed : open_files w0 !! h = None).
  { subst w0. rewrite drop_previous_open_files. unfold open_after_drop.
    rewrite Hfind, Hlook, Hout, Hin. apply lookup_delete_eq. }
  assert (Hnext : next_file w0 = next_file w) by apply drop_previous_next_file.
  assert (Hh : (h < next_file w)%nat).
  { apply (proj2 Hok c h); [|exact Hout]. eapply list_elem_of_lookup_2, Hlook. }
  assert (Hagain : receive_file_start e n ip w0 = w').
  { subst w'. unfold receive_file_start. fold w0.
    rewrite (drop_previous_idle ip w0); [reflexivity|].
    now apply find_send_control_None. }
  split; [exact Hclosed|].
  split; [subst w0; now rewrite drop_previous_send_control, Hfind|].
  split; [exact Habsent|]. split; [exact Hagain|].
  assert (Hnew : forall c', c' ∈ send_control w' -> ip_address c' = ip ->
                   out_file_p c' = Some (next_file w)).
  { intros c' Hc' Hip'.
    destruct (receive_file_start_cases e n ip w)
      as [Hw'|(name & tc & w4 & data & Hip & Htc & Hsc & Hnf & _ & Hw')];
      fold w' in Hw'; fold w0 in Hw'.
    - exfalso. apply Habsent. rewrite Hw' in Hc'. rewrite <- Hip'.
      now apply list_elem_of_fmap_2.
    - fold w0 in Htc, Hsc. rewrite Hnext in Htc.
      assert (Hin4 : forall c0, c0 ∈ send_control w4 -> ip_address c0 = ip ->
                       out_file_p c0 = Some (next_file w)).
      { intros c0 Hc0 Hip0. rewrite Hsc in Hc0.
        apply elem_of_app in Hc0 as [Hc0|Hc0].
        - exfalso. apply Habsent. rewrite <- Hip0. now apply list_elem_of_fmap_2.
        - apply list_elem_of_singleton in Hc0. now subst c0. }
      destruct Hw' as [Hw'|Hw']; rewrite Hw' in Hc'; [now apply Hin4|].
      pose proof (receive_file_block_continues e data ip w4) as Hcont.
      cbn zeta in Hcont. destruct Hcont as ((_ & Hfrom) & _).
      destruct (Hfrom c' Hc') as (c0 & Hc0 & Hip0 & Hout0).
      rewrite Hout0. apply Hin4; [exact Hc0|congruence]. }
  split; [|split; [|split]].
  - destruct (receive_file_start_cases e n ip w)
      as [Hw'|(name & tc & w4 & data & _ & _ & _ & _ & Hof & Hw')];
      fold w' in Hw'; fold w0 in Hw'; [now rewrite Hw'|].
    fold w0 in Hof.
    assert (Hclosed4 : open_files w4 !! h = None).
    { rewrite Hof, lookup_insert_ne; [exact Hclosed|]. lia. }
    destruct Hw' as [Hw'|Hw']; rewrite Hw'; [exact Hclosed4|].
    pose proof (receive_file_block_continues e data ip w4) as Hcont.
    cbn zeta in Hcont. now apply Hcont.
  - intros c' Hc' Hip'. split; [now apply Hnew|].
    intros ->. specialize (Hnew c Hc' Hip'). rewrite Hout in Hnew.
    injection Hnew as Heq. lia.
  - now apply registry_ok_receive_file_start.
  - intros _ Hsize j Hj Hfree Hcreate.
    assert (Hbuf0 : udp_inbound_buffer w0 = udp_inbound_buffer w)
      by apply drop_previous_buffer.
    assert (Hdisk0 : disk w0 = disk w) by apply drop_previous_disk.
    assert (Hsc0 : send_control w0 = delete i (send_control w))
      by (subst w0; now rewrite drop_previous_send_control, Hfind).
    assert (Hof0 : open_files w0 = delete h (open_files w)).
    { subst w0. rewrite drop_previous_open_files. unfold open_after_drop.
      now rewrite Hfind, Hlook, Hout, Hin. }
    assert (Hexists : forall name, file_exists name w0 = file_exists name w)
      by (intros name; unfold file_exists; now rewrite Hdisk0).
    pose proof (choose_file_name_first_free MAX_FILE_OVERWRITE_CHECK
                  (cstr (name_field_onwards (udp_inbound_buffer w))) O w0
                  ltac:(lia)) as Hchoice.
    fold base in Hchoice.
    subst w'. unfold receive_file_start. fold w0. rewrite Hbuf0. fold header.
    destruct (Z.eqb_spec (file_size header) 0) as [Hz|_]; [contradiction|].
    destruct (choose_file_name _ _ _ w0) as [name|].
    2:{ rewrite <- Hexists in Hfree. rewrite Hchoice in Hfree by exact Hj.
        discriminate Hfree. }
    destruct Hchoice as (k & Hk & -> & Hkfree & Hbelow).
    assert (Hkj : (k <= j)%nat).
    { destruct (Nat.le_gt_cases k j) as [Hle|Hgt]; [exact Hle|].
      rewrite <- Hexists in Hfree. rewrite Hbelow in Hfree by lia.
      discriminate Hfree. }
    unfold fopen_wb. rewrite Hcreate by lia.
    eexists k, _.
    split; [lia|]. split; [now rewrite <- Hexists|].
    split; [intros m Hm; rewrite <- Hexists; now apply Hbelow|].
    split; [|split; [|split; [|split; [|reflexivity]]]].
    + fields. now rewrite Hsc0, Hnext.
    + fields. now rewrite Hof0, Hnext.
    + fields. now rewrite Hdisk0.
    + fields. now rewrite Hnext.
Qed.

Lemma receiving_reachable : reachable (receiving "report.txt" 5 peer_a 100).
Proof.
  replace (receiving "report.txt" 5 peer_a 100)
    with (main_poll (calm 100) (Some (send_frame "report.txt" 5, peer_a)) fresh)
    by (vm_compute; reflexivity).
  apply reachable_poll. apply (reachable_new lone_host 5777). exact new_fresh.
Qed.

Lemma restart_second_name_free :
  file_exists
    (string_of_bytes
       (cstr (name_field_onwards
                (udp_inbound_buffer (receiving "report.txt" 5 peer_a 100))))
     +:+ pretty 2%nat)
    (receiving "report.txt" 5 peer_a 100) = false.
Proof. vm_compute. reflexivity. Qed.

Lemma restart_first_name_taken :
  file_exists
    (string_of_bytes
       (cstr (name_field_onwards
                (udp_inbound_buffer (receiving "report.txt" 5 peer_a 100))))
     +:+ pretty 1%nat)
    (receiving "report.txt" 5 peer_a 100) = true.
Proof. vm_compute. reflexivity. Qed.

Lemma restart_header_announces :
  file_size (header_of_bytes
               (udp_inbound_buffer (receiving "report.txt" 5 peer_a 100))) <> 0.
Proof. vm_compute. discriminate. Qed.

Lemma latest_start_wins_witness :
  let w := receiving "report.txt" 5 peer_a 100 in
  let w' := receive_file_start (calm 105) sizeof_file_header peer_a w in
  let base :=
    string_of_bytes (cstr (name_field_onwards (udp_inbound_buffer w))) in
  one_block_per_peer w /\
  open_files w' !! O = None /\
  one_block_per_peer w' /\
  disk w' !! (base +:+ pretty 2%nat)%string = Some [].
Proof.
  pose (c := {| in_file_transfer := true; to_receive_count := 5;
                out_file_p := Some O; transfer_start_time := 100;
                ip_address := peer_a |}).
  destruct (latest_start_wins (receiving "report.txt" 5 peer_a 100)
              receiving_reachable) as (Hone & Hstart).
  destruct (Hstart (calm 105) sizeof_file_header peer_a O c O
              eq_refl eq_refl eq_refl eq_refl)
    as (_ & _ & _ & _ & Hclosed & _ & Hone' & Hbegins).
  cbn zeta. split; [exact Hone|]. split; [exact Hclosed|].
  split; [exact Hone'|].
  destruct (Hbegins eq_refl restart_header_announces 2%nat
              ltac:(unfold MAX_FILE_OVERWRITE_CHECK; lia)
              restart_second_name_free (fun k _ => eq_refl))
    as (k & w4 & Hk & Hfree & _ & _ & _ & Hdisk & _ & Hw').
  rewrite Nat.ltb_irrefl in Hw'. rewrite Hw', Hdisk.
  assert (Hk2 : k = 2%nat).
  { destruct k as [|[|k]]; [lia| |lia].
    rewrite restart_first_name_taken in Hfree. discriminate Hfree. }
  rewrite Hk2. apply lookup_insert_eq.
Defined.

(** ** Sending a file (C1) *)

(** On a network that takes it whole, [send_data] puts its data on the
    wire as one datagram. *)
Lemma send_data_whole b e data w :
  sendto_takes b e ->
  send_socket w <> HANDLE_NOT_VALID ->
  data <> [] -> (length data <= b)%nat ->
  send_data e data w = set_wire (fun l => l ++ [data]) (set_sendto_calls S w).
Proof.
  intros Htakes Hsock Hne Hlen. unfold send_data.
  rewrite decide_True by exact Hsock.
  destruct data as [|x rest]; [congruence|].
  cbn [length send_data_loop]. unfold sendto.
  destruct (Htakes (sendto_calls w)) as (n & -> & Hn).
  rewrite take_ge by (cbn [length] in Hlen |- *; lia).
  rewrite drop_all. now destruct (length rest).
Qed.

Lemma chunks_nil fuel size : chunks fuel size [] = [].
Proof. now destruct fuel. Qed.

(** The loop of [send_file] over a file whose size [out_count] is right:
    one datagram per chunk, in file order. *)
Lemma send_file_loop_wire b e C fuel in_file w :
  0 < C ->
  sendto_takes b e -> (Z.to_nat C <= b)%nat ->
  send_socket w <> HANDLE_NOT_VALID ->
  (length in_file <= fuel)%nat ->
  wire (send_file_loop fuel e C in_file (Z.of_nat (length in_file)) w) =
    wire w ++ chunks fuel (Z.to_nat C) in_file.
Proof.
  intros HC Htakes Hb. revert in_file w.
  induction fuel as [|fuel IH]; intros in_file w Hsock Hlen.
  - cbn. now rewrite app_nil_r.
  - destruct in_file as [|x rest]; [cbn; now rewrite app_nil_r|].
    cbn [send_file_loop].
    destruct (Z.ltb_spec 0 (Z.of_nat (length (x :: rest)))) as [_|Hle];
      [|cbn [length] in Hle; lia].
    set (l := x :: rest) in *. set (n := Z.of_nat (length l)).
    set (block_size := if C <? n then C else n).
    assert (Htake : take (Z.to_nat block_size) l = take (Z.to_nat C) l).
    { subst block_size. destruct (Z.ltb_spec C n); [reflexivity|].
      rewrite !take_ge; [reflexivity|lia|lia]. }
    assert (Hdrop : drop (Z.to_nat block_size) l = drop (Z.to_nat C) l).
    { subst block_size. destruct (Z.ltb_spec C n); [reflexivity|].
      rewrite !drop_ge; [reflexivity|lia|lia]. }
    assert (Hrest : n - block_size = Z.of_nat (length (drop (Z.to_nat C) l))).
    { rewrite length_drop. subst block_size n.
      destruct (Z.ltb_spec C (Z.of_nat (length l))); lia. }
    rewrite Htake, Hdrop, Hrest.
    assert (Hchunk : take (Z.to_nat C) l <> []).
    { subst l. destruct (Z.to_nat C) eqn:HCn; [lia|]. discriminate. }
    rewrite (send_data_whole b e _ w Htakes Hsock Hchunk)
      by (rewrite length_take; lia).
    rewrite IH.
    + fields. subst l. cbn [chunks]. now rewrite <- app_assoc.
    + exact Hsock.
    + rewrite length_drop. subst l. cbn [length] in Hlen |- *. lia.
Qed.

Section Chunks.
Variable size : nat.
Hypothesis size_pos : (0 < size)%nat.

Lemma chunks_concat fuel l :
  (length l <= fuel)%nat -> concat (chunks fuel size l) = l.
Proof.
  revert l. induction fuel as [|fuel IH]; intros l Hlen.
  - destruct l; [reflexivity|cbn in Hlen; lia].
  - destruct l as [|x rest]; [reflexivity|].
    cbn [chunks concat]. rewrite IH.
    + apply take_drop.
    + rewrite length_drop. cbn [length] in Hlen |- *. lia.
Qed.

Lemma chunks_lookup fuel l j chunk :
  (length l <= fuel)%nat ->
  chunks fuel size l !! j = Some chunk ->
  chunk = take size (drop (j * size) l) /\ (j * size < length l)%nat.
Proof.
  revert l j. induction fuel as [|fuel IH]; intros l j Hlen Hj; [discriminate|].
  destruct l as [|x rest]; [discriminate|]. cbn [chunks] in Hj.
  destruct j as [|j].
  - injection Hj as <-. cbn [length]. split; [reflexivity|lia].
  - cbn [lookup list_lookup] in Hj. apply IH in Hj as [-> Hlt].
    + rewrite drop_drop, length_drop in *.
      replace (S j * size)%nat with (size + j * size)%nat by lia.
      split; [reflexivity|lia].
    + rewrite length_drop. cbn [length] in Hlen |- *. lia.
Qed.

Lemma chunks_length fuel l :
  (length l <= fuel)%nat ->
  Z.of_nat (length (chunks fuel size l)) =
    (Z.of_nat (length l) + Z.of_nat size - 1) / Z.of_nat size.
Proof.
  revert l. induction fuel as [|fuel IH]; intros l Hlen.
  - destruct l; [|cbn in Hlen; lia]. cbn [chunks length].
    symmetry. apply Z.div_small. lia.
  - destruct l as [|x rest].
    + cbn [chunks length]. symmetry. apply Z.div_small. lia.
    + cbn [chunks]. set (l := x :: rest) in *.
      assert (Hpos : (0 < length l)%nat) by (subst l; cbn; lia).
      cbn [length]. rewrite Nat2Z.inj_succ, IH
        by (rewrite length_drop; lia).
      rewrite length_drop.
      destruct (Nat.le_gt_cases (length l) size) as [Hsmall|Hbig].
      * replace (length l - size)%nat with O by lia.
        rewrite (Z.div_small (Z.of_nat 0 + _ - 1)) by lia.
        change (Z.succ 0) with 1.
        apply (Z.div_unique _ _ 1 (Z.of_nat (length l) - 1)); lia.
      * rewrite Nat2Z.inj_sub by lia.
        replace (Z.of_nat (length l) + Z.of_nat size - 1)
          with (Z.of_nat (length l) - Z.of_nat size + Z.of_nat size - 1
                + 1 * Z.of_nat size) by lia.
        rewrite Z.div_add by lia. lia.
Qed.

Lemma chunk_size (l : list byte) j :
  (j * size < length l)%nat ->
  Z.of_nat (length (take size (drop (j * size) l))) =
    if Z.of_nat j <? Z.of_nat (length l) / Z.of_nat size
    then Z.of_nat size
    else Z.of_nat (length l) mod Z.of_nat size.
Proof.
  intros Hj. rewrite length_take, length_drop.
  pose proof (Z.div_mod (Z.of_nat (length l)) (Z.of_nat size) ltac:(lia)) as Hdm.
  pose proof (Z.mod_pos_bound (Z.of_nat (length l)) (Z.of_nat size) ltac:(lia)) as Hm.
  set (q := Z.of_nat (length l) / Z.of_nat size) in *.
  set (r := Z.of_nat (length l) mod Z.of_nat size) in *.
  rewrite Nat2Z.inj_min, Nat2Z.inj_sub, Nat2Z.inj_mul by lia.
  assert (Hj' : Z.of_nat j * Z.of_nat size < Z.of_nat (length l)) by lia.
  destruct (Z.ltb_spec (Z.of_nat j) q) as [Hlt|Hge].
  - assert ((Z.of_nat j + 1) * Z.of_nat size <= q * Z.of_nat size) by nia. lia.
  - assert (Hq : Z.of_nat j = q) by nia. rewrite Hq in *. lia.
Qed.
End Chunks.

Lemma length_memcpy n mem : length (memcpy n mem) = n.
Proof. unfold memcpy. rewrite length_take, length_app, length_replicate. lia. Qed.

Lemma length_bytes_of_header h : length (bytes_of_header h) = sizeof_file_header.
Proof.
  unfold bytes_of_header. rewrite !length_app, !length_memcpy. reflexivity.
Qed.

Lemma int_wrap_small z : 0 <= z <= INT_MAX -> int_wrap z = z.
Proof.
  unfold INT_MAX, int_wrap. intros Hz. rewrite Z.mod_small; lia.
Qed.

(** What [send_file] puts on the wire for a file that is there, on a
    network that takes every datagram whole: the header, then the loop's
    datagrams. *)
Lemma send_file_wire C e path reply w contents :
  send_socket w <> HANDLE_NOT_VALID ->
  disk w !! string_of_bytes (cstr (requested_path path)) = Some contents ->
  sendto_takes sizeof_file_header e ->
  exists name w2,
    let out_count := int_wrap (Z.of_nat (length contents)) in
    let file_header :=
      {| header_command := xfer_tag; file_name := name;
         file_size := out_count; trans_type := trans_type_send |} in
    send_socket w2 = send_socket w /\
    wire w2 = wire w ++ [bytes_of_header file_header] /\
    send_file_sized C e path reply w =
      send_file_loop (Z.to_nat out_count) e C contents out_count w2.
Proof.
  intros Hsock Hdisk Htakes. unfold send_file_sized. rewrite Hdisk.
  eexists _, _. cbn zeta.
  rewrite (send_data_whole sizeof_file_header e _ w Htakes Hsock).
  - split; [|split]; [| |reflexivity]; reflexivity.
  - intros Hnil. apply (f_equal length) in Hnil.
    rewrite length_bytes_of_header in Hnil. discriminate.
  - now rewrite length_bytes_of_header.
Qed.

(** C1, as the specification states it, fails for files of 2 GiB and
    more: the size is kept in an [int].  For a file of 2^31 bytes the
    count wraps to a negative number, the loop is never entered, and the
    header frame is all that is sent, where the specification has 2097152
    chunks follow it. *)
Lemma two_gigabyte_file_sends_no_chunk :
  let N := Z.of_nat (length big_contents) in
  let w' := send_file (calm 100) (bytes_of_string "big") false with_big_file in
  N = 2 ^ 31 /\
  disk with_big_file !! "big" = Some big_contents /\
  (N + MAX_OUT_DATA_SIZE - 1) / MAX_OUT_DATA_SIZE = 2097152 /\
  length (wire w') = 1%nat /\
  concat (drop 1 (wire w')) <> big_contents.
Proof.
  intros N w'.
  assert (HN : N = 2 ^ 31).
  { subst N. unfold big_contents. rewrite length_replicate. apply Z2Nat.id. lia. }
  assert (Hdisk : disk with_big_file !! "big" = Some big_contents).
  { unfold with_big_file. fields. apply lookup_insert_eq. }
  assert (Htakes : sendto_takes sizeof_file_header (calm 100)).
  { intros k. exists 65507%positive. split; [reflexivity|].
    rewrite sizeof_file_header_eq. lia. }
  destruct (send_file_wire MAX_OUT_DATA_SIZE (calm 100) (bytes_of_string "big")
              false with_big_file big_contents ltac:(discriminate) Hdisk Htakes)
    as (name & w2 & _ & Hwire & Hsend).
  cbv zeta in Hwire, Hsend. fold N in Hwire, Hsend. rewrite HN in Hwire, Hsend.
  change (int_wrap (2 ^ 31)) with (- 2 ^ 31) in Hwire, Hsend.
  change (Z.to_nat (- 2 ^ 31)) with O in Hsend. cbn [send_file_loop] in Hsend.
  assert (Hw' : wire w' = wire w2) by (subst w'; unfold send_file; now rewrite Hsend).
  rewrite Hw', Hwire. change (wire with_big_file) with (@nil (list byte)).
  split; [exact HN|]. split; [exact Hdisk|]. split; [now rewrite HN|].
  split; [reflexivity|].
  cbn [app drop concat]. intros Hnil. subst N.
  rewrite <- Hnil in HN. discriminate HN.
Qed.

(** C1, amended: for every file of N bytes with N at most 2^31 - 1 (the
    size is kept in a 32-bit integer) and every chunk size C > 0 (1024 in
    the source), on a network that takes every datagram whole, send_file
    transmits one header frame followed by exactly ceil(N/C) data chunks
    in file order: chunk j is the C bytes of the file from offset j*C on,
    so each has size C except a final chunk of size N mod C when N is not
    a multiple of C, and the concatenation of the chunks is the file. *)
Theorem send_file_chunks
    (C : Z) (e : env) (path : list byte) (reply : bool) (w : world)
    (contents : list byte) :
  0 < C ->
  send_socket w <> HANDLE_NOT_VALID ->
  disk w !! string_of_bytes (cstr (requested_path path)) = Some contents ->
  Z.of_nat (length contents) <= INT_MAX ->
  sendto_takes (max sizeof_file_header (Z.to_nat C)) e ->
  let N := Z.of_nat (length contents) in
  let sent := chunks (length contents) (Z.to_nat C) contents in
  (exists name,
     wire (send_file_sized C e path reply w) =
       wire w
       ++ bytes_of_header {| header_command := xfer_tag; file_name := name;
                             file_size := N; trans_type := trans_type_send |}
          :: sent) /\
  Z.of_nat (length sent) = (N + C - 1) / C /\
  (forall j chunk, sent !! j = Some chunk ->
     chunk = take (Z.to_nat C) (drop (j * Z.to_nat C) contents) /\
     Z.of_nat (length chunk) = if Z.of_nat j <? N / C then C else N mod C) /\
  concat sent = contents.
Proof.
  intros HC Hsock Hdisk Hmax Htakes N sent.
  assert (HCn : (0 < Z.to_nat C)%nat) by lia.
  assert (HCz : Z.of_nat (Z.to_nat C) = C) by lia.
  split; [|split; [|split]].
  - assert (Hhdr : sendto_takes sizeof_file_header e).
    { intros k. destruct (Htakes k) as (n & Hn & Hle). exists n. split; [exact Hn|lia]. }
    destruct (send_file_wire C e path reply w contents Hsock Hdisk Hhdr)
      as (name & w2 & Hsock2 & Hwire & Hsend).
    cbv zeta in Hwire, Hsend. fold N in Hwire, Hsend.
    rewrite (int_wrap_small N) in Hwire, Hsend by lia.
    exists name. rewrite Hsend. subst N. rewrite Nat2Z.id.
    rewrite (send_file_loop_wire (max sizeof_file_header (Z.to_nat C)) e C);
      [|exact HC|exact Htakes|lia|now rewrite Hsock2|lia].
    rewrite Hwire, <- app_assoc. reflexivity.
  - subst sent N. rewrite (chunks_length (Z.to_nat C) HCn) by lia.
    now rewrite HCz.
  - intros j chunk Hj.
    destruct (chunks_lookup (Z.to_nat C) HCn _ _ _ _ (Nat.le_refl _) Hj) as [-> Hlt].
    split; [reflexivity|].
    rewrite (chunk_size (Z.to_nat C) HCn) by exact Hlt. now rewrite HCz.
  - apply (chunks_concat (Z.to_nat C) HCn). lia.
Qed.

Lemma notes_takes :
  sendto_takes (max sizeof_file_header (Z.to_nat MAX_OUT_DATA_SIZE)) (calm 100).
Proof.
  intros k. exists 65507%positive. split; [reflexivity|].
  rewrite sizeof_file_header_eq. unfold MAX_OUT_DATA_SIZE. lia.
Qed.

Lemma notes_on_disk :
  disk with_notes
    !! string_of_bytes
         (cstr (requested_path (bytes_of_string " notes.txt" ++ [ASCII_LINE_FEED])))
  = Some notes_contents.
Proof. vm_compute. reflexivity. Qed.

Lemma notes_chunk_sizes :
  length <$> chunks (length notes_contents) (Z.to_nat MAX_OUT_DATA_SIZE) notes_contents
  = [1024; 1024; 452]%nat.
Proof. vm_compute. reflexivity. Qed.

Lemma notes_wire : wire with_notes = [].
Proof. reflexivity. Qed.

Lemma drop_1_cons {A} (x : A) (l : list A) : drop 1 (x :: l) = l.
Proof. reflexivity. Qed.

Lemma send_file_chunks_witness :
  let typed := bytes_of_string " notes.txt" ++ [ASCII_LINE_FEED] in
  let w' := send_file (calm 100) typed false with_notes in
  length <$> drop 1 (wire w') = [1024; 1024; 452]%nat /\
  concat (drop 1 (wire w')) = notes_contents.
Proof.
  destruct (send_file_chunks MAX_OUT_DATA_SIZE (calm 100)
              (bytes_of_string " notes.txt" ++ [ASCII_LINE_FEED]) false
              with_notes notes_contents
              eq_refl ltac:(discriminate) notes_on_disk
              ltac:(vm_compute; discriminate) notes_takes)
    as ((name & Hwire) & _ & _ & Hconcat).
  cbv zeta. unfold send_file.
  rewrite Hwire, notes_wire, app_nil_l, drop_1_cons.
  split; [exact notes_chunk_sizes|exact Hconcat].
Defined.

(** * Further properties of the code *)

(** ** The header on the wire *)

Lemma Z_of_byte_of_Z z : Z_of_byte (byte_of_Z z) = z mod 256.
Proof.
  unfold Z_of_byte, byte_of_Z.
  rewrite N_ascii_embedding.
  - apply Z2N.id. apply Z.mod_pos_bound. lia.
  - pose proof (Z.mod_pos_bound z 256 ltac:(lia)). lia.
Qed.

Lemma int_wrap_mod z : int_wrap (z mod 2 ^ 32) = int_wrap z.
Proof.
  unfold int_wrap. f_equal.
  rewrite Zplus_mod_idemp_l. reflexivity.
Qed.

Lemma int_of_bytes_of_int z rest : int_of_bytes (bytes_of_int z ++ rest) = int_wrap z.
Proof.
  unfold int_of_bytes, bytes_of_int. cbn [app nth].
  rewrite !Z_of_byte_of_Z, <- (int_wrap_mod z). f_equal.
  change (2 ^ 8) with 256. change (2 ^ 16) with 65536.
  change (2 ^ 24) with 16777216. change (2 ^ 32) with 4294967296.
  pose proof (Z.div_mod z 256 ltac:(lia)).
  pose proof (Z.mod_pos_bound z 256 ltac:(lia)).
  pose proof (Z.div_mod (z / 256) 256 ltac:(lia)).
  pose proof (Z.mod_pos_bound (z / 256) 256 ltac:(lia)).
  pose proof (Z.div_mod (z / 256 / 256) 256 ltac:(lia)).
  pose proof (Z.mod_pos_bound (z / 256 / 256) 256 ltac:(lia)).
  pose proof (Z.div_mod (z / 256 / 256 / 256) 256 ltac:(lia)).
  pose proof (Z.mod_pos_bound (z / 256 / 256 / 256) 256 ltac:(lia)).
  replace (z / 65536) with (z / 256 / 256) by (rewrite Z.div_div by lia; reflexivity).
  replace (z / 16777216) with (z / 256 / 256 / 256)
    by (rewrite !Z.div_div by lia; reflexivity).
  apply (Z.mod_unique_pos _ _ (z / 256 / 256 / 256 / 256)); lia.
Qed.

(** A header written to a frame and read back, whatever follows it in
    the frame: the command and the name come back cut or zero-padded to
    their field, the two integers as the 32-bit values they were stored
    as. *)
Lemma header_of_bytes_of_header (h : file_transfer_header) (rest : list byte) :
  header_of_bytes (bytes_of_header h ++ rest) =
    {| header_command := memcpy XFER_HDR_CMD_SIZE (header_command h);
       file_name := memcpy XFER_HDR_NAME_SZIE (file_name h);
       file_size := int_wrap (file_size h);
       trans_type := int_wrap (trans_type h) |}.
Proof.
  unfold header_of_bytes.
  assert (Hraw : memcpy sizeof_file_header (bytes_of_header h ++ rest)
                 = bytes_of_header h).
  { unfold memcpy. rewrite <- app_assoc.
    rewrite <- (length_bytes_of_header h). apply take_app_length. }
  rewrite Hraw. unfold bytes_of_header.
  set (cmd := memcpy XFER_HDR_CMD_SIZE (header_command h)).
  set (name := memcpy XFER_HDR_NAME_SZIE (file_name h)).
  assert (Hcmd : length cmd = XFER_HDR_CMD_SIZE) by apply length_memcpy.
  assert (Hname : length name = XFER_HDR_NAME_SZIE) by apply length_memcpy.
  f_equal.
  - rewrite <- Hcmd. apply take_app_length.
  - unfold OFFSET_FILE_NAME. rewrite <- Hcmd, drop_app_length.
    rewrite <- Hname. apply take_app_length.
  - unfold OFFSET_FILE_SIZE.
    rewrite app_assoc, drop_app_length'
      by (rewrite length_app, Hcmd, Hname; reflexivity).
    apply int_of_bytes_of_int.
  - unfold OFFSET_TRANS_TYPE, OFFSET_FILE_SIZE.
    rewrite !app_assoc, drop_app_length'
      by (rewrite !length_app, Hcmd, Hname; reflexivity).
    rewrite <- (app_nil_r (bytes_of_int (trans_type h))).
    apply int_of_bytes_of_int.
Qed.

Lemma int_wrap_range z : - 2 ^ 31 <= z < 2 ^ 31 -> int_wrap z = z.
Proof. unfold int_wrap. intros Hz. rewrite Z.mod_small; lia. Qed.

Lemma cstr_app_nul (s rest : list byte) :
  Forall (fun c => c <> ASCII_NULL_ZERO) s ->
  cstr (s ++ ASCII_NULL_ZERO :: rest) = s.
Proof.
  induction 1 as [|c s Hc _ IH]; cbn [app cstr].
  - now rewrite decide_True.
  - rewrite decide_False by exact Hc. now rewrite IH.
Qed.

Lemma memcpy_short n (mem : list byte) :
  (length mem <= n)%nat ->
  memcpy n mem = mem ++ replicate (n - length mem) ASCII_NULL_ZERO.
Proof.
  intros Hlen. unfold memcpy. rewrite take_app_ge by exact Hlen.
  rewrite take_replicate. f_equal. f_equal. lia.
Qed.

(** The C string in a field that holds a shorter name is the name. *)
Lemma cstr_memcpy n (name : list byte) :
  Forall (fun c => c <> ASCII_NULL_ZERO) name ->
  (length name < n)%nat ->
  cstr (memcpy n name) = name.
Proof.
  intros Hnul Hlen. rewrite memcpy_short by lia.
  destruct (n - length name)%nat as [|k] eqn:Hk; [lia|].
  cbn [replicate]. now apply cstr_app_nul.
Qed.

Lemma cstr_app_zeros (x : list byte) n :
  cstr (x ++ replicate n ASCII_NULL_ZERO) = cstr x.
Proof.
  induction x as [|c x IH]; cbn [app cstr].
  - destruct n; [reflexivity|]. cbn [replicate cstr]. now rewrite decide_True.
  - destruct (decide (c = ASCII_NULL_ZERO)); [reflexivity|now rewrite IH].
Qed.

Lemma cstr_take n (l : list byte) : cstr (take n l) = take n (cstr l).
Proof.
  revert n. induction l as [|c l IH]; intros [|n]; cbn [take cstr]; try reflexivity.
  destruct (decide (c = ASCII_NULL_ZERO)); [reflexivity|].
  cbn [take]. now rewrite IH.
Qed.

Lemma cstr_memcpy_take n (x : list byte) :
  cstr (memcpy n x) = take n (cstr x).
Proof. unfold memcpy. now rewrite cstr_take, cstr_app_zeros. Qed.

Lemma strlen_le_length (x : list byte) : (strlen x <= length x)%nat.
Proof.
  unfold strlen. induction x as [|c x IH]; cbn [cstr length]; [lia|].
  destruct (decide (c = ASCII_NULL_ZERO)); cbn [length]; lia.
Qed.

(** What follows a NUL is no part of the C string. *)
Lemma cstr_app_ended (x t : list byte) :
  (strlen x < length x)%nat -> cstr (x ++ t) = cstr x.
Proof.
  unfold strlen. induction x as [|c x IH]; cbn [app cstr length]; [lia|].
  destruct (decide (c = ASCII_NULL_ZERO)); [reflexivity|].
  cbn [length]. intros H. rewrite IH by lia. reflexivity.
Qed.

(** Behind the name field of a header frame come the bytes of the size
    and of the kind. *)
Lemma name_field_onwards_header (h : file_transfer_header) (rest : list byte) :
  name_field_onwards (bytes_of_header h ++ rest)
  = memcpy XFER_HDR_NAME_SZIE (file_name h)
    ++ bytes_of_int (file_size h) ++ bytes_of_int (trans_type h).
Proof.
  unfold name_field_onwards.
  assert (Hraw : memcpy sizeof_file_header (bytes_of_header h ++ rest)
                 = bytes_of_header h).
  { unfold memcpy. rewrite <- app_assoc.
    rewrite <- (length_bytes_of_header h). apply take_app_length. }
  rewrite Hraw. unfold bytes_of_header, OFFSET_FILE_NAME.
  apply drop_app_length'. symmetry. apply length_memcpy.
Qed.

(** A name that leaves a byte of its field free is read back as it is:
    the NUL of the field ends the copy. *)
Lemma cstr_name_field_onwards (h : file_transfer_header) (rest : list byte) :
  (strlen (file_name h) < XFER_HDR_NAME_SZIE)%nat ->
  cstr (name_field_onwards (bytes_of_header h ++ rest)) = cstr (file_name h).
Proof.
  intros Hlen. unfold strlen in Hlen. rewrite name_field_onwards_header.
  rewrite cstr_app_ended.
  - rewrite cstr_memcpy_take. apply take_ge. lia.
  - unfold strlen. rewrite cstr_memcpy_take, length_take, length_memcpy. lia.
Qed.

(** X1: the header frame round trip.  A header with the transfer tag, a
    name of at most 100 characters, and a size and a kind that fit an
    [int], written to a frame the way [send_file] and [get_file] write it,
    is read back by [file_transfer] and [receive_file_start] with the tag
    in front, the same name as C string, the same size and the same kind,
    whatever data follows the header in the frame. *)
Theorem header_round_trip
    (name : list byte) (size kind : Z) (rest : list byte) :
  Forall (fun c => c <> ASCII_NULL_ZERO) name ->
  (length name <= 100)%nat ->
  - 2 ^ 31 <= size < 2 ^ 31 ->
  - 2 ^ 31 <= kind < 2 ^ 31 ->
  let frame :=
    bytes_of_header {| header_command := xfer_tag; file_name := name;
                       file_size := size; trans_type := kind |} ++ rest in
  strncmp frame xfer_tag 6 = 0 /\
  cstr (file_name (header_of_bytes frame)) = name /\
  file_size (header_of_bytes frame) = size /\
  trans_type (header_of_bytes frame) = kind.
Proof.
  intros Hnul Hlen Hsize Hkind frame. subst frame.
  rewrite header_of_bytes_of_header. cbn [file_name file_size trans_type].
  split; [now apply strncmp_xfer_tag|].
  split; [apply cstr_memcpy; [exact Hnul|unfold XFER_HDR_NAME_SZIE; lia]|].
  split; now apply int_wrap_range.
Qed.

Lemma header_round_trip_witness :
  let frame := send_frame "report.txt" 5 ++ bytes_of_string "hello" in
  cstr (file_name (header_of_bytes frame)) = bytes_of_string "report.txt" /\
  file_size (header_of_bytes frame) = 5 /\
  trans_type (header_of_bytes frame) = trans_type_send.
Proof.
  destruct (header_round_trip (bytes_of_string "report.txt") 5 trans_type_send
              (bytes_of_string "hello")
              ltac:(repeat constructor; discriminate) ltac:(cbn; lia)
              ltac:(lia) ltac:(unfold trans_type_send; lia))
    as (_ & Hname & Hsize & Hkind).
  cbv zeta. unfold send_frame. split; [exact Hname|]. split; [exact Hsize|exact Hkind].
Defined.

(** ** [send_data] and partial sends *)

Lemma send_data_loop_datagrams fuel e the_bytes w :
  (length the_bytes <= fuel)%nat ->
  exists ds rest,
    wire (send_data_loop fuel e the_bytes w) = wire w ++ ds /\
    Forall (fun d => d <> []) ds /\
    the_bytes = concat ds ++ rest /\
    (rest = [] /\ console (send_data_loop fuel e the_bytes w) = console w \/
     rest <> [] /\
     console (send_data_loop fuel e the_bytes w) = console w ++ [msg_unable_to_send]) /\
    ((forall k, is_Some (sendto_limit e k)) -> rest = []).
Proof.
  revert the_bytes w. induction fuel as [|fuel IH]; intros the_bytes w Hlen.
  - destruct the_bytes; [|cbn in Hlen; lia].
    exists [], []. cbn. rewrite app_nil_r. repeat split; auto.
  - destruct the_bytes as [|x rest0].
    + exists [], []. cbn. rewrite app_nil_r. repeat split; auto.
    + cbn [send_data_loop]. unfold sendto.
      destruct (sendto_limit e (sendto_calls w)) as [n|] eqn:Hlimit.
      * set (sent := take (Pos.to_nat n) (x :: rest0)).
        assert (Hsent : sent <> []).
        { subst sent. destruct (Pos.to_nat n) eqn:Hn; [lia|discriminate]. }
        assert (Hshorter : (length (drop (length sent) (x :: rest0)) <= fuel)%nat).
        { rewrite length_drop. destruct sent; [congruence|].
          cbn [length] in Hlen |- *. lia. }
        destruct (IH (drop (length sent) (x :: rest0))
                    (set_wire (fun l => l ++ [sent]) (set_sendto_calls S w))
                    Hshorter) as (ds & rest & Hwire & Hne & Hcat & Hcons & Hall).
        exists (sent :: ds), rest. rewrite Hwire. fields.
        split; [now rewrite <- app_assoc|]. split; [now constructor|].
        split; [|split; [exact Hcons|exact Hall]].
        cbn [concat]. rewrite <- app_assoc, <- Hcat.
        subst sent. rewrite length_take.
        replace (Pos.to_nat n `min` length (x :: rest0))%nat
          with (length (take (Pos.to_nat n) (x :: rest0)))
          by apply length_take.
        rewrite <- (take_drop (Pos.to_nat n) (x :: rest0)) at 1.
        f_equal. rewrite length_take.
        destruct (Nat.le_gt_cases (Pos.to_nat n) (length (x :: rest0))).
        -- now rewrite Nat.min_l.
        -- rewrite Nat.min_r by lia. rewrite !drop_ge; [reflexivity|lia|lia].
      * exists [], (x :: rest0). fields. rewrite app_nil_r.
        split; [reflexivity|]. split; [constructor|]. split; [reflexivity|].
        split; [right; split; [discriminate|reflexivity]|].
        intros Hall. destruct (Hall (sendto_calls w)) as [n Hn]. congruence.
Qed.

(** X2: [send_data] hands its data to [sendto] in order, as one datagram
    or, when [sendto] takes only a part, as several that are never empty;
    what went out is a beginning of the data.  All of the data goes out
    and nothing is printed unless a [sendto] fails; when one fails the
    rest of the data is given up and the failure is printed once.  On a
    network whose [sendto] never fails the datagrams together are the
    data. *)
Theorem send_data_datagrams (e : env) (data : list byte) (w : world) :
  send_socket w <> HANDLE_NOT_VALID ->
  exists ds rest,
    wire (send_data e data w) = wire w ++ ds /\
    Forall (fun d => d <> []) ds /\
    data = concat ds ++ rest /\
    (rest = [] /\ console (send_data e data w) = console w \/
     rest <> [] /\
     console (send_data e data w) = console w ++ [msg_unable_to_send]) /\
    ((forall k, is_Some (sendto_limit e k)) -> rest = []).
Proof.
  intros Hsock. unfold send_data. rewrite decide_True by exact Hsock.
  now apply send_data_loop_datagrams.
Qed.

Lemma send_data_datagrams_witness :
  exists ds,
    wire (send_data (trickle 100) (bytes_of_string "hello") fresh) = ds /\
    concat ds = bytes_of_string "hello" /\
    length ds = 3%nat.
Proof.
  destruct (send_data_datagrams (trickle 100) (bytes_of_string "hello") fresh
              ltac:(discriminate))
    as (ds & rest & Hwire & _ & Hcat & _ & Hall).
  exists ds. split; [exact Hwire|].
  assert (Hrest : rest = []) by (apply Hall; intros k; cbn; eauto).
  rewrite Hrest, app_nil_r in Hcat. split; [now symmetry|].
  cbn [wire fresh app] in Hwire. rewrite <- Hwire. reflexivity.
Defined.

(** ** Frames of one peer and the entries of the others *)

Lemma others_delete ip l i c :
  l !! i = Some c -> ip_address c = ip -> others ip (delete i l) = others ip l.
Proof.
  intros Hlook Hip. unfold others.
  rewrite delete_take_drop.
  rewrite <- (take_drop_middle l i c Hlook) at 3.
  rewrite !filter_app, filter_cons_False; [reflexivity|]. intros Hne. now apply Hne.
Qed.

Lemma others_insert ip l i c c2 :
  l !! i = Some c -> ip_address c = ip -> ip_address c2 = ip ->
  others ip (<[i := c2]> l) = others ip l.
Proof.
  intros Hlook Hip Hip2. unfold others.
  rewrite insert_take_drop by (eapply lookup_lt_Some, Hlook).
  rewrite <- (take_drop_middle l i c Hlook) at 3.
  rewrite !filter_app, !filter_cons_False; [reflexivity| |];
    intros Hne; now apply Hne.
Qed.

Lemma others_snoc ip l c : ip_address c = ip -> others ip (l ++ [c]) = others ip l.
Proof.
  intros Hip. unfold others. rewrite filter_app, filter_cons_False.
  - cbn. apply app_nil_r.
  - intros Hne. now apply Hne.
Qed.

Lemma receive_file_block_others e data ip w :
  others ip (send_control (snd (receive_file_block e data ip w))) =
  others ip (send_control w).
Proof.
  destruct (receiving_from_dec ip w) as [(i & c & Hfind & Hlook & Hrecv)|Hidle].
  - destruct (is_receiving_inv _ Hrecv) as (Hin & h & Hout).
    destruct (find_send_control_Some _ _ _ Hfind) as (c' & Hlook' & Hip).
    rewrite Hlook in Hlook'. injection Hlook' as <-.
    rewrite (receive_file_block_receiving e data ip w i c h Hfind Hlook Hin Hout).
    pose proof (write_loop_frame (write_fuel data) e h data O w) as Hframe.
    cbn zeta in Hframe. destruct Hframe as (Hsc & _).
    destruct (_ =? 0); fields; rewrite Hsc.
    + now apply (others_delete ip _ i c).
    + now apply (others_insert ip _ i c).
  - now rewrite (receive_file_block_idle e data ip w Hidle).
Qed.

Lemma drop_previous_others ip w :
  others ip (send_control (drop_previous ip w)) = others ip (send_control w).
Proof.
  rewrite drop_previous_send_control.
  destruct (find_send_control (send_control w) ip) as [i|] eqn:Hfind; [|reflexivity].
  destruct (find_send_control_Some _ _ _ Hfind) as (c & Hlook & Hip).
  now apply (others_delete ip _ i c).
Qed.

Lemma receive_file_start_others e n ip w :
  others ip (send_control (receive_file_start e n ip w)) =
  others ip (send_control w).
Proof.
  rewrite <- (drop_previous_others ip w).
  destruct (receive_file_start_cases e n ip w)
    as [->|(name & tc & w4 & data & Hip & _ & Hsc & _ & _ & Hw')];
    [reflexivity|].
  assert (H4 : others ip (send_control w4) =
               others ip (send_control (drop_previous ip w))).
  { rewrite Hsc. now apply others_snoc. }
  destruct Hw' as [->| ->]; [exact H4|].
  now rewrite receive_file_block_others.
Qed.

(** X3: a frame never touches the control block of a peer other than its
    sender.  Whatever the frame is (a header of either kind, a chunk, chat
    text) and whatever state the receiver is in, the entries of all other
    addresses are after [read_data] what they were before, in the same
    order. *)
Theorem frame_leaves_other_peers_alone
    (e : env) (frame : list byte) (ip : string) (w : world) :
  others ip (send_control (snd (read_data e (Some (frame, ip)) w))) =
  others ip (send_control w).
Proof.
  unfold read_data. destruct (decide _); [|reflexivity].
  unfold recvfrom.
  set (w1 := set_udp_inbound_buffer _ w).
  change (send_control w) with (send_control w1).
  destruct (0 <? _); [|reflexivity].
  destruct (decide _).
  - cbn [snd]. unfold file_transfer.
    destruct (decide _); [apply receive_file_start_others|].
    destruct (decide _); [|reflexivity].
    unfold get_file_request, send_file. f_equal.
    exact (proj1 (send_file_untouched _ _ _ _ _)).
  - pose proof (receive_file_block_others e
                  (take (Z.to_nat (Z.of_nat (length (take UDP_IN_BUFFER_SIZE frame))))
                     (udp_inbound_buffer w1)) ip w1) as Hrfb.
    now destruct (receive_file_block _ _ _ _) as [[|] w2].
Qed.

(** ** Sweeping twice *)

Lemma set_send_control_id f w :
  f (send_control w) = send_control w -> set_send_control f w = w.
Proof. destruct w. unfold set_send_control. simpl. intros Hf. now rewrite Hf. Qed.

Lemma Forall_filter_keep now (l : list file_sent_control) :
  Forall (fun c => timer_expired now c = false)
    (filter (fun c => timer_expired now c = false) l).
Proof.
  apply Forall_forall. intros c Hc.
  now apply list_elem_of_filter in Hc as [Hc _].
Qed.

(** X4: a second sweep at the same clock reading finds nothing left to do:
    it reports no timeout and changes nothing, whatever the first one
    removed. *)
Theorem second_sweep_is_idle (e : env) (w : world) :
  transfer_timed_out e (snd (transfer_timed_out e w)) =
    (false, snd (transfer_timed_out e w)).
Proof.
  unfold transfer_timed_out at 2 3. rewrite sweep_loop_once by lia. cbn [snd].
  unfold transfer_timed_out. rewrite sweep_loop_once by lia.
  assert (Hsc : send_control (sweep_once (time_now e) w) =
                filter (fun c => timer_expired (time_now e) c = false) (send_control w)).
  { unfold sweep_once. fields. now rewrite foldl_close_send_control. }
  pose proof (Forall_filter_keep (time_now e) (send_control w)) as Hkeep.
  rewrite <- Hsc in Hkeep.
  rewrite existsb_expired_false by exact Hkeep. cbn [orb]. f_equal.
  unfold sweep_once at 1.
  rewrite (filter_none (fun c => timer_expired (time_now e) c = true)).
  - cbn [foldl]. apply set_send_control_id. now apply filter_all.
  - eapply Forall_impl; [exact Hkeep|]. cbn. intros c ->. discriminate.
Qed.

(** ** A whole file, from the header frame to the last chunk *)

Lemma find_send_control_snoc l c ip :
  find_send_control l ip = None ->
  ip_address c = ip ->
  find_send_control (l ++ [c]) ip = Some (length l).
Proof.
  intros Hnone Hc. induction l as [|x l IH]; cbn [app find_send_control length] in *.
  - now rewrite decide_True.
  - destruct (decide (ip_address x = ip)); [discriminate|].
    destruct (find_send_control l ip); [discriminate|].
    now rewrite IH.
Qed.

(** A file system that takes a whole chunk at once: one [fwrite] appends
    it to the file. *)
Lemma write_loop_all e h path data w :
  open_files w !! h = Some path ->
  data <> [] ->
  (forall k, (length data <= fwrite_limit e k)%nat) ->
  write_loop (write_fuel data) e h data O w =
    set_disk (alter (fun old => old ++ data) path) (set_fwrite_calls S w).
Proof.
  intros Hopen Hdata Htakes.
  destruct (write_fuel data) as [|fuel] eqn:Hfuel;
    [unfold write_fuel, MAX_FILE_WRITE_RETRY_COUNT in Hfuel; lia|].
  destruct data as [|b data]; [congruence|].
  cbn [write_loop].
  change (0 <? MAX_FILE_WRITE_RETRY_COUNT)%nat with true. cbv iota.
  unfold fwrite. rewrite Hopen, take_ge by apply Htakes.
  cbn [length]. cbv iota beta.
  change (S (length data)) with (length (b :: data)). rewrite drop_all.
  destruct fuel; reflexivity.
Qed.

Lemma clear_of_tag_buffer chunk rest :
  clear_of_tag chunk -> take 6 (chunk ++ rest) <> xfer_tag.
Proof.
  unfold clear_of_tag. intros Hclear Htag. apply Hclear.
  destruct (Nat.le_gt_cases (length chunk) 6) as [Hle|Hgt].
  - rewrite (take_ge chunk 6) by exact Hle.
    rewrite <- Htag, take_take, Nat.min_l by exact Hle.
    apply take_app_length.
  - rewrite take_app_le in Htag by lia. rewrite Htag.
    apply take_ge. cbn. lia.
Qed.

(** One chunk of a transfer under way: the bytes go to the end of the
    file; the last chunk closes it and takes the entry out. *)
Lemma receive_file_block_chunk e ip h path sc ofs d con written left chunk w :
  transfer_open ip h path sc ofs d con written left w ->
  find_send_control sc ip = None ->
  chunk <> [] ->
  (forall k, (length chunk <= fwrite_limit e k)%nat) ->
  let w' := snd (receive_file_block e chunk ip w) in
  (Z.of_nat (length chunk) < left ->
   transfer_open ip h path sc ofs d con (written ++ chunk)
     (left - Z.of_nat (length chunk)) w') /\
  (Z.of_nat (length chunk) = left ->
   receive_socket w' <> HANDLE_NOT_VALID /\ send_control w' = sc /\
   open_files w' = delete h ofs /\ disk w' = <[path := written ++ chunk]> d /\
   console w' = con).
Proof.
  intros (Hsock & [t Hsc] & Hof & Hdisk & Hcon) Hnone Hchunk Htakes.
  cbn zeta.
  assert (Hfind : find_send_control (send_control w) ip = Some (length sc)).
  { rewrite Hsc. now apply find_send_control_snoc. }
  assert (Hlook : send_control w !! length sc
                  = Some (receiving_block ip h left t)).
  { rewrite Hsc. now rewrite list_lookup_middle. }
  pose proof (receive_file_block_receiving e chunk ip w _ _ h Hfind Hlook
                eq_refl eq_refl) as Hblock.
  cbn zeta in Hblock. rewrite Hblock. clear Hblock.
  rewrite (write_loop_all e h path chunk w);
    [|rewrite Hof; apply lookup_insert_eq|exact Hchunk|exact Htakes].
  cbn [to_receive_count receiving_block].
  assert (Hdisk' : alter (fun old => old ++ chunk) path (disk w)
                   = <[path := written ++ chunk]> d).
  { rewrite Hdisk, alter_insert_eq. reflexivity. }
  split; intros Hleft.
  - destruct (Z.leb_spec (Z.of_nat (length chunk)) left) as [_|Hlt]; [|lia].
    destruct (Z.eqb_spec (left - Z.of_nat (length chunk)) 0) as [Hz|_]; [lia|].
    cbn [snd]. unfold transfer_open. fields.
    repeat split; try assumption.
    exists (time_now e). rewrite Hsc.
    rewrite <- (Nat.add_0_r (length sc)) at 1.
    rewrite insert_app_r. reflexivity.
  - destruct (Z.leb_spec (Z.of_nat (length chunk)) left) as [_|Hlt]; [|lia].
    destruct (Z.eqb_spec (left - Z.of_nat (length chunk)) 0) as [_|Hz]; [|lia].
    cbn [snd]. fields.
    repeat split; try assumption.
    + rewrite Hsc, delete_middle. apply app_nil_r.
    + rewrite Hof. apply delete_insert_eq.
Qed.

(** The same chunk as a frame of its own. *)
Lemma read_data_chunk e ip h path sc ofs d con written left chunk w :
  transfer_open ip h path sc ofs d con written left w ->
  find_send_control sc ip = None ->
  chunk <> [] ->
  (length chunk <= UDP_IN_BUFFER_SIZE)%nat ->
  clear_of_tag chunk ->
  (forall k, (UDP_IN_BUFFER_SIZE <= fwrite_limit e k)%nat) ->
  let w' := snd (read_data e (Some (chunk, ip)) w) in
  (Z.of_nat (length chunk) < left ->
   transfer_open ip h path sc ofs d con (written ++ chunk)
     (left - Z.of_nat (length chunk)) w') /\
  (Z.of_nat (length chunk) = left ->
   receive_socket w' <> HANDLE_NOT_VALID /\ send_control w' = sc /\
   open_files w' = delete h ofs /\ disk w' = <[path := written ++ chunk]> d /\
   console w' = con).
Proof.
  intros Hopen Hnone Hchunk Hlen Hclear Htakes.
  pose proof Hopen as (Hsock & _).
  cbn zeta. rewrite (read_data_frame e chunk ip w Hsock Hchunk).
  rewrite (take_ge chunk _ Hlen).
  rewrite decide_False
    by (unfold recvfrom; fields; rewrite (take_ge chunk _ Hlen);
        now apply clear_of_tag_buffer).
  set (w1 := snd (recvfrom chunk w)).
  assert (Hopen1 : transfer_open ip h path sc ofs d con written left w1)
    by exact Hopen.
  assert (Htakes' : forall k, (length chunk <= fwrite_limit e k)%nat)
    by (intros k; specialize (Htakes k); lia).
  pose proof (receive_file_block_chunk e ip h path sc ofs d con written left
                chunk w1 Hopen1 Hnone Hchunk Htakes') as Hstep.
  cbn zeta in Hstep.
  destruct (receive_file_block e chunk ip w1) as [[|] w2]; exact Hstep.
Qed.

Lemma choose_file_name_first base w :
  file_exists (string_of_bytes base +:+ "1") w = false ->
  choose_file_name MAX_FILE_OVERWRITE_CHECK base O w
  = Some (string_of_bytes base +:+ "1").
Proof.
  intros Hfree. change MAX_FILE_OVERWRITE_CHECK with (S 19).
  cbn [choose_file_name].
  change (0 <? S 19)%nat with true. change (0 <? 1)%nat with true. cbv iota.
  change (pretty 1%nat) with "1"%string. now rewrite Hfree.
Qed.

(** The header frame of a file that is not empty, from a peer without an
    entry: the file is created under the name with "1" behind it, and the
    peer gets the last entry of the vector. *)
Lemma read_data_announcement e ip name size w :
  receive_socket w <> HANDLE_NOT_VALID ->
  find_send_control (send_control w) ip = None ->
  0 < size <= INT_MAX ->
  let frame :=
    bytes_of_header
      {| header_command := xfer_tag; file_name := name;
         file_size := size; trans_type := trans_type_send |} in
  let path := (string_of_bytes (cstr (name_field_onwards frame)) +:+ "1")%string in
  disk w !! path = None ->
  fopen_wb_ok e path = true ->
  transfer_open ip (next_file w) path (send_control w) (open_files w) (disk w)
    (console w ++ [msg_inbound_file path size ip]) [] size
    (snd (read_data e (Some (frame, ip)) w)).
Proof.
  intros Hsock Hnone Hsize frame path Hfree Hopen.
  set (hdr := {| header_command := xfer_tag; file_name := name;
                 file_size := size; trans_type := trans_type_send |}) in *.
  assert (Hlen : length frame = sizeof_file_header)
    by apply length_bytes_of_header.
  assert (Hne : frame <> []).
  { intros H0. rewrite H0 in Hlen. discriminate. }
  assert (Hgot : take UDP_IN_BUFFER_SIZE frame = frame).
  { apply take_ge. rewrite Hlen, sizeof_file_header_eq. cbn. lia. }
  rewrite (read_data_frame e frame ip w Hsock Hne). rewrite Hgot.
  set (w1 := snd (recvfrom frame w)).
  assert (Hbuf : udp_inbound_buffer w1
                 = frame ++ drop (length frame) (udp_inbound_buffer w)).
  { subst w1. unfold recvfrom. fields. now rewrite Hgot. }
  assert (Hhdr : header_of_bytes (udp_inbound_buffer w1) =
            {| header_command := memcpy XFER_HDR_CMD_SIZE xfer_tag;
               file_name := memcpy XFER_HDR_NAME_SZIE name;
               file_size := int_wrap size;
               trans_type := int_wrap trans_type_send |}).
  { rewrite Hbuf. apply (header_of_bytes_of_header hdr). }
  assert (Hname : name_field_onwards (udp_inbound_buffer w1)
                  = name_field_onwards frame).
  { rewrite Hbuf. subst frame.
    rewrite (name_field_onwards_header hdr).
    pose proof (name_field_onwards_header hdr []) as Hown.
    rewrite app_nil_r in Hown. now rewrite Hown. }
  rewrite decide_True by (rewrite Hbuf; reflexivity).
  cbn [snd]. unfold file_transfer. rewrite Hhdr. cbn [trans_type].
  rewrite decide_True by reflexivity.
  unfold receive_file_start. rewrite (drop_previous_idle ip w1 Hnone).
  rewrite Hhdr, Hname. cbn [file_size file_name].
  rewrite (int_wrap_small size) by lia.
  destruct (Z.eqb_spec size 0) as [Hz|_]; [lia|].
  rewrite choose_file_name_first
    by (apply bool_decide_eq_false; change (disk w1) with (disk w);
        fold path; rewrite Hfree; now intros [? ?]).
  fold path. unfold fopen_wb. rewrite Hopen.
  rewrite Hlen, Nat.ltb_irrefl.
  unfold transfer_open. fields.
  change (receive_socket w1) with (receive_socket w).
  repeat split; try assumption.
  now exists (time_now e).
Qed.

(** The chunks of what is still to come, one frame each. *)
Lemma feed_chunks e ip h path sc ofs d con C :
  (0 < C <= UDP_IN_BUFFER_SIZE)%nat ->
  find_send_control sc ip = None ->
  (forall k, (UDP_IN_BUFFER_SIZE <= fwrite_limit e k)%nat) ->
  forall fuel rem written w,
    transfer_open ip h path sc ofs d con written (Z.of_nat (length rem)) w ->
    rem <> [] ->
    (length rem <= fuel)%nat ->
    Forall clear_of_tag (chunks fuel C rem) ->
    let w' := feed e ip (chunks fuel C rem) w in
    receive_socket w' <> HANDLE_NOT_VALID /\ send_control w' = sc /\
    open_files w' = delete h ofs /\ disk w' = <[path := written ++ rem]> d /\
    console w' = con.
Proof.
  intros HC Hnone Htakes.
  induction fuel as [|fuel IH]; intros rem written w Hopen Hrem Hlen Hclear.
  { destruct rem; [congruence|cbn in Hlen; lia]. }
  destruct rem as [|x rest]; [congruence|].
  cbn [chunks] in Hclear |- *. set (l := x :: rest) in *.
  apply Forall_cons in Hclear as [Hc1 Hcs].
  unfold feed. cbn [foldl].
  assert (Hne : take C l <> []).
  { subst l. destruct C; [lia|discriminate]. }
  assert (Hlc : (length (take C l) <= UDP_IN_BUFFER_SIZE)%nat)
    by (rewrite length_take; lia).
  destruct (read_data_chunk e ip h path sc ofs d con written _ (take C l) w
              Hopen Hnone Hne Hlc Hc1 Htakes) as [Hmore Hlast].
  destruct (Nat.le_gt_cases (length l) C) as [Hle|Hgt].
  - rewrite (drop_ge l C Hle), chunks_nil. cbn [foldl].
    rewrite (take_ge l C Hle) in Hlast |- *. now apply Hlast.
  - assert (Hfull : length (take C l) = C) by (rewrite length_take; lia).
    specialize (Hmore ltac:(lia)).
    replace (Z.of_nat (length l) - Z.of_nat (length (take C l)))
      with (Z.of_nat (length (drop C l))) in Hmore
      by (rewrite length_drop; lia).
    specialize (IH (drop C l) (written ++ take C l) _ Hmore).
    rewrite <- app_assoc, take_drop in IH. apply IH.
    + intros Hd. apply (f_equal length) in Hd.
      rewrite length_drop in Hd. cbn [length] in Hd. lia.
    + rewrite length_drop. subst l. cbn [length] in Hlen |- *. lia.
    + exact Hcs.
Qed.

(** The receiver's side of a transfer: the header frame of a file and
    then its chunks, from a peer without an entry. *)
Lemma feed_transfer e ip name contents C w :
  receive_socket w <> HANDLE_NOT_VALID ->
  find_send_control (send_control w) ip = None ->
  (strlen name < XFER_HDR_NAME_SZIE)%nat ->
  contents <> [] ->
  Z.of_nat (length contents) <= INT_MAX ->
  (0 < C <= UDP_IN_BUFFER_SIZE)%nat ->
  Forall clear_of_tag (chunks (length contents) C contents) ->
  let path := (string_of_bytes (cstr (memcpy XFER_HDR_NAME_SZIE name)) +:+ "1")%string in
  disk w !! path = None ->
  fopen_wb_ok e path = true ->
  (forall k, (UDP_IN_BUFFER_SIZE <= fwrite_limit e k)%nat) ->
  let frames :=
    bytes_of_header
      {| header_command := xfer_tag; file_name := name;
         file_size := Z.of_nat (length contents);
         trans_type := trans_type_send |}
    :: chunks (length contents) C contents in
  let w' := feed e ip frames w in
  disk w' = <[path := contents]> (disk w) /\
  send_control w' = send_control w /\
  open_files w' = delete (next_file w) (open_files w) /\
  console w' = console w
               ++ [msg_inbound_file path (Z.of_nat (length contents)) ip].
Proof.
  intros Hsock Hnone Hfits Hne Hmax HC Hclear path Hfree Hopen Htakes frames w'.
  subst frames w'. unfold feed. cbn [foldl].
  assert (Hpos : 0 < Z.of_nat (length contents) <= INT_MAX).
  { destruct contents; [congruence|]. cbn [length] in *. lia. }
  set (hdr := {| header_command := xfer_tag; file_name := name;
                 file_size := Z.of_nat (length contents);
                 trans_type := trans_type_send |}).
  assert (Hpath : (string_of_bytes (cstr (name_field_onwards (bytes_of_header hdr)))
                   +:+ "1")%string = path).
  { subst path. f_equal. f_equal.
    pose proof (cstr_name_field_onwards hdr [] Hfits) as Hn.
    rewrite app_nil_r in Hn. rewrite Hn. cbn [file_name hdr].
    rewrite cstr_memcpy_take. symmetry. apply take_ge.
    unfold strlen in Hfits. lia. }
  pose proof (read_data_announcement e ip name _ w Hsock Hnone Hpos) as Hstart.
  cbv zeta in Hstart. fold hdr in Hstart. rewrite Hpath in Hstart.
  specialize (Hstart Hfree Hopen).
  destruct (feed_chunks e ip _ _ _ _ _ _ C HC Hnone Htakes (length contents)
              contents [] _ Hstart Hne (Nat.le_refl _) Hclear)
    as (_ & Hsc & Hof & Hdisk & Hcon).
  repeat split; assumption.
Qed.

Lemma cstr_snoc_nul (l : list byte) : cstr (l ++ [ASCII_NULL_ZERO]) = cstr l.
Proof.
  induction l as [|c l IH]; cbn [app cstr].
  - now rewrite decide_True.
  - destruct (decide (c = ASCII_NULL_ZERO)); [reflexivity|now rewrite IH].
Qed.

(** The name field holds one byte more than [send_file] copies into it,
    so the receiver reads the name the sender cut. *)
Lemma cstr_name_field (p : list byte) :
  cstr (memcpy XFER_HDR_NAME_SZIE (memcpy (XFER_HDR_NAME_SZIE - 1) p))
  = cstr (memcpy (XFER_HDR_NAME_SZIE - 1) p).
Proof.
  rewrite (memcpy_short XFER_HDR_NAME_SZIE)
    by (rewrite length_memcpy; unfold XFER_HDR_NAME_SZIE; lia).
  rewrite length_memcpy. apply cstr_snoc_nul.
Qed.

Lemma strlen_name_cut (p : list byte) :
  (strlen (memcpy (XFER_HDR_NAME_SZIE - 1) p) < XFER_HDR_NAME_SZIE)%nat.
Proof.
  pose proof (strlen_le_length (memcpy (XFER_HDR_NAME_SZIE - 1) p)) as Hle.
  rewrite length_memcpy in Hle. unfold XFER_HDR_NAME_SZIE in *. lia.
Qed.

(** What [send_file] puts on the wire for a file that is there and fits
    an [int], on a network that takes every datagram whole. *)
Lemma send_file_frames e path reply w contents :
  send_socket w <> HANDLE_NOT_VALID ->
  disk w !! string_of_bytes (cstr (requested_path path)) = Some contents ->
  Z.of_nat (length contents) <= INT_MAX ->
  sendto_takes (Z.to_nat MAX_OUT_DATA_SIZE) e ->
  wire (send_file e path reply w) =
    wire w
    ++ bytes_of_header
         {| header_command := xfer_tag;
            file_name := memcpy (XFER_HDR_NAME_SZIE - 1)
                           (file_name_of (requested_path path));
            file_size := Z.of_nat (length contents);
            trans_type := trans_type_send |}
       :: chunks (length contents) (Z.to_nat MAX_OUT_DATA_SIZE) contents.
Proof.
  intros Hsock Hdisk Hmax Htakes.
  unfold send_file, send_file_sized. rewrite Hdisk. cbv zeta.
  fold (file_name_of (requested_path path)).
  rewrite (int_wrap_small (Z.of_nat (length contents))) by lia.
  rewrite Nat2Z.id.
  set (hdr := bytes_of_header _).
  assert (Hlen : length hdr = sizeof_file_header)
    by apply length_bytes_of_header.
  rewrite (send_data_whole _ e hdr w Htakes Hsock);
    [|intros H0; rewrite H0 in Hlen; discriminate
     |rewrite Hlen, sizeof_file_header_eq; unfold MAX_OUT_DATA_SIZE; lia].
  rewrite (send_file_loop_wire (Z.to_nat MAX_OUT_DATA_SIZE) e MAX_OUT_DATA_SIZE);
    [|reflexivity|exact Htakes|lia|exact Hsock|lia].
  fields. now rewrite <- app_assoc.
Qed.

(** X5: a file sent with [send_file] arrives.  When the sender has the
    file, not empty and of at most 2^31 - 1 bytes, and its network takes
    every datagram whole, and the receiver has no entry for the sender,
    can create the file named after the sent one with "1" behind it, has
    no such file yet, and its [fwrite] takes a whole chunk, and none of
    the 1024-byte chunks of the file begins like the transfer tag, then
    after the frames [send_file] put on the wire went through [read_data]
    one by one, the new file holds exactly the contents of the sent one,
    it is closed, and the vector of control blocks is as it was before. *)
Theorem sent_file_arrives
    (es er : env) (path : list byte) (reply : bool) (ws wr : world)
    (contents : list byte) (ip : string) :
  send_socket ws <> HANDLE_NOT_VALID ->
  disk ws !! string_of_bytes (cstr (requested_path path)) = Some contents ->
  contents <> [] ->
  Z.of_nat (length contents) <= INT_MAX ->
  sendto_takes (Z.to_nat MAX_OUT_DATA_SIZE) es ->
  Forall clear_of_tag
    (chunks (length contents) (Z.to_nat MAX_OUT_DATA_SIZE) contents) ->
  receive_socket wr <> HANDLE_NOT_VALID ->
  find_send_control (send_control wr) ip = None ->
  let saved :=
    (string_of_bytes
       (cstr (memcpy (XFER_HDR_NAME_SZIE - 1)
                (file_name_of (requested_path path)))) +:+ "1")%string in
  disk wr !! saved = None ->
  fopen_wb_ok er saved = true ->
  (forall k, (UDP_IN_BUFFER_SIZE <= fwrite_limit er k)%nat) ->
  let sent := drop (length (wire ws)) (wire (send_file es path reply ws)) in
  let wr' := feed er ip sent wr in
  disk wr' = <[saved := contents]> (disk wr) /\
  send_control wr' = send_control wr /\
  open_files wr' = delete (next_file wr) (open_files wr).
Proof.
  intros Hsock Hdisk Hne Hmax Htakes Hclear Hrsock Hnone saved Hfree Hopen
    Hfw sent wr'.
  subst sent wr'.
  rewrite (send_file_frames es path reply ws contents Hsock Hdisk Hmax Htakes).
  rewrite drop_app_length.
  assert (HC : (0 < Z.to_nat MAX_OUT_DATA_SIZE <= UDP_IN_BUFFER_SIZE)%nat)
    by (unfold MAX_OUT_DATA_SIZE, UDP_IN_BUFFER_SIZE; lia).
  subst saved. rewrite <- cstr_name_field in Hfree, Hopen |- *.
  destruct (feed_transfer er ip _ contents _ wr Hrsock Hnone
              (strlen_name_cut (file_name_of (requested_path path)))
              Hne Hmax HC Hclear Hfree Hopen Hfw) as (Hd & Hsc & Hof & _).
  repeat split; assumption.
Qed.

Lemma calm_takes t : sendto_takes (Z.to_nat MAX_OUT_DATA_SIZE) (calm t).
Proof.
  intros k. exists 65507%positive. split; [reflexivity|].
  unfold MAX_OUT_DATA_SIZE. lia.
Qed.

Lemma calm_writes t k : (UDP_IN_BUFFER_SIZE <= fwrite_limit (calm t) k)%nat.
Proof. reflexivity. Qed.

Lemma notes_clear :
  Forall clear_of_tag
    (chunks (length notes_contents) (Z.to_nat MAX_OUT_DATA_SIZE) notes_contents).
Proof.
  assert (Hhead : forall rest : list byte, clear_of_tag ("a"%char :: rest)).
  { intros rest. unfold clear_of_tag. cbn [length take xfer_tag].
    unfold xfer_tag. cbn. discriminate. }
  assert (Hcut : exists r1 r2 r3,
            chunks (length notes_contents) (Z.to_nat MAX_OUT_DATA_SIZE)
              notes_contents
            = [ "a"%char :: r1; "a"%char :: r2; "a"%char :: r3 ]).
  { eexists _, _, _. vm_compute. reflexivity. }
  destruct Hcut as (r1 & r2 & r3 & ->).
  repeat constructor; apply Hhead.
Qed.

Lemma notes_saved :
  (string_of_bytes
     (cstr (memcpy (XFER_HDR_NAME_SZIE - 1)
              (file_name_of
                 (requested_path
                    (bytes_of_string " notes.txt" ++ [ASCII_LINE_FEED])))))
   +:+ "1")%string
  = "notes.txt1"%string.
Proof. vm_compute. reflexivity. Qed.

Lemma notes_small : Z.of_nat (length notes_contents) <= INT_MAX.
Proof. vm_compute. discriminate. Qed.

Lemma sent_file_arrives_witness :
  let typed := bytes_of_string " notes.txt" ++ [ASCII_LINE_FEED] in
  let sent :=
    drop (length (wire with_notes))
      (wire (send_file (calm 100) typed false with_notes)) in
  disk (feed (calm 101) peer_a sent fresh)
  = <["notes.txt1"%string := notes_contents]> (disk fresh).
Proof.
  pose proof (sent_file_arrives (calm 100) (calm 101)
                (bytes_of_string " notes.txt" ++ [ASCII_LINE_FEED]) false
                with_notes fresh notes_contents peer_a
                ltac:(discriminate) notes_on_disk ltac:(discriminate)
                notes_small (calm_takes 100) notes_clear
                ltac:(discriminate) eq_refl) as H.
  cbv zeta in H. rewrite notes_saved in H.
  exact (proj1 (H eq_refl eq_refl (calm_writes 101))).
Defined.

(** The name the loop settles on is not on the disk. *)
Lemma choose_file_name_free fuel base k w name :
  choose_file_name fuel base k w = Some name -> disk w !! name = None.
Proof.
  revert k. induction fuel as [|fuel IH]; intros k H; [discriminate|].
  cbn [choose_file_name] in H.
  destruct (k <? MAX_FILE_OVERWRITE_CHECK)%nat; [|discriminate].
  change (0 <? S k)%nat with true in H. cbv iota in H.
  destruct (file_exists _ w) eqn:Hex.
  - exact (IH _ H).
  - injection H as <-. unfold file_exists in Hex.
    apply bool_decide_eq_false in Hex. now apply eq_None_not_Some.
Qed.
(** ** Files that are on the disk already *)

Section ClosedFile.
Variable p : string.
Variable c : list byte.

Lemma closed_file_same w w' :
  disk w' = disk w -> open_files w' = open_files w ->
  closed_file p c w -> closed_file p c w'.
Proof. unfold closed_file. intros -> ->. auto. Qed.

Lemma closed_file_untouched w w' :
  files_untouched w w' -> closed_file p c w -> closed_file p c w'.
Proof. intros (_ & _ & Hof & Hd). now apply closed_file_same. Qed.

Lemma closed_file_fclose h w :
  closed_file p c w -> closed_file p c (fclose h w).
Proof.
  intros [Hd Ho]. split; [exact Hd|]. intros h' Hh'.
  unfold fclose in Hh'. cbn [set_open_files open_files] in Hh'.
  apply lookup_delete_Some in Hh' as [_ Hh']. exact (Ho h' Hh').
Qed.

Lemma closed_file_fwrite e h data w :
  closed_file p c w -> closed_file p c (snd (fwrite e h data w)).
Proof.
  intros [Hd Ho]. unfold fwrite.
  destruct (open_files w !! h) as [path|] eqn:Hh; cbn [snd];
    (split; [|exact Ho]); fields; [|exact Hd].
  rewrite lookup_alter_ne; [exact Hd|]. intros ->. exact (Ho h Hh).
Qed.

Lemma closed_file_write_loop fuel e h data k w :
  closed_file p c w -> closed_file p c (write_loop fuel e h data k w).
Proof.
  revert data k w. induction fuel as [|fuel IH]; intros data k w Hw; [exact Hw|].
  cbn [write_loop]. destruct data as [|b data]; [exact Hw|].
  destruct (k <? MAX_FILE_WRITE_RETRY_COUNT)%nat; [|exact Hw].
  pose proof (closed_file_fwrite e h (b :: data) w Hw) as Hw1.
  destruct (fwrite e h (b :: data) w) as [[|n] w1]; cbn [snd] in Hw1;
    now apply IH.
Qed.

Lemma closed_file_receive_file_block e data ip w :
  closed_file p c w -> closed_file p c (snd (receive_file_block e data ip w)).
Proof.
  intros Hw. unfold receive_file_block.
  destruct (find_send_control (send_control w) ip) as [i|]; [|exact Hw].
  destruct (send_control w !! i) as [b|]; [|exact Hw].
  destruct (out_file_p b) as [h|]; [|exact Hw].
  destruct (in_file_transfer b); [|exact Hw].
  pose proof (closed_file_write_loop (write_fuel data) e h data O w Hw) as Hw1.
  destruct (_ =? 0); cbn [snd].
  - apply (closed_file_fclose h) in Hw1. exact Hw1.
  - exact Hw1.
Qed.

Lemma closed_file_drop_previous ip w :
  closed_file p c w -> closed_file p c (drop_previous ip w).
Proof.
  intros Hw. unfold drop_previous.
  destruct (find_send_control (send_control w) ip) as [i|]; [|exact Hw].
  destruct (send_control w !! i) as [b|]; [|exact Hw].
  destruct (out_file_p b) as [h|]; [|exact Hw].
  destruct (in_file_transfer b); [|exact Hw].
  apply (closed_file_fclose h) in Hw. exact Hw.
Qed.

Lemma closed_file_receive_file_start e n ip w :
  closed_file p c w -> closed_file p c (receive_file_start e n ip w).
Proof.
  intros Hw. unfold receive_file_start.
  pose proof (closed_file_drop_previous ip w Hw) as Hw1.
  set (w1 := drop_previous ip w) in *.
  destruct (_ =? 0); [exact Hw1|].
  destruct (choose_file_name _ _ _ w1) as [name|] eqn:Hname; [|exact Hw1].
  apply choose_file_name_free in Hname.
  unfold fopen_wb. destruct (fopen_wb_ok e name); [|exact Hw1].
  match goal with
  | |- closed_file p c (if _ then snd (receive_file_block _ _ _ ?w4) else _) =>
      assert (Hw4 : closed_file p c w4)
  end.
  { destruct Hw1 as [Hd Ho]. split; fields.
    - rewrite lookup_insert_ne; [exact Hd|]. intros ->. congruence.
    - intros h Hh. apply lookup_insert_Some in Hh as [[_ ->]|[_ Hh]].
      + congruence.
      + exact (Ho h Hh). }
  destruct (_ <? _)%nat; [|exact Hw4].
  now apply closed_file_receive_file_block.
Qed.

Lemma closed_file_file_transfer e n ip w :
  closed_file p c w -> closed_file p c (file_transfer e n ip w).
Proof.
  intros Hw. unfold file_transfer.
  destruct (decide _); [now apply closed_file_receive_file_start|].
  destruct (decide _); [|exact Hw].
  eapply closed_file_untouched; [|exact Hw].
  unfold get_file_request, send_file. apply send_file_untouched.
Qed.

Lemma closed_file_read_data e inbound w :
  closed_file p c w -> closed_file p c (snd (read_data e inbound w)).
Proof.
  intros Hw. unfold read_data.
  destruct inbound as [[frame ip]|]; [|now destruct (decide _)].
  destruct (decide _); [|exact Hw].
  unfold recvfrom. destruct (0 <? _); [|exact Hw].
  destruct (decide _); cbn [snd].
  - apply closed_file_file_transfer. exact Hw.
  - match goal with
    | |- context [receive_file_block e ?d ip ?w1] =>
        pose proof (closed_file_receive_file_block e d ip w1 Hw) as Hw2;
        destruct (receive_file_block e d ip w1) as [[|] w2]
    end; exact Hw2.
Qed.

Lemma closed_file_main_poll e inbound w :
  closed_file p c w -> closed_file p c (main_poll e inbound w).
Proof.
  intros Hw. unfold main_poll.
  pose proof (closed_file_read_data e inbound w Hw) as Hw1.
  destruct (read_data e inbound w) as [n w1]. cbn [snd] in Hw1.
  destruct (0 <? n); exact Hw1.
Qed.

Lemma closed_file_transfer_timed_out e w :
  closed_file p c w -> closed_file p c (snd (transfer_timed_out e w)).
Proof.
  intros [Hd Ho]. unfold transfer_timed_out. rewrite sweep_loop_once by lia.
  cbn [snd]. unfold sweep_once. split; fields.
  - now rewrite foldl_close_disk.
  - intros h. rewrite foldl_close_open_files.
    destruct (decide _); [discriminate|apply Ho].
Qed.

End ClosedFile.

(** X6: the program never touches a file that is on the disk unless it
    has it open for a transfer.  Whatever arrives, whatever the operator
    types and however long the loop of main runs, a file that is there
    and on which no handle is open keeps its contents, and no handle is
    ever opened on it: a transfer under the same name goes to a new
    file. *)
Theorem existing_file_is_kept
    (p : string) (c : list byte) (w w' : world) :
  disk w !! p = Some c ->
  (forall h, open_files w !! h <> Some p) ->
  runs_to w w' ->
  disk w' !! p = Some c /\ forall h, open_files w' !! h <> Some p.
Proof.
  intros Hd Ho Hrun. change (closed_file p c w').
  induction Hrun as [|e inbound w' _ IH|e cmd w' _ IH|e w' _ IH].
  - split; assumption.
  - now apply closed_file_main_poll.
  - eapply closed_file_untouched; [apply main_command_untouched|exact IH].
  - now apply closed_file_transfer_timed_out.
Qed.

Lemma existing_file_is_kept_witness :
  let frame := send_frame "notes.txt" 5 ++ bytes_of_string "hello" in
  disk (main_poll (calm 100) (Some (frame, peer_a)) with_notes) !! "notes.txt"%string
  = Some notes_contents.
Proof.
  exact (proj1 (existing_file_is_kept "notes.txt" notes_contents with_notes _
                  eq_refl ltac:(intros h; discriminate)
                  (runs_poll with_notes (calm 100)
                     (Some (send_frame "notes.txt" 5 ++ bytes_of_string "hello",
                            peer_a))
                     with_notes (runs_nowhere with_notes)))).
Defined.

(** ** A transfer the receiver has no name for *)

Lemma header_of_bytes_alone (h : file_transfer_header) :
  header_of_bytes (bytes_of_header h) =
    {| header_command := memcpy XFER_HDR_CMD_SIZE (header_command h);
       file_name := memcpy XFER_HDR_NAME_SZIE (file_name h);
       file_size := int_wrap (file_size h);
       trans_type := int_wrap (trans_type h) |}.
Proof.
  rewrite <- (app_nil_r (bytes_of_header h)). apply header_of_bytes_of_header.
Qed.

Lemma recvfrom_header (h : file_transfer_header) (rest : list byte) w :
  header_of_bytes (udp_inbound_buffer (snd (recvfrom (bytes_of_header h ++ rest) w)))
  = header_of_bytes (bytes_of_header h).
Proof.
  unfold recvfrom. fields.
  rewrite take_app, (take_ge (bytes_of_header h))
    by (rewrite length_bytes_of_header, sizeof_file_header_eq; cbn; lia).
  rewrite <- !app_assoc, header_of_bytes_of_header.
  now rewrite header_of_bytes_alone.
Qed.

Lemma recvfrom_name_field (h : file_transfer_header) (rest : list byte) w :
  name_field_onwards
    (udp_inbound_buffer (snd (recvfrom (bytes_of_header h ++ rest) w)))
  = name_field_onwards (bytes_of_header h ++ rest).
Proof.
  unfold recvfrom. fields.
  rewrite take_app, (take_ge (bytes_of_header h))
    by (rewrite length_bytes_of_header, sizeof_file_header_eq; cbn; lia).
  rewrite <- !app_assoc. now rewrite !name_field_onwards_header.
Qed.

Lemma recvfrom_header_lead (h : file_transfer_header) (rest : list byte) w :
  header_command h = xfer_tag ->
  take 6 (udp_inbound_buffer (snd (recvfrom (bytes_of_header h ++ rest) w)))
  = xfer_tag.
Proof.
  intros Hcmd. rewrite recvfrom_lead
    by (rewrite length_app, length_bytes_of_header, sizeof_file_header_eq; lia).
  unfold bytes_of_header. rewrite Hcmd. reflexivity.
Qed.

(** X7: a header frame for a file when the twenty names the receiver
    would try are all on the disk.  The names are the C string [strcpy]
    finds at the name field of the frame with 1 to 20 behind it; that
    string is the sent name when the name leaves a byte of its field free,
    and goes on into the bytes of the size otherwise.  [read_data] takes
    the frame as its own (it returns 0) and does no more for it than for
    the announcement of an empty file.  A transfer the sender had open is
    aborted; no file is created, none is changed, no control block is
    added and nothing else is printed. *)
Theorem announcement_dropped_when_names_taken
    (e : env) (name : list byte) (size : Z) (rest : list byte) (ip : string)
    (w : world) :
  let frame :=
    bytes_of_header {| header_command := xfer_tag; file_name := name;
                       file_size := size; trans_type := trans_type_send |}
    ++ rest in
  let base := cstr (name_field_onwards frame) in
  receive_socket w <> HANDLE_NOT_VALID ->
  (forall j : nat, (0 < j <= MAX_FILE_OVERWRITE_CHECK)%nat ->
     is_Some (disk w !! (string_of_bytes base +:+ pretty j)%string)) ->
  read_data e (Some (frame, ip)) w
  = (0, drop_previous ip (snd (recvfrom frame w))) /\
  ((strlen name < XFER_HDR_NAME_SZIE)%nat -> base = cstr name).
Proof.
  intros frame base Hsock Htaken.
  set (hdr := {| header_command := xfer_tag; file_name := name;
                 file_size := size; trans_type := trans_type_send |}) in *.
  split; [|intros Hfits; exact (cstr_name_field_onwards hdr rest Hfits)].
  assert (Hne : frame <> []).
  { intros H0. apply (f_equal length) in H0. subst frame.
    rewrite length_app, length_bytes_of_header, sizeof_file_header_eq in H0.
    discriminate. }
  rewrite (read_data_frame e frame ip w Hsock Hne).
  subst frame. rewrite decide_True by now apply recvfrom_header_lead.
  apply (f_equal (pair 0)). unfold file_transfer.
  rewrite recvfrom_header, header_of_bytes_alone. cbn [trans_type].
  rewrite decide_True by reflexivity.
  apply receive_file_start_exhausted. intros j Hj.
  rewrite recvfrom_name_field.
  apply bool_decide_eq_true. now apply Htaken.
Qed.

Lemma crowded_names (j : nat) :
  (0 < j <= MAX_FILE_OVERWRITE_CHECK)%nat ->
  is_Some (disk crowded
             !! (string_of_bytes
                   (cstr (name_field_onwards
                            (send_frame "a.txt" 5 ++ bytes_of_string "hello")))
                 +:+ pretty j)%string).
Proof.
  unfold MAX_FILE_OVERWRITE_CHECK. intros Hj.
  do 21 (destruct j as [|j]; [try lia; vm_compute; eauto|]). lia.
Qed.

Lemma announcement_dropped_when_names_taken_witness :
  let frame := send_frame "a.txt" 5 ++ bytes_of_string "hello" in
  read_data (calm 100) (Some (frame, peer_a)) crowded
  = (0, drop_previous peer_a (snd (recvfrom frame crowded))).
Proof.
  exact (proj1 (announcement_dropped_when_names_taken (calm 100)
                  (bytes_of_string "a.txt") 5 (bytes_of_string "hello") peer_a
                  crowded ltac:(discriminate) crowded_names)).
Defined.

(** ** A line of chat, from one operator to the other *)

Lemma cstr_no_nul (l : list byte) : Forall (fun c => c <> ASCII_NULL_ZERO) (cstr l).
Proof.
  induction l as [|c l IH]; cbn [cstr]; [constructor|].
  destruct (decide (c = ASCII_NULL_ZERO)); constructor; assumption.
Qed.

(** A line followed by its NUL is not taken for a header unless the line
    begins with the tag. *)
Lemma text_lead (line stale : list byte) :
  Forall (fun c => c <> ASCII_NULL_ZERO) line ->
  take 6 line <> xfer_tag ->
  take 6 (line ++ ASCII_NULL_ZERO :: stale) <> xfer_tag.
Proof.
  intros Hnul Hline Htag.
  destruct (Nat.le_gt_cases 6 (length line)) as [Hge|Hlt].
  - rewrite take_app_le in Htag by exact Hge. contradiction.
  - assert (Hat : xfer_tag !! length line = Some ASCII_NULL_ZERO).
    { rewrite <- Htag, lookup_take_lt by exact Hlt. apply list_lookup_middle.
      reflexivity. }
    remember (length line) as n eqn:Hn. clear Hn Htag.
    do 6 (destruct n as [|n]; [vm_compute in Hat; discriminate Hat|]). lia.
Qed.

(** What a call of [logging_write_log] leaves of the files. *)
Lemma logging_in_write_log text w l :
  logging_in (logging_write_log text) w l
  = (set_disk (fun _ => log_written (cstr text) l (disk w)) w,
     set_log_disk (log_written (cstr text) l (disk w)) l).
Proof.
  unfold logging_in, logging_write_log, log_written, set_log_disk.
  cbn [write_log_p logging_enabled log_disk].
  destruct (write_log_p l) as [name|]; [|reflexivity].
  destruct (logging_enabled l); reflexivity.
Qed.

(** X8: a line of chat, typed at one program and met by another.  The
    sender's network takes the line with its NUL in one datagram, the line
    does not begin with the transfer tag and is shorter than the receive
    buffer by two bytes or more, and the receiver has no transfer open
    from the sender.  Then main, given the line, sends one datagram, the
    line with its NUL, and the round of main that meets it at the receiver
    prints exactly the line.  Either program appends the line to its log
    when the log is open and logging is on, and leaves every other file,
    and without such a log every file, as it was; the control blocks and
    the open handles of both stay as they are. *)
Theorem text_is_printed
    (es er : env) (text : list byte) (ip : string) (ws wr : world)
    (ls lr : LoggingClass) :
  send_socket ws <> HANDLE_NOT_VALID ->
  sendto_takes (S (strlen text)) es ->
  (S (strlen text) < UDP_IN_BUFFER_SIZE)%nat ->
  take 6 (cstr text) <> xfer_tag ->
  receive_socket wr <> HANDLE_NOT_VALID ->
  ~ receiving_from ip wr ->
  let ws' := fst (main_command_logged es (command_text text) (ws, ls)) in
  let sent := drop (length (wire ws)) (wire ws') in
  let wr' := fst (deliver_logged er ip sent (wr, lr)) in
  sent = [cstr text ++ [ASCII_NULL_ZERO]] /\
  console wr' = console wr ++ [msg_text (cstr text)] /\
  disk wr' = log_written (cstr text) lr (disk wr) /\
  disk ws' = log_written (cstr text) ls (disk ws) /\
  (send_control wr' = send_control wr /\ next_file wr' = next_file wr /\
   open_files wr' = open_files wr) /\
  (send_control ws' = send_control ws /\ next_file ws' = next_file ws /\
   open_files ws' = open_files ws).
Proof.
  intros Hsock Htakes Hlen Hlead Hrsock Hidle ws' sent wr'.
  set (line := cstr text) in *.
  set (frame := line ++ [ASCII_NULL_ZERO]).
  assert (Hflen : length frame = S (strlen text)).
  { subst frame. rewrite length_app. unfold strlen. fold line. cbn. lia. }
  assert (Hne : frame <> []).
  { intros H0. rewrite H0 in Hflen. discriminate. }
  assert (Hws' : ws' = set_disk (fun _ => log_written line ls (disk ws))
                         (set_wire (fun l => l ++ [frame]) (set_sendto_calls S ws))).
  { subst ws'. unfold main_command_logged. rewrite logging_in_write_log.
    fold line. cbn [fst]. unfold send_text.
    rewrite decide_True by exact Hsock. fold line. fold frame.
    rewrite (send_data_whole _ es frame ws Htakes Hsock Hne) by lia.
    reflexivity. }
  assert (Hsent : sent = [frame]).
  { subst sent. rewrite Hws'. fields. apply drop_app_length. }
  assert (Hwr' : wr' = set_disk (fun _ => log_written line lr (disk wr))
                         (print (msg_text line)
                            (set_udp_inbound_buffer
                               (<[length frame := ASCII_NULL_ZERO]>)
                               (snd (recvfrom frame wr))))).
  { subst wr'. rewrite Hsent. unfold deliver_logged. cbn [foldl].
    unfold main_poll_logged.
    rewrite (read_data_frame er frame ip wr Hrsock Hne).
    assert (Hgot : take UDP_IN_BUFFER_SIZE frame = frame)
      by (apply take_ge; lia).
    rewrite Hgot.
    set (w1 := snd (recvfrom frame wr)).
    assert (Hbuf : udp_inbound_buffer w1 =
              line ++ ASCII_NULL_ZERO :: drop (length frame) (udp_inbound_buffer wr)).
    { subst w1. unfold recvfrom. fields. rewrite Hgot. subst frame.
      now rewrite <- app_assoc. }
    rewrite decide_False
      by (rewrite Hbuf; apply text_lead; [apply cstr_no_nul|exact Hlead]).
    rewrite (receive_file_block_idle er frame ip w1 Hidle).
    destruct (Z.ltb_spec 0 (Z.of_nat (length frame))) as [_|Hle]; [|lia].
    rewrite Nat2Z.id, logging_in_write_log. cbn [fst].
    assert (Hline : cstr (udp_inbound_buffer
                            (set_udp_inbound_buffer
                               (<[length frame := ASCII_NULL_ZERO]>) w1)) = line).
    { fields. rewrite Hbuf, Hflen.
      rewrite insert_app_r_alt by (unfold strlen; fold line; lia).
      replace (S (strlen text) - length line)%nat with 1%nat
        by (unfold strlen; fold line; lia).
      cbn [insert list_insert]. now rewrite cstr_app_nul by apply cstr_no_nul. }
    rewrite Hline. reflexivity. }
  split; [exact Hsent|]. rewrite Hwr', Hws'. fields.
  split; [reflexivity|]. split; [reflexivity|]. split; [reflexivity|].
  split; (split; [reflexivity|split; reflexivity]).
Qed.

Lemma hello_takes : sendto_takes (S (strlen (bytes_of_string "hello"))) (calm 100).
Proof.
  intros k. exists 65507%positive. split; [reflexivity|].
  change (strlen (bytes_of_string "hello")) with 5%nat. lia.
Qed.

Lemma hello_fits : (S (strlen (bytes_of_string "hello")) < UDP_IN_BUFFER_SIZE)%nat.
Proof.
  change (strlen (bytes_of_string "hello")) with 5%nat.
  unfold UDP_IN_BUFFER_SIZE. lia.
Qed.

Lemma fresh_idle ip : ~ receiving_from ip fresh.
Proof. intros (i & c & Hfind & _). discriminate Hfind. Qed.

Lemma text_is_printed_witness :
  let text := bytes_of_string "hello" in
  let log := logging_create_log all_saints true (LoggingClass_new ∅) in
  let typed := main_command_logged (calm 100) (command_text text) (fresh, log) in
  let sent := drop (length (wire fresh)) (wire (fst typed)) in
  disk (fst (deliver_logged (calm 101) peer_a sent (fresh, log)))
  = log_written (cstr text) log (disk fresh).
Proof.
  exact (proj1 (proj2 (proj2
           (text_is_printed (calm 100) (calm 101) (bytes_of_string "hello")
              peer_a fresh fresh
              (logging_create_log all_saints true (LoggingClass_new ∅))
              (logging_create_log all_saints true (LoggingClass_new ∅))
              ltac:(discriminate) hello_takes hello_fits
              ltac:(discriminate) ltac:(discriminate) (fresh_idle peer_a))))).
Defined.

(** ** A request for a file *)

(** The one frame [get_file] sends. *)
Lemma get_file_frame e typed w :
  send_socket w <> HANDLE_NOT_VALID ->
  sendto_takes sizeof_file_header e ->
  let frame :=
    bytes_of_header
      {| header_command := xfer_tag;
         file_name := memcpy (XFER_HDR_NAME_SZIE - 1) (requested_path typed);
         file_size := 0;
         trans_type := trans_type_get_request |} in
  get_file e typed w =
    print (msg_file_requested (cstr (requested_path typed)))
      (set_wire (fun l => l ++ [frame]) (set_sendto_calls S w)).
Proof.
  intros Hsock Htakes frame. unfold get_file. fold frame.
  assert (Hlen : length frame = sizeof_file_header)
    by apply length_bytes_of_header.
  rewrite (send_data_whole _ e frame w Htakes Hsock); [reflexivity| |lia].
  intros H0. rewrite H0 in Hlen. discriminate.
Qed.

(** What a peer does with it. *)
Lemma read_data_get_request e ip name w :
  receive_socket w <> HANDLE_NOT_VALID ->
  let frame :=
    bytes_of_header
      {| header_command := xfer_tag; file_name := name;
         file_size := 0; trans_type := trans_type_get_request |} in
  snd (read_data e (Some (frame, ip)) w) =
    send_file e (name_field_onwards frame) true (snd (recvfrom frame w)).
Proof.
  intros Hsock frame.
  set (header := {| header_command := xfer_tag; file_name := name;
                    file_size := 0; trans_type := trans_type_get_request |}) in *.
  assert (Hlen : length frame = sizeof_file_header)
    by apply length_bytes_of_header.
  assert (Hne : frame <> []).
  { intros H0. rewrite H0 in Hlen. discriminate. }
  rewrite (read_data_frame e frame ip w Hsock Hne).
  pose proof (recvfrom_header_lead header [] w eq_refl) as Hlead.
  pose proof (recvfrom_header header [] w) as Hhdr.
  pose proof (recvfrom_name_field header [] w) as Hname.
  rewrite app_nil_r in Hlead, Hhdr, Hname. fold frame in Hlead, Hhdr, Hname.
  rewrite decide_True by exact Hlead. cbn [snd].
  assert (Hgot : take UDP_IN_BUFFER_SIZE frame = frame)
    by (apply take_ge; rewrite Hlen, sizeof_file_header_eq; cbn; lia).
  rewrite Hgot. unfold file_transfer, get_file_request.
  pose proof (header_of_bytes_alone header) as Hown. fold frame in Hown.
  rewrite Hhdr, Hname, Hown. cbn [trans_type file_name header].
  rewrite decide_False by discriminate.
  rewrite decide_True by reflexivity. reflexivity.
Qed.

(** The header frame [send_file] sends, read the way a receiver reads
    it: the tag, the name cut to 100 characters, the size. *)
Lemma send_file_header_read (p : list byte) (size : Z) :
  0 <= size <= INT_MAX ->
  let answer :=
    bytes_of_header
      {| header_command := xfer_tag;
         file_name := memcpy (XFER_HDR_NAME_SZIE - 1) p;
         file_size := size; trans_type := trans_type_send |} in
  length answer = sizeof_file_header /\
  strncmp answer xfer_tag 6 = 0 /\
  cstr (file_name (header_of_bytes answer))
  = take (XFER_HDR_NAME_SZIE - 1) (cstr p) /\
  file_size (header_of_bytes answer) = size /\
  trans_type (header_of_bytes answer) = trans_type_send.
Proof.
  intros Hsize answer. subst answer.
  split; [apply length_bytes_of_header|].
  split; [apply strncmp_xfer_tag; reflexivity|].
  rewrite header_of_bytes_alone. cbn [file_name file_size trans_type].
  split; [now rewrite cstr_name_field, cstr_memcpy_take|].
  split; [now apply int_wrap_small|reflexivity].
Qed.

(** X9: a request for a file is served like a [:send] typed at the peer,
    but in silence when the file is not there.  [get_file] sends one
    frame.  [read_data] at a peer that meets it hands [send_file] the
    path that begins at the name field of the frame, a C string that is
    the requested path cut to 100 characters.  When the peer has no file
    of that path it sends nothing and prints nothing.  When it has one
    that fits an [int], and its network takes every datagram whole, it
    answers with a header frame that reads as the tag, the name behind
    the last slash of the path cut to 100 characters, the size of the file
    and the kind of a sent file, and then with the file in chunks of 1024
    bytes.  In either case its control blocks, files and handles stay as
    they are. *)
Theorem get_request_is_served
    (erq ep : env) (typed : list byte) (ip : string) (wq wp : world) :
  send_socket wq <> HANDLE_NOT_VALID ->
  sendto_takes sizeof_file_header erq ->
  receive_socket wp <> HANDLE_NOT_VALID ->
  let header :=
    {| header_command := xfer_tag;
       file_name := memcpy (XFER_HDR_NAME_SZIE - 1) (requested_path typed);
       file_size := 0;
       trans_type := trans_type_get_request |} in
  let request := drop (length (wire wq)) (wire (get_file erq typed wq)) in
  let asked := name_field_onwards (bytes_of_header header) in
  let wanted := string_of_bytes (cstr (requested_path asked)) in
  let wp' := feed ep ip request wp in
  request = [bytes_of_header header] /\
  cstr asked = take (XFER_HDR_NAME_SZIE - 1) (cstr (requested_path typed)) /\
  files_untouched wp wp' /\
  (disk wp !! wanted = None ->
   wire wp' = wire wp /\ console wp' = console wp) /\
  (forall contents,
     disk wp !! wanted = Some contents ->
     Z.of_nat (length contents) <= INT_MAX ->
     send_socket wp <> HANDLE_NOT_VALID ->
     sendto_takes (Z.to_nat MAX_OUT_DATA_SIZE) ep ->
     exists answer,
       drop (length (wire wp)) (wire wp')
       = answer :: chunks (length contents) (Z.to_nat MAX_OUT_DATA_SIZE) contents /\
       length answer = sizeof_file_header /\
       strncmp answer xfer_tag 6 = 0 /\
       cstr (file_name (header_of_bytes answer))
       = take (XFER_HDR_NAME_SZIE - 1) (cstr (file_name_of (requested_path asked))) /\
       file_size (header_of_bytes answer) = Z.of_nat (length contents) /\
       trans_type (header_of_bytes answer) = trans_type_send).
Proof.
  intros Hsock Htakes Hrsock header request asked wanted wp'.
  assert (Hreq : request = [bytes_of_header header]).
  { subst request. rewrite (get_file_frame erq typed wq Hsock Htakes).
    fields. apply drop_app_length. }
  assert (Hserved :
    wp' = send_file ep asked true (snd (recvfrom (bytes_of_header header) wp))).
  { subst wp'. rewrite Hreq. unfold feed. cbn [foldl].
    apply (read_data_get_request ep ip _ wp Hrsock). }
  split; [exact Hreq|]. split.
  { pose proof (cstr_name_field_onwards header []
                  (strlen_name_cut (requested_path typed))) as Hn.
    rewrite app_nil_r in Hn. subst asked. rewrite Hn. cbn [file_name header].
    apply cstr_memcpy_take. }
  rewrite Hserved. split; [|split].
  - eapply files_untouched_trans; [|apply send_file_untouched].
    split; [reflexivity|]. split; [reflexivity|]. split; reflexivity.
  - intros Hnone. unfold send_file, send_file_sized.
    change (disk (snd (recvfrom (bytes_of_header header) wp))) with (disk wp).
    fold wanted. rewrite Hnone. split; reflexivity.
  - intros contents Hthere Hmax Hpsock Hptakes.
    set (w1 := snd (recvfrom (bytes_of_header header) wp)).
    rewrite (send_file_frames ep asked true w1 contents Hpsock Hthere Hmax Hptakes).
    change (wire w1) with (wire wp). rewrite drop_app_length.
    eexists. split; [reflexivity|].
    apply send_file_header_read. lia.
Qed.

Lemma calm_takes_header t : sendto_takes sizeof_file_header (calm t).
Proof.
  intros k. exists 65507%positive. split; [reflexivity|].
  rewrite sizeof_file_header_eq. lia.
Qed.

Lemma get_request_is_served_witness :
  let typed := bytes_of_string " notes.txt" ++ [ASCII_LINE_FEED] in
  let request := drop (length (wire fresh)) (wire (get_file (calm 100) typed fresh)) in
  files_untouched with_notes (feed (calm 101) peer_a request with_notes).
Proof.
  exact (proj1 (proj2 (proj2
           (get_request_is_served (calm 100) (calm 101)
              (bytes_of_string " notes.txt" ++ [ASCII_LINE_FEED]) peer_a
              fresh with_notes
              ltac:(discriminate) (calm_takes_header 100) ltac:(discriminate))))).
Defined.

(** ** The handles the object holds *)

Lemma elem_of_delete_NoDup {A} (l : list A) i x y :
  NoDup l -> l !! i = Some x ->
  y ∈ delete i l <-> y ∈ l /\ y <> x.
Proof.
  intros Hnd Hi.
  rewrite delete_take_drop.
  pose proof (take_drop_middle l i x Hi) as Hl. revert Hl.
  generalize (take i l) (drop (S i) l). intros t d Hl.
  rewrite <- Hl in Hnd |- *. clear Hl Hi.
  apply NoDup_app in Hnd as (_ & Hsep & Hnd).
  apply NoDup_cons in Hnd as [Hx _].
  rewrite !elem_of_app, elem_of_cons. split.
  - intros [Hy|Hy]; (split; [tauto|]); intros ->.
    + apply (Hsep x Hy). apply elem_of_cons. now left.
    + contradiction.
  - intros [[Hy|[->|Hy]] Hne]; [now left|contradiction|now right].
Qed.

Lemma NoDup_fmap_same {A B} (f : A -> B) (l : list A) x y :
  NoDup (f <$> l) -> x ∈ l -> y ∈ l -> f x = f y -> x = y.
Proof.
  induction l as [|a l IH]; intros Hnd Hx Hy Hf; [now apply elem_of_nil in Hx|].
  rewrite fmap_cons in Hnd. apply NoDup_cons in Hnd as [Ha Hnd].
  apply elem_of_cons in Hx as [->|Hx]; apply elem_of_cons in Hy as [->|Hy].
  - reflexivity.
  - exfalso. apply Ha. rewrite Hf. now apply list_elem_of_fmap_2.
  - exfalso. apply Ha. rewrite <- Hf. now apply list_elem_of_fmap_2.
  - now apply IH.
Qed.

(** An entry taken out and its file closed. *)
Lemma tidy_remove l ofs i c h :
  l !! i = Some c -> out_file_p c = Some h ->
  tidy l ofs -> tidy (delete i l) (delete h ofs).
Proof.
  intros Hi Hout (Hrecv & Hnd & Hopen). split; [|split].
  - intros c' Hc'. apply Hrecv. eapply list_elem_of_delete_inv, Hc'.
  - rewrite list_fmap_delete. eapply sublist_NoDup; [exact Hnd|apply sublist_delete].
  - intros h'. rewrite lookup_delete_is_Some, list_fmap_delete.
    rewrite (elem_of_delete_NoDup (out_file_p <$> l) i (Some h) (Some h') Hnd)
      by (now rewrite list_lookup_fmap, Hi; cbn; rewrite Hout).
    rewrite Hopen. split.
    + intros [Hne Hin]. split; [exact Hin|congruence].
    + intros [Hin Hne]. split; [congruence|exact Hin].
Qed.

(** An entry replaced by one with the same handle. *)
Lemma tidy_update l ofs i c c2 :
  l !! i = Some c -> out_file_p c2 = out_file_p c -> is_receiving c2 = true ->
  tidy l ofs -> tidy (<[i := c2]> l) ofs.
Proof.
  intros Hi Hout Hc2 (Hrecv & Hnd & Hopen).
  assert (Hsame : out_file_p <$> <[i := c2]> l = out_file_p <$> l).
  { rewrite list_fmap_insert, Hout. apply list_insert_id.
    now rewrite list_lookup_fmap, Hi. }
  split; [|split].
  - intros c' Hc'. apply list_elem_of_lookup in Hc' as (j & Hj).
    destruct (decide (i = j)) as [<-|Hne].
    + rewrite list_lookup_insert_eq in Hj by (eapply lookup_lt_Some, Hi).
      now injection Hj as <-.
    + rewrite list_lookup_insert_ne in Hj by exact Hne.
      apply Hrecv. eapply list_elem_of_lookup_2, Hj.
  - now rewrite Hsame.
  - intros h. now rewrite Hsame.
Qed.

(** An entry added for a file just opened with a handle no entry holds. *)
Lemma tidy_add l ofs c h name :
  out_file_p c = Some h -> in_file_transfer c = true ->
  Some h ∉ out_file_p <$> l ->
  tidy l ofs -> tidy (l ++ [c]) (<[h := name]> ofs).
Proof.
  intros Hout Hin Hfresh (Hrecv & Hnd & Hopen). split; [|split].
  - intros c' Hc'. apply elem_of_app in Hc' as [Hc'|Hc']; [now apply Hrecv|].
    apply list_elem_of_singleton in Hc' as ->.
    unfold is_receiving. now rewrite Hin, Hout.
  - rewrite fmap_app. apply NoDup_app. split; [exact Hnd|]. split.
    + intros x Hx Hx'. cbn in Hx'. apply list_elem_of_singleton in Hx' as ->.
      rewrite Hout in Hx. contradiction.
    + apply NoDup_singleton.
  - intros h'. rewrite lookup_insert_is_Some', fmap_app, elem_of_app, Hopen.
    cbn. rewrite list_elem_of_singleton, Hout. split.
    + intros [->|H']; [now right|now left].
    + intros [H'|[= ->]]; [now right|now left].
Qed.

(** The entries that pass a test closed and taken out. *)
Lemma tidy_sweep (P : file_sent_control -> bool) l ofs ofs' :
  (forall h, ofs' !! h =
     if decide (Some h ∈ out_file_p <$> filter (fun c => P c = true) l)
     then None else ofs !! h) ->
  tidy l ofs -> tidy (filter (fun c => P c = false) l) ofs'.
Proof.
  intros Hofs' (Hrecv & Hnd & Hopen). split; [|split].
  - intros c Hc. apply list_elem_of_filter in Hc as [_ Hc]. now apply Hrecv.
  - eapply sublist_NoDup; [exact Hnd|]. apply sublist_fmap, sublist_filter.
  - intros h. rewrite Hofs'. split.
    + destruct (decide _) as [_|Hnot]; [now intros [? ?]|].
      intros Hsome. apply Hopen in Hsome.
      apply list_elem_of_fmap in Hsome as (c & Hc & Hin).
      apply list_elem_of_fmap. exists c. split; [exact Hc|].
      apply list_elem_of_filter. split; [|exact Hin].
      destruct (P c) eqn:HP; [|reflexivity]. exfalso. apply Hnot.
      apply list_elem_of_fmap. exists c. split; [exact Hc|].
      now apply list_elem_of_filter.
    + intros Hin. apply list_elem_of_fmap in Hin as (c & Hc & Hin).
      apply list_elem_of_filter in Hin as [HP Hin].
      destruct (decide _) as [Hclosed|_].
      * apply list_elem_of_fmap in Hclosed as (c2 & Hc2 & Hin2).
        apply list_elem_of_filter in Hin2 as [HP2 Hin2].
        assert (c = c2)
          by (apply (NoDup_fmap_same out_file_p l); congruence).
        congruence.
      * apply Hopen. apply list_elem_of_fmap. eauto.
Qed.

Lemma handles_tidy_receive_file_block e data ip w :
  handles_tidy w -> handles_tidy (snd (receive_file_block e data ip w)).
Proof.
  intros Hw. unfold receive_file_block.
  destruct (find_send_control (send_control w) ip) as [i|]; [|exact Hw].
  destruct (send_control w !! i) as [c|] eqn:Hi; [|exact Hw].
  destruct (out_file_p c) as [h|] eqn:Hout; [|exact Hw].
  destruct (in_file_transfer c) eqn:Hin; [|exact Hw].
  destruct (write_loop_frame (write_fuel data) e h data O w)
    as (Hsc & Hof & _).
  destruct (_ =? 0); cbn [snd]; unfold handles_tidy; fields; rewrite Hsc, Hof.
  - now apply (tidy_remove _ _ i c h).
  - apply (tidy_update _ _ i c); [exact Hi| |unfold is_receiving|exact Hw];
      destruct (_ <=? _); cbn; try reflexivity; now rewrite Hin, Hout.
Qed.

Lemma handles_tidy_drop_previous ip w :
  handles_tidy w -> handles_tidy (drop_previous ip w).
Proof.
  intros Hw. unfold drop_previous.
  destruct (find_send_control (send_control w) ip) as [i|] eqn:Hfind; [|exact Hw].
  destruct (find_send_control_Some _ _ _ Hfind) as (c & Hi & _).
  rewrite Hi.
  pose proof (proj1 Hw c (list_elem_of_lookup_2 _ _ _ Hi)) as Hrecv.
  apply is_receiving_inv in Hrecv as (Hin & h & Hout).
  rewrite Hout, Hin. unfold handles_tidy. fields.
  now apply (tidy_remove _ _ i c h).
Qed.

Lemma handles_tidy_receive_file_start e n ip w :
  registry_ok w -> handles_tidy w ->
  handles_tidy (receive_file_start e n ip w).
Proof.
  intros Hok Hw. unfold receive_file_start.
  pose proof (handles_tidy_drop_previous ip w Hw) as Hw1.
  pose proof (registry_ok_drop_previous ip w Hok) as [_ Hknown1].
  set (w1 := drop_previous ip w) in *.
  destruct (_ =? 0); [exact Hw1|].
  destruct (choose_file_name _ _ _ w1) as [name|]; [|exact Hw1].
  unfold fopen_wb. destruct (fopen_wb_ok e name); [|exact Hw1].
  match goal with
  | |- handles_tidy (if _ then snd (receive_file_block _ _ _ ?w4) else _) =>
      assert (Hw4 : handles_tidy w4)
  end.
  { unfold handles_tidy. fields.
    apply tidy_add; [reflexivity|reflexivity| |exact Hw1].
    intros Hin. apply list_elem_of_fmap in Hin as (c & Hc & Hin).
    specialize (Hknown1 c (next_file w1) Hin (eq_sym Hc)). lia. }
  destruct (_ <? _)%nat; [|exact Hw4].
  now apply handles_tidy_receive_file_block.
Qed.

Lemma handles_tidy_read_data e inbound w :
  registry_ok w -> handles_tidy w ->
  handles_tidy (snd (read_data e inbound w)).
Proof.
  intros Hok Hw. unfold read_data.
  destruct inbound as [[frame ip]|]; [|now destruct (decide _)].
  destruct (decide _); [|exact Hw].
  unfold recvfrom. destruct (0 <? _); [|exact Hw].
  destruct (decide _); cbn [snd].
  - unfold file_transfer.
    destruct (decide _); [now apply handles_tidy_receive_file_start|].
    destruct (decide _); [|exact Hw].
    unfold get_file_request, send_file.
    match goal with
    | |- handles_tidy (send_file_sized ?s e ?p true ?w1) =>
        destruct (send_file_untouched s e p true w1) as (Hsc & _ & Hof & _)
    end.
    unfold handles_tidy. rewrite Hsc, Hof. exact Hw.
  - match goal with
    | |- context [receive_file_block e ?d ip ?w1] =>
        pose proof (handles_tidy_receive_file_block e d ip w1 Hw) as Hw2;
        destruct (receive_file_block e d ip w1) as [[|] w2]
    end; exact Hw2.
Qed.

Lemma handles_tidy_main_poll e inbound w :
  registry_ok w -> handles_tidy w -> handles_tidy (main_poll e inbound w).
Proof.
  intros Hok Hw. unfold main_poll.
  pose proof (handles_tidy_read_data e inbound w Hok Hw) as Hw1.
  destruct (read_data e inbound w) as [n w1]. cbn [snd] in Hw1.
  destruct (0 <? n); exact Hw1.
Qed.

Lemma handles_tidy_transfer_timed_out e w :
  handles_tidy w -> handles_tidy (snd (transfer_timed_out e w)).
Proof.
  intros Hw. unfold transfer_timed_out. rewrite sweep_loop_once by lia.
  cbn [snd]. unfold sweep_once, handles_tidy. fields.
  rewrite foldl_close_send_control.
  apply (tidy_sweep (timer_expired (time_now e)) _ (open_files w)); [|exact Hw].
  intros h. apply foldl_close_open_files.
Qed.

(** The loop of main never leaves the states in which the control blocks
    and the open handles agree. *)
Lemma reachable_handles_tidy (w : world) : reachable w -> handles_tidy w.
Proof.
  induction 1 as [m port w Hnew|e inbound w Hr IH|e c w Hr IH|e w Hr IH
                  |c l w Hr IH].
  - unfold ChatClass_new in Hnew. destruct (choose_ports _ _) as [tx rx].
    destruct (_ <? 0); [discriminate|]. destruct (_ <? 0); [discriminate|].
    destruct (bind_ok m); [|discriminate]. injection Hnew as <-.
    split; [|split].
    + intros c Hc. now apply elem_of_nil in Hc.
    + apply NoDup_nil_2.
    + intros h. cbn. rewrite lookup_empty. split; [now intros [? ?]|].
      intros Hc. now apply elem_of_nil in Hc.
  - apply handles_tidy_main_poll; [now apply reachable_registry_ok|exact IH].
  - destruct (main_command_untouched e c w) as (Hsc & _ & Hof & _).
    unfold handles_tidy. rewrite Hsc, Hof. exact IH.
  - now apply handles_tidy_transfer_timed_out.
  - exact IH.
Qed.

(** ** The files of the transfers under way *)

Lemma paths_apart_same w w' :
  open_files w' = open_files w -> disk w' = disk w ->
  paths_apart w -> paths_apart w'.
Proof. unfold paths_apart. intros -> ->. auto. Qed.

Lemma paths_apart_fwrite e h data w :
  paths_apart w -> paths_apart (snd (fwrite e h data w)).
Proof.
  intros [Hinj Hdisk]. unfold fwrite.
  destruct (open_files w !! h) as [path|]; cbn [snd]; [|now split].
  split; fields; [exact Hinj|].
  intros h' p Hp. apply lookup_alter_is_Some. exact (Hdisk h' p Hp).
Qed.

Lemma paths_apart_write_loop fuel e h data k w :
  paths_apart w -> paths_apart (write_loop fuel e h data k w).
Proof.
  revert data k w. induction fuel as [|fuel IH]; intros data k w Hw; [exact Hw|].
  cbn [write_loop]. destruct data as [|b data]; [exact Hw|].
  destruct (k <? MAX_FILE_WRITE_RETRY_COUNT)%nat; [|exact Hw].
  pose proof (paths_apart_fwrite e h (b :: data) w Hw) as Hw1.
  destruct (fwrite e h (b :: data) w) as [[|n] w1]; cbn [snd] in Hw1;
    now apply IH.
Qed.

Lemma paths_apart_fclose h w : paths_apart w -> paths_apart (fclose h w).
Proof.
  intros [Hinj Hdisk]. unfold fclose. split; fields.
  - intros h1 h2 p H1 H2.
    apply lookup_delete_Some in H1 as [_ H1].
    apply lookup_delete_Some in H2 as [_ H2]. exact (Hinj h1 h2 p H1 H2).
  - intros h' p Hp. apply lookup_delete_Some in Hp as [_ Hp].
    exact (Hdisk h' p Hp).
Qed.

Lemma paths_apart_receive_file_block e data ip w :
  paths_apart w -> paths_apart (snd (receive_file_block e data ip w)).
Proof.
  intros Hw. unfold receive_file_block.
  destruct (find_send_control (send_control w) ip) as [i|]; [|exact Hw].
  destruct (send_control w !! i) as [b|]; [|exact Hw].
  destruct (out_file_p b) as [h|]; [|exact Hw].
  destruct (in_file_transfer b); [|exact Hw].
  pose proof (paths_apart_write_loop (write_fuel data) e h data O w Hw) as Hw1.
  destruct (_ =? 0); cbn [snd].
  - apply (paths_apart_fclose h) in Hw1. exact Hw1.
  - exact Hw1.
Qed.

Lemma paths_apart_drop_previous ip w :
  paths_apart w -> paths_apart (drop_previous ip w).
Proof.
  intros Hw. unfold drop_previous.
  destruct (find_send_control (send_control w) ip) as [i|]; [|exact Hw].
  destruct (send_control w !! i) as [b|]; [|exact Hw].
  destruct (out_file_p b) as [h|]; [|exact Hw].
  destruct (in_file_transfer b); [|exact Hw].
  apply (paths_apart_fclose h) in Hw. exact Hw.
Qed.

Lemma paths_apart_receive_file_start e n ip w :
  paths_apart w -> paths_apart (receive_file_start e n ip w).
Proof.
  intros Hw. unfold receive_file_start.
  pose proof (paths_apart_drop_previous ip w Hw) as Hw1.
  set (w1 := drop_previous ip w) in *.
  destruct (_ =? 0); [exact Hw1|].
  destruct (choose_file_name _ _ _ w1) as [name|] eqn:Hname; [|exact Hw1].
  apply choose_file_name_free in Hname.
  unfold fopen_wb. destruct (fopen_wb_ok e name); [|exact Hw1].
  match goal with
  | |- paths_apart (if _ then snd (receive_file_block _ _ _ ?x) else _) =>
      assert (Hw4 : paths_apart x)
  end.
  { destruct Hw1 as [Hinj Hdisk]. split; fields.
    - intros h1 h2 p H1 H2.
      apply lookup_insert_Some in H1 as [[<- <-]|[Hn1 H1]];
        apply lookup_insert_Some in H2 as [[<- Hp]|[Hn2 H2]].
      + reflexivity.
      + destruct (Hdisk h2 name H2) as [x Hx]. congruence.
      + subst p. destruct (Hdisk h1 name H1) as [x Hx]. congruence.
      + exact (Hinj h1 h2 p H1 H2).
    - intros h p Hp. apply lookup_insert_is_Some'.
      apply lookup_insert_Some in Hp as [[_ <-]|[_ Hp]]; [now left|right].
      exact (Hdisk h p Hp). }
  destruct (_ <? _)%nat; [|exact Hw4].
  now apply paths_apart_receive_file_block.
Qed.

Lemma paths_apart_read_data e inbound w :
  paths_apart w -> paths_apart (snd (read_data e inbound w)).
Proof.
  intros Hw. unfold read_data.
  destruct inbound as [[frame ip]|]; [|now destruct (decide _)].
  destruct (decide _); [|exact Hw].
  unfold recvfrom. destruct (0 <? _); [|exact Hw].
  destruct (decide _); cbn [snd].
  - unfold file_transfer.
    destruct (decide _); [apply paths_apart_receive_file_start; exact Hw|].
    destruct (decide _); [|exact Hw].
    unfold get_file_request, send_file.
    match goal with
    | |- paths_apart (send_file_sized ?s e ?p true ?w1) =>
        destruct (send_file_untouched s e p true w1) as (_ & _ & Hof & Hd)
    end.
    eapply paths_apart_same; [exact Hof|exact Hd|exact Hw].
  - match goal with
    | |- context [receive_file_block e ?d ip ?w1] =>
        pose proof (paths_apart_receive_file_block e d ip w1 Hw) as Hw2;
        destruct (receive_file_block e d ip w1) as [[|] w2]
    end; exact Hw2.
Qed.

Lemma paths_apart_transfer_timed_out e w :
  paths_apart w -> paths_apart (snd (transfer_timed_out e w)).
Proof.
  intros [Hinj Hdisk]. unfold transfer_timed_out. rewrite sweep_loop_once by lia.
  cbn [snd]. unfold sweep_once.
  assert (Hsub : forall h p,
            open_files (foldl close_timed_out w
              (filter (fun c => timer_expired (time_now e) c = true)
                 (send_control w))) !! h = Some p ->
            open_files w !! h = Some p).
  { intros h p. rewrite foldl_close_open_files.
    destruct (decide _); [discriminate|auto]. }
  split; fields.
  - intros h1 h2 p H1 H2. exact (Hinj h1 h2 p (Hsub _ _ H1) (Hsub _ _ H2)).
  - intros h p Hp. rewrite foldl_close_disk. exact (Hdisk h p (Hsub _ _ Hp)).
Qed.

(** A call on the logger removes no file. *)
Lemma logging_step_keeps_files (l : LoggingClass) (c : logging_call) (p : string) :
  is_Some (log_disk l !! p) -> is_Some (log_disk (logging_step l c) !! p).
Proof.
  intros Hp. destruct c as [our_time fopen_ok|this_text_p|logging_on_off];
    cbn [logging_step].
  - unfold logging_create_log. destruct (write_log_p l); [exact Hp|].
    destruct fopen_ok; cbn [log_disk]; [|exact Hp].
    apply lookup_insert_is_Some'. now right.
  - unfold logging_write_log. destruct (write_log_p l); [|exact Hp].
    destruct (logging_enabled l); [|exact Hp].
    cbn [log_disk]. now apply lookup_alter_is_Some.
  - exact Hp.
Qed.

Lemma reachable_paths_apart w : reachable w -> paths_apart w.
Proof.
  induction 1 as [m port w Hnew|e inbound w _ IH|e c w _ IH|e w _ IH|c l w _ IH].
  - unfold ChatClass_new in Hnew. destruct (choose_ports _ _) as [tx rx].
    destruct (_ <? 0); [discriminate|]. destruct (_ <? 0); [discriminate|].
    destruct (bind_ok m); [|discriminate]. injection Hnew as <-.
    split; cbn; intros *; rewrite lookup_empty; discriminate.
  - unfold main_poll.
    pose proof (paths_apart_read_data e inbound w IH) as Hw1.
    destruct (read_data e inbound w) as [n w1]. cbn [snd] in Hw1.
    destruct (0 <? n); exact Hw1.
  - destruct (main_command_untouched e c w) as (_ & _ & Hof & Hd).
    eapply paths_apart_same; [exact Hof|exact Hd|exact IH].
  - now apply paths_apart_transfer_timed_out.
  - destruct IH as [Hinj Hdisk]. split; [exact Hinj|].
    intros h p Hp. unfold logging_in. fields.
    apply logging_step_keeps_files. exact (Hdisk h p Hp).
Qed.

Section HoldsOpen.
Variable h : nat.
Variable path : string.
Variable content : list byte.

Lemma holds_open_same w w' :
  open_files w' = open_files w -> disk w' = disk w ->
  holds_open h path content w -> holds_open h path content w'.
Proof. unfold holds_open. intros -> ->. auto. Qed.

Lemma holds_open_fclose h' w :
  h' <> h -> holds_open h path content w -> holds_open h path content (fclose h' w).
Proof.
  intros Hne [Ho Hd]. split; [|exact Hd].
  unfold fclose. fields. now rewrite lookup_delete_ne.
Qed.

Lemma holds_open_fwrite e h' data w :
  open_files w !! h' <> Some path ->
  holds_open h path content w ->
  holds_open h path content (snd (fwrite e h' data w)).
Proof.
  intros Hother [Ho Hd]. unfold fwrite.
  destruct (open_files w !! h') as [p|]; cbn [snd]; (split; [exact Ho|]);
    fields; [|exact Hd].
  rewrite lookup_alter_ne; [exact Hd|]. congruence.
Qed.

Lemma holds_open_write_loop fuel e h' data k w :
  open_files w !! h' <> Some path ->
  holds_open h path content w ->
  holds_open h path content (write_loop fuel e h' data k w).
Proof.
  revert data k w. induction fuel as [|fuel IH]; intros data k w Hother Hw;
    [exact Hw|].
  cbn [write_loop]. destruct data as [|b data]; [exact Hw|].
  destruct (k <? MAX_FILE_WRITE_RETRY_COUNT)%nat; [|exact Hw].
  pose proof (holds_open_fwrite e h' (b :: data) w Hother Hw) as Hw1.
  pose proof (fwrite_frame e h' (b :: data) w) as Hf. cbn zeta in Hf.
  destruct (fwrite e h' (b :: data) w) as [[|n] w1]; cbn [snd] in Hw1, Hf;
    destruct Hf as (_ & Hof & _); apply IH; rewrite ?Hof; assumption.
Qed.

Lemma holds_open_receive_file_block e data ip w :
  foreign ip h path w ->
  holds_open h path content w ->
  holds_open h path content (snd (receive_file_block e data ip w)).
Proof.
  intros Hforeign Hw. unfold receive_file_block.
  destruct (find_send_control (send_control w) ip) as [i|] eqn:Hfind; [|exact Hw].
  destruct (find_send_control_Some _ _ _ Hfind) as (b & Hi & Hip).
  rewrite Hi.
  destruct (out_file_p b) as [h'|] eqn:Hout; [|exact Hw].
  destruct (in_file_transfer b); [|exact Hw].
  destruct (Hforeign b h' (list_elem_of_lookup_2 _ _ _ Hi) Hip Hout)
    as [Hne Hother].
  pose proof (holds_open_write_loop (write_fuel data) e h' data O w Hother Hw)
    as Hw1.
  destruct (_ =? 0); cbn [snd].
  - apply (holds_open_fclose h' _ Hne) in Hw1. exact Hw1.
  - exact Hw1.
Qed.

Lemma holds_open_drop_previous ip w :
  foreign ip h path w ->
  holds_open h path content w ->
  holds_open h path content (drop_previous ip w).
Proof.
  intros Hforeign Hw. unfold drop_previous.
  destruct (find_send_control (send_control w) ip) as [i|] eqn:Hfind; [|exact Hw].
  destruct (find_send_control_Some _ _ _ Hfind) as (b & Hi & Hip).
  rewrite Hi.
  destruct (out_file_p b) as [h'|] eqn:Hout; [|exact Hw].
  destruct (in_file_transfer b); [|exact Hw].
  destruct (Hforeign b h' (list_elem_of_lookup_2 _ _ _ Hi) Hip Hout) as [Hne _].
  apply (holds_open_fclose h' _ Hne) in Hw. exact Hw.
Qed.

Lemma drop_previous_still_open ip w h' p :
  open_files (drop_previous ip w) !! h' = Some p -> open_files w !! h' = Some p.
Proof.
  rewrite drop_previous_open_files. unfold open_after_drop.
  destruct (find_send_control (send_control w) ip) as [i|]; [|auto].
  destruct (send_control w !! i) as [b|]; [|auto].
  destruct (out_file_p b) as [h''|]; [|auto].
  destruct (in_file_transfer b); [|auto].
  intros Hp. now apply lookup_delete_Some in Hp as [_ Hp].
Qed.

Lemma foreign_drop_previous ip w :
  foreign ip h path w -> foreign ip h path (drop_previous ip w).
Proof.
  intros Hforeign c' h' Hc' Hip Hout.
  assert (Hin : c' ∈ send_control w).
  { destruct (drop_previous_continues ip w) as [_ Hfrom].
    rewrite drop_previous_send_control in Hc'.
    destruct (find_send_control (send_control w) ip);
      [eapply list_elem_of_delete_inv, Hc'|exact Hc']. }
  destruct (Hforeign c' h' Hin Hip Hout) as [Hne Hother].
  split; [exact Hne|]. intros Hp. apply Hother.
  now apply (drop_previous_still_open ip).
Qed.

Lemma holds_open_receive_file_start e n ip w :
  foreign ip h path w ->
  (h < next_file w)%nat ->
  holds_open h path content w ->
  holds_open h path content (receive_file_start e n ip w).
Proof.
  intros Hforeign Hknown Hw. unfold receive_file_start.
  pose proof (holds_open_drop_previous ip w Hforeign Hw) as Hw1.
  pose proof (foreign_drop_previous ip w Hforeign) as Hf1.
  rewrite <- (drop_previous_next_file ip w) in Hknown.
  set (w1 := drop_previous ip w) in *.
  destruct (_ =? 0); [exact Hw1|].
  destruct (choose_file_name _ _ _ w1) as [name|] eqn:Hname; [|exact Hw1].
  apply choose_file_name_free in Hname.
  assert (Hnp : name <> path).
  { intros ->. destruct Hw1 as [_ Hd]. congruence. }
  unfold fopen_wb. destruct (fopen_wb_ok e name); [|exact Hw1].
  match goal with
  | |- holds_open _ _ _ (if _ then snd (receive_file_block _ _ _ ?x) else _) =>
      set (w4 := x)
  end.
  assert (Hw4 : holds_open h path content w4).
  { destruct Hw1 as [Ho Hd]. split; subst w4; fields.
    - rewrite lookup_insert_ne by lia. exact Ho.
    - rewrite lookup_insert_ne by exact Hnp. exact Hd. }
  destruct (_ <? _)%nat; [|exact Hw4].
  assert (Hopen4 : forall k,
            open_files w4 !! k = Some path ->
            k <> next_file w1 /\ open_files w1 !! k = Some path).
  { intros k. unfold w4. fields. intros Hk.
    apply lookup_insert_Some in Hk as [[_ Hk]|[Hk1 Hk2]]; [congruence|].
    split; [congruence|exact Hk2]. }
  assert (Hmem4 : forall c',
            c' ∈ send_control w4 ->
            c' ∈ send_control w1 \/ out_file_p c' = Some (next_file w1)).
  { intros c'. unfold w4. fields. intros Hc'.
    apply elem_of_app in Hc' as [Hc'|Hc']; [now left|right].
    apply list_elem_of_singleton in Hc' as ->. reflexivity. }
  apply holds_open_receive_file_block; [|exact Hw4].
  intros c' h' Hc' Hip Hout.
  destruct (Hmem4 c' Hc') as [Hin|Hnew].
  - destruct (Hf1 c' h' Hin Hip Hout) as [Hne Hother].
    split; [exact Hne|]. intros Hp. apply Hother. now apply Hopen4.
  - rewrite Hnew in Hout. injection Hout as <-. split; [lia|].
    intros Hp. apply Hopen4 in Hp as [Hp _]. congruence.
Qed.

Lemma holds_open_read_data e frame ip w :
  foreign ip h path w ->
  (h < next_file w)%nat ->
  holds_open h path content w ->
  holds_open h path content (snd (read_data e (Some (frame, ip)) w)).
Proof.
  intros Hforeign Hknown Hw. unfold read_data.
  destruct (decide _); [|exact Hw].
  unfold recvfrom. destruct (0 <? _); [|exact Hw].
  destruct (decide _); cbn [snd].
  - unfold file_transfer.
    destruct (decide _);
      [apply holds_open_receive_file_start; assumption|].
    destruct (decide _); [|exact Hw].
    unfold get_file_request, send_file.
    match goal with
    | |- holds_open _ _ _ (send_file_sized ?s e ?p true ?w1) =>
        destruct (send_file_untouched s e p true w1) as (_ & _ & Hof & Hd)
    end.
    eapply holds_open_same; [exact Hof|exact Hd|exact Hw].
  - match goal with
    | |- context [receive_file_block e ?d ip ?w1] =>
        pose proof (holds_open_receive_file_block e d ip w1 Hforeign Hw) as Hw2;
        destruct (receive_file_block e d ip w1) as [[|] w2]
    end; exact Hw2.
Qed.

End HoldsOpen.

(** X10: the object neither leaks a file handle nor keeps one it has
    closed.  In every state the loop of main can reach, every control
    block is receiving, no two control blocks hold the same handle, the
    handles that are open are exactly the handles the control blocks
    hold, and they are open on different files, each of which is on the
    disk. *)
Theorem open_handles_are_the_blocks (w : world) :
  reachable w ->
  (forall c, c ∈ send_control w -> is_receiving c = true) /\
  NoDup (out_file_p <$> send_control w) /\
  (forall h, is_Some (open_files w !! h)
             <-> Some h ∈ out_file_p <$> send_control w) /\
  (forall h1 h2 p,
     open_files w !! h1 = Some p -> open_files w !! h2 = Some p -> h1 = h2) /\
  (forall h p, open_files w !! h = Some p -> is_Some (disk w !! p)).
Proof.
  intros Hr.
  destruct (reachable_handles_tidy w Hr) as (Hrecv & Hnd & Hopen).
  destruct (reachable_paths_apart w Hr) as [Hinj Hdisk].
  split; [exact Hrecv|]. split; [exact Hnd|]. split; [exact Hopen|].
  split; [exact Hinj|exact Hdisk].
Qed.

Lemma open_handles_are_the_blocks_witness :
  NoDup (out_file_p <$> send_control (receiving "report.txt" 5 peer_a 100)).
Proof.
  exact (proj1 (proj2 (open_handles_are_the_blocks _ receiving_reachable))).
Defined.

(** X20: transfers do not get into each other's files.  In every state
    the loop of main can reach, a frame of one peer, whatever it is,
    leaves the file that is being received from another peer with the
    contents it has, and the handle of that transfer open on it. *)
Theorem other_peers_file_is_safe
    (e : env) (frame : list byte) (ip : string) (w : world)
    (c : file_sent_control) (h : nat) (path : string) :
  reachable w ->
  c ∈ send_control w ->
  ip_address c <> ip ->
  out_file_p c = Some h ->
  open_files w !! h = Some path ->
  let w' := snd (read_data e (Some (frame, ip)) w) in
  disk w' !! path = disk w !! path /\ open_files w' !! h = Some path.
Proof.
  intros Hr Hc Hip Hout Hopen. cbn zeta.
  destruct (reachable_registry_ok w Hr) as [_ Hknown].
  destruct (reachable_handles_tidy w Hr) as (_ & Hnd & _).
  destruct (reachable_paths_apart w Hr) as [Hinj Hdisk].
  destruct (Hdisk h path Hopen) as [content Hcontent].
  assert (Hforeign : foreign ip h path w).
  { intros c' h' Hc' Hip' Hout'.
    assert (Hne : h' <> h).
    { intros ->. apply Hip. rewrite <- Hip'. f_equal.
      apply (NoDup_fmap_same out_file_p (send_control w)); congruence. }
    split; [exact Hne|]. intros Hp. apply Hne. exact (Hinj h' h path Hp Hopen). }
  destruct (holds_open_read_data h path content e frame ip w Hforeign
              (Hknown c h Hc Hout) (conj Hopen Hcontent)) as [Ho Hd].
  split; [congruence|exact Ho].
Qed.

Lemma receiving_entry :
  receiving_block peer_a 0 5 100 ∈ send_control (receiving "report.txt" 5 peer_a 100).
Proof. apply list_elem_of_singleton. reflexivity. Qed.

Lemma other_peers_file_is_safe_witness :
  let w := receiving "report.txt" 5 peer_a 100 in
  let w' := snd (read_data (calm 101) (Some (send_frame "b.txt" 7, peer_b)) w) in
  disk w' !! "report.txt1"%string = disk w !! "report.txt1"%string /\
  open_files w' !! O = Some "report.txt1"%string.
Proof.
  exact (other_peers_file_is_safe (calm 101) (send_frame "b.txt" 7) peer_b
           (receiving "report.txt" 5 peer_a 100)
           (receiving_block peer_a 0 5 100) O "report.txt1"
           receiving_reachable receiving_entry ltac:(discriminate)
           eq_refl eq_refl).
Defined.

(** ** The destructor *)

Lemma find_open_file_none l :
  find_open_file l = None -> Forall (fun c => out_file_p c = None) l.
Proof.
  induction l as [|c l IH]; cbn; [constructor|].
  destruct (out_file_p c) eqn:Hc; [discriminate|].
  destruct (find_open_file l); [discriminate|].
  intros _. constructor; auto.
Qed.

Lemma find_open_file_some l i :
  find_open_file l = Some i ->
  exists l1 c l2 h,
    l = l1 ++ c :: l2 /\ length l1 = i /\
    Forall (fun c => out_file_p c = None) l1 /\
    out_file_p c = Some h.
Proof.
  revert i. induction l as [|c l IH]; intros i; cbn; [discriminate|].
  destruct (out_file_p c) as [h|] eqn:Hc.
  - intros [= <-]. exists [], c, l, h. repeat split; [constructor|exact Hc].
  - destruct (find_open_file l) as [j|]; [|discriminate].
    cbn. intros [= <-].
    destruct (IH j eq_refl) as (l1 & c' & l2 & h & -> & <- & Hl1 & Hc').
    exists (c :: l1), c', l2, h. repeat split; [constructor; assumption|exact Hc'].
Qed.

(** The loop with its restarts comes to an end within the rounds it is
    given: what is left are the entries without a file, in their order,
    and the handles that are open no longer are those no entry held. *)
Lemma close_files_loop_done fuel w :
  (length (send_control w) < fuel)%nat ->
  let w' := close_files_loop fuel w in
  send_control w' = filter (fun c => out_file_p c = None) (send_control w) /\
  (forall h, open_files w' !! h =
     if decide (Some h ∈ out_file_p <$> send_control w)
     then None else open_files w !! h) /\
  disk w' = disk w /\ console w' = console w /\ wire w' = wire w /\
  send_socket w' = send_socket w /\ receive_socket w' = receive_socket w.
Proof.
  revert w. induction fuel as [|fuel IH]; intros w Hlen; [lia|].
  cbn zeta. cbn [close_files_loop].
  destruct (find_open_file (send_control w)) as [i|] eqn:Hfind.
  - destruct (find_open_file_some _ _ Hfind)
      as (l1 & c & l2 & h & Hl & Hi & Hl1 & Hc).
    assert (Hlook : send_control w !! i = Some c).
    { rewrite Hl. now apply list_lookup_middle. }
    rewrite Hlook, Hc.
    set (w2 := set_send_control (delete i) (fclose h w)).
    assert (Hsc2 : send_control w2 = l1 ++ l2).
    { subst w2. fields. rewrite Hl, <- Hi. apply delete_middle. }
    specialize (IH w2). cbn zeta in IH.
    destruct IH as (Hsc & Hof & Hd & Hcon & Hwire & Hss & Hrs).
    { rewrite Hsc2. rewrite Hl in Hlen. rewrite length_app in Hlen |- *.
      cbn [length] in Hlen. lia. }
    split; [|split; [|repeat split; assumption]].
    + rewrite Hsc, Hsc2, Hl, !filter_app.
      rewrite (filter_cons_False (fun c => out_file_p c = None)); [reflexivity|].
      rewrite Hc. discriminate.
    + intros h'. rewrite Hof, Hsc2, Hl.
      change (open_files w2) with (delete h (open_files w)).
      rewrite !fmap_app, fmap_cons, Hc.
      destruct (decide (h' = h)) as [->|Hne].
      * rewrite lookup_delete_eq.
        rewrite (decide_True (P := Some h ∈ _ ++ Some h :: _)).
        -- now destruct (decide _).
        -- apply elem_of_app. right. apply elem_of_cons. now left.
      * rewrite lookup_delete_ne by congruence.
        destruct (decide (Some h' ∈ (out_file_p <$> l1) ++ (out_file_p <$> l2)))
          as [Hin|Hnin].
        -- rewrite decide_True; [reflexivity|].
           apply elem_of_app in Hin as [Hin|Hin]; apply elem_of_app;
             [now left|right; apply elem_of_cons; now right].
        -- rewrite decide_False; [reflexivity|]. intros Hin. apply Hnin.
           apply elem_of_app in Hin as [Hin|Hin]; apply elem_of_app; [now left|].
           apply elem_of_cons in Hin as [[= ->]|Hin]; [contradiction|now right].
  - pose proof (find_open_file_none _ Hfind) as Hall.
    split; [|split; [|repeat split]].
    + symmetry. now apply filter_all.
    + intros h. rewrite decide_False; [reflexivity|].
      intros Hin. apply list_elem_of_fmap in Hin as (c & Hc & Hin).
      rewrite Forall_forall in Hall. rewrite (Hall c Hin) in Hc. discriminate.
Qed.

(** X11: what the destructor leaves.  Both sockets are flagged as closed;
    the control blocks that held a file are erased and their files
    closed, the others and the other handles are left as they are, and
    no file is changed.  So for an object whose control blocks and open
    handles agree, as in every state the loop of main reaches, no control
    block and no open handle is left. *)
Theorem destructor_closes_what_is_open (w : world) :
  let w' := ChatClass_delete w in
  send_socket w' = HANDLE_NOT_VALID /\
  receive_socket w' = HANDLE_NOT_VALID /\
  send_control w' = filter (fun c => out_file_p c = None) (send_control w) /\
  (forall h, open_files w' !! h =
     if decide (Some h ∈ out_file_p <$> send_control w)
     then None else open_files w !! h) /\
  disk w' = disk w /\
  (handles_tidy w -> send_control w' = [] /\ open_files w' = ∅).
Proof.
  cbn zeta. unfold ChatClass_delete.
  destruct (close_files_loop_done (S (length (send_control w))) (close_sockets w))
    as (Hsc & Hof & Hd & _ & _ & Hss & Hrs).
  { cbn. lia. }
  change (send_control (close_sockets w)) with (send_control w) in Hsc, Hof.
  change (open_files (close_sockets w)) with (open_files w) in Hof.
  change (disk (close_sockets w)) with (disk w) in Hd.
  split; [|split; [|split; [|split; [|split]]]].
  - rewrite Hss. cbn. now destruct (decide (send_socket w ≠ HANDLE_NOT_VALID)) as [|?%dec_stable].
  - rewrite Hrs. cbn. now destruct (decide (receive_socket w ≠ HANDLE_NOT_VALID)) as [|?%dec_stable].
  - exact Hsc.
  - exact Hof.
  - exact Hd.
  - intros (Hrecv & _ & Hopen). split.
    + rewrite Hsc. apply filter_none. apply Forall_forall. intros c Hc Hnone.
      apply Hrecv, is_receiving_inv in Hc as (_ & h & Hh). congruence.
    + apply map_empty. intros h. rewrite Hof.
      destruct (decide _) as [_|Hnot]; [reflexivity|].
      apply eq_None_not_Some. intros Hsome. now apply Hnot, Hopen.
Qed.

(** ** The name typed behind a command *)

Lemma skipspace_blanks (blanks x : list byte) :
  Forall (fun c => c = ASCII_TAB \/ c = ASCII_SPACE) blanks ->
  skipspace (blanks ++ x) = skipspace x.
Proof.
  induction 1 as [|c blanks Hc _ IH]; [reflexivity|].
  cbn [app skipspace]. now rewrite decide_True.
Qed.

Section TypedName.
Variable name : list byte.
Variable last_char : byte.
Hypothesis name_last : last name = Some last_char.
Hypothesis last_no_end :
  last_char <> ASCII_CARRIAGE_RETURN /\ last_char <> ASCII_LINE_FEED.
Hypothesis name_no_nul : Forall (fun c => c <> ASCII_NULL_ZERO) name.

Lemma remove_endline_ends (ends : list byte) :
  Forall (fun c => c = ASCII_CARRIAGE_RETURN \/ c = ASCII_LINE_FEED) ends ->
  forall rest fuel,
    (length ends <= fuel)%nat ->
    cstr (remove_endline fuel (name ++ ends ++ ASCII_NULL_ZERO :: rest)) = name.
Proof.
  induction ends as [|e ends IH] using rev_ind; intros Hends rest fuel Hfuel.
  - cbn [app].
    assert (Hc : cstr (name ++ ASCII_NULL_ZERO :: rest) = name)
      by now apply cstr_app_nul.
    destruct fuel as [|fuel]; [exact Hc|].
    cbn [remove_endline]. rewrite Hc, name_last.
    rewrite decide_False by tauto. exact Hc.
  - apply Forall_app in Hends as [Hends He].
    apply Forall_inv in He.
    rewrite length_app in Hfuel. cbn [length] in Hfuel.
    destruct fuel as [|fuel]; [lia|].
    assert (Hnn : Forall (fun c => c <> ASCII_NULL_ZERO) (name ++ ends ++ [e])).
    { apply Forall_app. split; [exact name_no_nul|].
      apply Forall_app. split.
      - eapply Forall_impl; [exact Hends|]. intros c Hc Hz. subst c.
        destruct Hc as [Hc|Hc]; vm_compute in Hc; discriminate Hc.
      - apply Forall_singleton. intros Hz. subst e.
        destruct He as [He|He]; vm_compute in He; discriminate He. }
    assert (Hc : cstr (name ++ (ends ++ [e]) ++ ASCII_NULL_ZERO :: rest)
                 = name ++ ends ++ [e]).
    { rewrite <- (cstr_app_nul _ rest Hnn). now rewrite <- !app_assoc. }
    cbn [remove_endline]. rewrite Hc.
    rewrite !app_assoc, last_snoc. rewrite decide_True by exact He.
    assert (Hc' : cstr (name ++ ends ++ [e] ++ ASCII_NULL_ZERO :: rest)
                  = name ++ ends ++ [e])
      by (rewrite <- Hc; now rewrite <- !app_assoc).
    unfold strlen. rewrite <- !app_assoc, Hc'.
    replace (pred (length (name ++ ends ++ [e])))
      with (length (name ++ ends) + 0)%nat
      by (rewrite !length_app; cbn [length]; lia).
    rewrite (app_assoc name ends), insert_app_r.
    cbn [app insert list_insert]. rewrite <- app_assoc.
    apply IH; [exact Hends|lia].
Qed.

End TypedName.

(** X12: the name behind [:send] and [:get].  For a line that is the
    command word, blanks (spaces and tabs), a name and line ends (carriage
    returns and line feeds), main hands the part behind the command word
    to [send_file] or [get_file], which both take exactly the name out of
    it: the blanks in front and the line ends behind do not count.  The
    name holds no NUL, does not begin with a blank and does not end with a
    line end. *)
Theorem typed_name_is_cleaned
    (blanks name ends rest : list byte) (first last_char : byte) :
  Forall (fun c => c = ASCII_TAB \/ c = ASCII_SPACE) blanks ->
  Forall (fun c => c = ASCII_CARRIAGE_RETURN \/ c = ASCII_LINE_FEED) ends ->
  Forall (fun c => c <> ASCII_NULL_ZERO) name ->
  head name = Some first ->
  first <> ASCII_TAB /\ first <> ASCII_SPACE ->
  last name = Some last_char ->
  last_char <> ASCII_CARRIAGE_RETURN /\ last_char <> ASCII_LINE_FEED ->
  let typed := blanks ++ name ++ ends ++ ASCII_NULL_ZERO :: rest in
  console_dispatch (ChatDefines.command_send ++ typed)
  = line_command (command_send typed) /\
  console_dispatch (ChatDefines.command_get ++ typed)
  = line_command (command_get typed) /\
  cstr (requested_path typed) = name.
Proof.
  intros Hblanks Hends Hnul Hfirst Hnb Hlast Hne typed.
  split; [reflexivity|]. split; [reflexivity|].
  subst typed. unfold requested_path.
  rewrite skipspace_blanks by exact Hblanks.
  destruct name as [|c name']; [discriminate|].
  injection Hfirst as ->.
  assert (Hskip : skipspace ((first :: name') ++ ends ++ ASCII_NULL_ZERO :: rest)
                  = (first :: name') ++ ends ++ ASCII_NULL_ZERO :: rest).
  { cbn [app skipspace]. rewrite decide_False by tauto. reflexivity. }
  rewrite Hskip.
  apply (remove_endline_ends (first :: name') last_char Hlast Hne Hnul ends Hends).
  unfold strlen.
  assert (Hnn : Forall (fun c => c <> ASCII_NULL_ZERO) ((first :: name') ++ ends)).
  { apply Forall_app. split; [exact Hnul|].
    eapply Forall_impl; [exact Hends|]. intros c Hc Hz. subst c.
        destruct Hc as [Hc|Hc]; vm_compute in Hc; discriminate Hc. }
  rewrite app_assoc, (cstr_app_nul _ rest Hnn), length_app. lia.
Qed.

Lemma typed_name_is_cleaned_witness :
  cstr (requested_path (bytes_of_string " notes.txt" ++ [ASCII_LINE_FEED; ASCII_NULL_ZERO]))
  = bytes_of_string "notes.txt".
Proof.
  exact (proj2 (proj2
           (typed_name_is_cleaned [ASCII_SPACE] (bytes_of_string "notes.txt")
              [ASCII_LINE_FEED] [] "n"%char "t"%char
              ltac:(repeat constructor; now right)
              ltac:(repeat constructor; now right)
              ltac:(repeat constructor; discriminate)
              eq_refl ltac:(split; discriminate)
              eq_refl ltac:(split; discriminate)))).
Defined.

(** ** A line typed at the console *)

(** One call, when what is ready fits behind what is held already. *)
Lemma accumulate_console_input_fits (acc junk piece : list byte) :
  piece <> [] ->
  (length acc + length piece < ChatDefines.MAX_CONSOLE_IN_SIZE)%nat ->
  length (acc ++ junk) = ChatDefines.MAX_CONSOLE_IN_SIZE ->
  accumulate_console_input piece
    {| console_in_data := acc ++ junk;
       console_in_count := Z.of_nat (length acc) |}
  = let count := Z.of_nat (length (acc ++ piece)) in
    let junk' := drop (length piece) junk in
    match last piece with
    | Some c =>
        if decide (c = ASCII_CARRIAGE_RETURN \/ c = ASCII_LINE_FEED)
        then (count,
              {| console_in_data :=
                   (acc ++ piece) ++ <[O := ASCII_NULL_ZERO]> junk';
                 console_in_count := count |})
        else (0, {| console_in_data := (acc ++ piece) ++ junk';
                    console_in_count := count |})
    | None => (0, {| console_in_data := (acc ++ piece) ++ junk';
                     console_in_count := count |})
    end.
Proof.
  unfold ChatDefines.MAX_CONSOLE_IN_SIZE. intros Hne Hfit Hlen.
  unfold accumulate_console_input, ChatDefines.MAX_CONSOLE_IN_SIZE.
  cbn [console_in_data console_in_count].
  assert (Hpos : (0 < length piece)%nat) by (destruct piece; [congruence|cbn; lia]).
  rewrite (Z.mod_small (Z.of_nat 1024 - (Z.of_nat (length acc) + 1))) by lia.
  rewrite (take_ge piece) by lia.
  rewrite (int_wrap_small (Z.of_nat (length piece)))
    by (unfold INT_MAX; lia).
  destruct (Z.ltb_spec 0 (Z.of_nat (length piece))) as [_|]; [|lia].
  rewrite (int_wrap_small (Z.of_nat (length acc) + Z.of_nat (length piece)))
    by (unfold INT_MAX; lia).
  rewrite Nat2Z.id.
  assert (Hstore : store (acc ++ junk) (length acc) piece
                   = (acc ++ piece) ++ drop (length piece) junk).
  { unfold store. rewrite take_app_length, drop_app_add. now rewrite <- app_assoc. }
  rewrite Hstore. cbn zeta.
  rewrite length_app, Nat2Z.inj_add.
  assert (Hlook : ((acc ++ piece) ++ drop (length piece) junk)
                    !! Z.to_nat (Z.of_nat (length acc) + Z.of_nat (length piece) - 1)
                  = last piece).
  { replace (Z.to_nat (Z.of_nat (length acc) + Z.of_nat (length piece) - 1))
      with (length acc + pred (length piece))%nat by lia.
    rewrite <- app_assoc, lookup_app_r by lia.
    replace (length acc + pred (length piece) - length acc)%nat
      with (pred (length piece)) by lia.
    rewrite lookup_app_l by lia. symmetry. apply last_lookup. }
  rewrite Hlook.
  destruct (last piece) as [c|]; [|reflexivity].
  destruct (decide _); [|reflexivity].
  f_equal. f_equal.
  replace (Z.to_nat (Z.of_nat (length acc) + Z.of_nat (length piece)))
    with (length (acc ++ piece) + 0)%nat by (rewrite length_app; lia).
  apply insert_app_r.
Qed.

Lemma console_reads_app (a b : list (list byte)) (s : console_in) :
  console_reads (a ++ b) s =
    (fst (console_reads a s) ++ fst (console_reads b (snd (console_reads a s))),
     snd (console_reads b (snd (console_reads a s)))).
Proof.
  revert s. induction a as [|x a IH]; intros s; cbn [app console_reads fst snd].
  - now destruct (console_reads b s).
  - destruct (accumulate_console_input x s) as [r s1]. rewrite IH.
    destruct (console_reads a s1) as [rs s2]. cbn [fst snd].
    now destruct (console_reads b s2).
Qed.

(** Calls that do not end a line only pile up what they got. *)
Lemma console_reads_unfinished (pieces : list (list byte)) :
  Forall unfinished pieces ->
  forall acc junk,
    (length acc + length (concat pieces) < ChatDefines.MAX_CONSOLE_IN_SIZE)%nat ->
    length (acc ++ junk) = ChatDefines.MAX_CONSOLE_IN_SIZE ->
    console_reads pieces
      {| console_in_data := acc ++ junk;
         console_in_count := Z.of_nat (length acc) |}
    = (replicate (length pieces) 0,
       {| console_in_data :=
            (acc ++ concat pieces) ++ drop (length (concat pieces)) junk;
          console_in_count := Z.of_nat (length (acc ++ concat pieces)) |}).
Proof.
  induction 1 as [|piece pieces Hp _ IH]; intros acc junk Hfit Hlen.
  - cbn [concat console_reads length replicate drop]. now rewrite app_nil_r.
  - cbn [concat console_reads] in Hfit |- *. rewrite length_app in Hfit.
    unfold unfinished in Hp.
    assert (Hne : piece <> []) by (intros ->; exact Hp).
    rewrite (accumulate_console_input_fits acc junk piece Hne) by (lia || exact Hlen).
    cbn zeta. destruct (last piece) as [c|]; [|contradiction].
    rewrite decide_False by tauto.
    rewrite (IH (acc ++ piece) (drop (length piece) junk)).
    + cbn [length replicate].
      rewrite drop_drop, (length_app piece), <- (app_assoc acc piece).
      reflexivity.
    + rewrite length_app. lia.
    + rewrite !length_app, length_drop. rewrite length_app in Hlen. lia.
Qed.

(** X13: a line typed at the console is put together from what the
    calls of successive rounds get.  As long as what a call got does not
    end with a carriage return or a line feed the function returns 0 and
    keeps the bytes, line ends in the middle of them included; the call
    whose bytes end with one returns the number of bytes held, which are
    all the bytes in their order, with a NUL behind them.  The buffer is
    empty at the start and the line is shorter than the buffer. *)
Theorem typed_line_is_assembled
    (pieces : list (list byte)) (final : list byte) (c : byte)
    (data : list byte) :
  length data = ChatDefines.MAX_CONSOLE_IN_SIZE ->
  Forall unfinished pieces ->
  last final = Some c ->
  c = ASCII_CARRIAGE_RETURN \/ c = ASCII_LINE_FEED ->
  let line := concat pieces ++ final in
  (length line < ChatDefines.MAX_CONSOLE_IN_SIZE)%nat ->
  console_reads (pieces ++ [final])
    {| console_in_data := data; console_in_count := 0 |}
  = (replicate (length pieces) 0 ++ [Z.of_nat (length line)],
     {| console_in_data :=
          line ++ ASCII_NULL_ZERO :: drop (S (length line)) data;
        console_in_count := Z.of_nat (length line) |}).
Proof.
  intros Hlen Hpieces Hlast Hend line Hfit. subst line.
  rewrite length_app in Hfit.
  rewrite console_reads_app.
  pose proof (console_reads_unfinished pieces Hpieces [] data) as Hheld.
  cbn [app length] in Hheld. change (Z.of_nat 0) with 0 in Hheld.
  rewrite Hheld by (lia || exact Hlen). clear Hheld.
  cbn [fst snd app console_reads].
  assert (Hne : final <> []) by (intros ->; discriminate).
  rewrite (accumulate_console_input_fits (concat pieces)
             (drop (length (concat pieces)) data) final Hne).
  - cbn zeta. rewrite Hlast, decide_True by exact Hend.
    rewrite drop_drop, length_app.
    assert (Hsome : is_Some (data !! (length (concat pieces) + length final)%nat))
      by (apply lookup_lt_is_Some; lia).
    destruct Hsome as [x Hx]. rewrite (drop_S _ _ _ Hx).
    reflexivity.
  - lia.
  - rewrite length_app, length_drop. lia.
Qed.

Lemma typed_line_is_assembled_witness :
  fst (console_reads
         [bytes_of_string "hel"; bytes_of_string "lo" ++ [ASCII_LINE_FEED]]
         {| console_in_data := replicate ChatDefines.MAX_CONSOLE_IN_SIZE ASCII_NULL_ZERO;
            console_in_count := 0 |})
  = [0; 6].
Proof.
  exact (f_equal fst
           (typed_line_is_assembled [bytes_of_string "hel"]
              (bytes_of_string "lo" ++ [ASCII_LINE_FEED]) ASCII_LINE_FEED
              (replicate ChatDefines.MAX_CONSOLE_IN_SIZE ASCII_NULL_ZERO)
              (length_replicate _ _)
              ltac:(repeat constructor; discriminate)
              eq_refl ltac:(now right)
              ltac:(unfold ChatDefines.MAX_CONSOLE_IN_SIZE; cbn; lia))).
Defined.

(** X14: a full console buffer takes no more.  Once calls that did not
    end a line have left 1023 bytes in the buffer, every later call asks
    [read] for no bytes, returns 0 and leaves the buffer and the count as
    they are, whatever is typed: no line is ever returned again. *)
Theorem full_console_buffer_takes_no_more
    (pieces later : list (list byte)) (data : list byte) :
  length data = ChatDefines.MAX_CONSOLE_IN_SIZE ->
  Forall unfinished pieces ->
  length (concat pieces) = pred ChatDefines.MAX_CONSOLE_IN_SIZE ->
  console_reads (pieces ++ later)
    {| console_in_data := data; console_in_count := 0 |}
  = (replicate (length pieces + length later) 0,
     {| console_in_data :=
          concat pieces ++ drop (pred ChatDefines.MAX_CONSOLE_IN_SIZE) data;
        console_in_count := Z.of_nat (pred ChatDefines.MAX_CONSOLE_IN_SIZE) |}).
Proof.
  intros Hlen Hpieces Hfull.
  rewrite console_reads_app.
  pose proof (console_reads_unfinished pieces Hpieces [] data) as Hheld.
  cbn [app length] in Hheld. change (Z.of_nat 0) with 0 in Hheld.
  rewrite Hheld
    by (rewrite ?Hfull; unfold ChatDefines.MAX_CONSOLE_IN_SIZE; lia || exact Hlen).
  clear Hheld. cbn [fst snd app]. rewrite Hfull.
  set (s := {| console_in_data := _; console_in_count := _ |}).
  assert (Hstuck : forall arrivals,
            console_reads arrivals s = (replicate (length arrivals) 0, s)).
  { assert (Hnone : forall a, accumulate_console_input a s = (0, s)).
    { intros a. unfold accumulate_console_input. subst s.
      cbn [console_in_count].
      change ((Z.of_nat ChatDefines.MAX_CONSOLE_IN_SIZE
               - (Z.of_nat (pred ChatDefines.MAX_CONSOLE_IN_SIZE) + 1)) mod 2 ^ 64)
        with 0.
      reflexivity. }
    induction arrivals as [|a arrivals IH]; [reflexivity|].
    cbn [console_reads]. rewrite Hnone, IH. reflexivity. }
  rewrite Hstuck. cbn [fst snd]. now rewrite replicate_add.
Qed.

Lemma full_console_buffer_takes_no_more_witness :
  let data := replicate ChatDefines.MAX_CONSOLE_IN_SIZE ASCII_NULL_ZERO in
  let pieces := [replicate 1000 "a"%char; replicate 23 "b"%char] in
  fst (console_reads (pieces ++ [bytes_of_string "exit" ++ [ASCII_LINE_FEED]])
         {| console_in_data := data; console_in_count := 0 |})
  = [0; 0; 0].
Proof.
  exact (f_equal fst
           (full_console_buffer_takes_no_more
              [replicate 1000 "a"%char; replicate 23 "b"%char]
              [bytes_of_string "exit" ++ [ASCII_LINE_FEED]]
              (replicate ChatDefines.MAX_CONSOLE_IN_SIZE ASCII_NULL_ZERO)
              (length_replicate _ _)
              ltac:(repeat constructor; discriminate)
              eq_refl)).
Defined.

(** ** A header frame that carries data *)

(** X15: a header frame with file data behind the header.  The new file
    is named by the C string [strcpy] finds at the name field of the
    frame, with "1" behind it; that string is the sent name when the name
    leaves a byte of its field free, and goes on into the bytes of the
    size otherwise.  From a peer without an entry, when the file can be
    created under that name and [fwrite] takes what it is given, the data
    behind the header is written as the first chunk of the new file.  If
    it is all the header announced, the file is closed and no control
    block is left; if the header announced more, the control block
    stays, open for the rest. *)
Theorem header_frame_with_data
    (e : env) (name data : list byte) (size : Z) (ip : string) (w : world) :
  let frame :=
    bytes_of_header {| header_command := xfer_tag; file_name := name;
                       file_size := size; trans_type := trans_type_send |}
    ++ data in
  let path :=
    (string_of_bytes (cstr (name_field_onwards frame)) +:+ "1")%string in
  receive_socket w <> HANDLE_NOT_VALID ->
  find_send_control (send_control w) ip = None ->
  data <> [] ->
  (sizeof_file_header + length data <= UDP_IN_BUFFER_SIZE)%nat ->
  Z.of_nat (length data) <= size <= INT_MAX ->
  disk w !! path = None ->
  fopen_wb_ok e path = true ->
  (forall k, (UDP_IN_BUFFER_SIZE <= fwrite_limit e k)%nat) ->
  let w' := snd (read_data e (Some (frame, ip)) w) in
  ((strlen name < XFER_HDR_NAME_SZIE)%nat ->
   path = (string_of_bytes (cstr name) +:+ "1")%string) /\
  disk w' = <[path := data]> (disk w) /\
  (Z.of_nat (length data) = size ->
   send_control w' = send_control w /\
   open_files w' = delete (next_file w) (open_files w)) /\
  (Z.of_nat (length data) < size ->
   (exists t, send_control w' =
      send_control w
      ++ [receiving_block ip (next_file w) (size - Z.of_nat (length data)) t]) /\
   open_files w' = <[next_file w := path]> (open_files w)).
Proof.
  intros frame path Hsock Hnone Hdata Hfits Hsize Hfree Hopen Htakes w'.
  set (hdr := {| header_command := xfer_tag; file_name := name;
                 file_size := size; trans_type := trans_type_send |}) in *.
  split.
  { intros Hroom. subst path frame.
    now rewrite (cstr_name_field_onwards hdr data Hroom). }
  assert (Hpos : (0 < length data)%nat)
    by (destruct data; [congruence|cbn; lia]).
  assert (Hlen : length frame = (sizeof_file_header + length data)%nat).
  { subst frame. now rewrite length_app, length_bytes_of_header. }
  assert (Hne : frame <> []).
  { intros H0. rewrite H0 in Hlen. cbn in Hlen. lia. }
  assert (Hgot : take UDP_IN_BUFFER_SIZE frame = frame)
    by (apply take_ge; lia).
  subst w'. rewrite (read_data_frame e frame ip w Hsock Hne). rewrite Hgot.
  set (w1 := snd (recvfrom frame w)).
  assert (Hbuf : udp_inbound_buffer w1
                 = frame ++ drop (length frame) (udp_inbound_buffer w)).
  { subst w1. unfold recvfrom. fields. now rewrite Hgot. }
  assert (Hhdr : header_of_bytes (udp_inbound_buffer w1) =
            {| header_command := memcpy XFER_HDR_CMD_SIZE xfer_tag;
               file_name := memcpy XFER_HDR_NAME_SZIE name;
               file_size := int_wrap size;
               trans_type := int_wrap trans_type_send |}).
  { subst w1 frame. rewrite recvfrom_header. apply header_of_bytes_alone. }
  assert (Hname : name_field_onwards (udp_inbound_buffer w1)
                  = name_field_onwards frame).
  { subst w1 frame. apply recvfrom_name_field. }
  rewrite decide_True by (subst w1 frame; now apply recvfrom_header_lead).
  cbn [snd]. unfold file_transfer. rewrite Hhdr. cbn [trans_type].
  rewrite decide_True by reflexivity.
  unfold receive_file_start. rewrite (drop_previous_idle ip w1 Hnone).
  rewrite Hhdr, Hname. cbn [file_size file_name].
  rewrite (int_wrap_small size) by lia.
  destruct (Z.eqb_spec size 0) as [Hz|_]; [lia|].
  rewrite choose_file_name_first
    by (apply bool_decide_eq_false; change (disk w1) with (disk w);
        fold path; rewrite Hfree; now intros [? ?]).
  fold path. unfold fopen_wb. rewrite Hopen.
  destruct (Nat.ltb_spec sizeof_file_header (length frame)) as [_|Hle]; [|lia].
  assert (Htrail : take (length frame - sizeof_file_header)
                     (drop sizeof_file_header (udp_inbound_buffer w1)) = data).
  { rewrite Hbuf, Hlen. subst frame. rewrite <- app_assoc.
    rewrite drop_app_length' by now rewrite length_bytes_of_header.
    replace (sizeof_file_header + length data - sizeof_file_header)%nat
      with (length data) by lia.
    apply take_app_length. }
  rewrite Htrail.
  match goal with
  | |- context [receive_file_block e data ip ?x] => set (w4 := x)
  end.
  assert (Hopen4 : transfer_open ip (next_file w) path (send_control w)
                     (open_files w) (disk w)
                     (console w ++ [msg_inbound_file path size ip]) [] size w4).
  { unfold transfer_open. subst w4. fields.
    change (receive_socket w1) with (receive_socket w).
    split; [exact Hsock|]. split; [now exists (time_now e)|].
    split; [reflexivity|]. split; reflexivity. }
  assert (Htakes' : forall k, (length data <= fwrite_limit e k)%nat)
    by (intros k; specialize (Htakes k); lia).
  destruct (receive_file_block_chunk e ip (next_file w) path (send_control w)
              (open_files w) (disk w)
              (console w ++ [msg_inbound_file path size ip]) [] size data w4
              Hopen4 Hnone Hdata Htakes') as [Hmore Hlast].
  cbn [app] in Hmore, Hlast.
  destruct (Z.eq_dec (Z.of_nat (length data)) size) as [Heq|Hneq].
  - destruct (Hlast Heq) as (_ & Hsc & Hof & Hd & _).
    split; [exact Hd|]. split; [intros _; split; assumption|].
    intros Hlt. lia.
  - destruct (Hmore ltac:(lia)) as (_ & Hsc & Hof & Hd & _).
    split; [exact Hd|]. split; [intros Heq; lia|].
    intros _. split; assumption.
Qed.

Lemma header_frame_with_data_witness :
  let frame := send_frame "report.txt" 5 ++ bytes_of_string "hello" in
  disk (snd (read_data (calm 100) (Some (frame, peer_a)) fresh))
  = <["report.txt1"%string := bytes_of_string "hello"]> (disk fresh).
Proof.
  exact (proj1 (proj2
          (header_frame_with_data (calm 100) (bytes_of_string "report.txt")
                  (bytes_of_string "hello") 5 peer_a fresh
                  ltac:(discriminate) eq_refl ltac:(discriminate)
                  ltac:(rewrite sizeof_file_header_eq; cbn; lia)
                  ltac:(cbn; unfold INT_MAX; lia)
                  eq_refl eq_refl (calm_writes 100)))).
Defined.

(** ** Blocking and non-blocking descriptors *)

Lemma land_lor_lnot (f n : Z) :
  Z.land (Z.lor f n) (Z.lnot n) = Z.land f (Z.lnot n).
Proof.
  apply Z.bits_inj'. intros i Hi.
  rewrite !Z.land_spec, Z.lor_spec, Z.lnot_spec by exact Hi.
  destruct (Z.testbit f i), (Z.testbit n i); reflexivity.
Qed.

Lemma land_lnot_clear (f n : Z) :
  Z.land f n = 0 -> Z.land f (Z.lnot n) = f.
Proof.
  intros Hclear. apply Z.bits_inj'. intros i Hi.
  rewrite Z.land_spec, Z.lnot_spec by exact Hi.
  apply (f_equal (fun z => Z.testbit z i)) in Hclear.
  rewrite Z.land_spec, Z.bits_0 in Hclear.
  destruct (Z.testbit f i), (Z.testbit n i); (reflexivity || discriminate).
Qed.

(** X16: [set_blocking] undoes [set_non_blocking].  On a descriptor that
    is open both succeed; after the first the descriptor has its flags
    with [O_NONBLOCK] set, after the second its flags with [O_NONBLOCK]
    clear, every other flag and every other descriptor as before, so a
    descriptor that was blocking has the flags it began with.  On
    [HANDLE_NOT_VALID] and on a descriptor that is not open both fail and
    change nothing. *)
Theorem set_blocking_undoes_set_non_blocking (fd : Z) (t : gmap Z Z) :
  let r1 := set_non_blocking fd t in
  let r2 := set_blocking fd (snd r1) in
  match t !! fd with
  | Some flags =>
      if decide (fd = HANDLE_NOT_VALID)
      then r1 = (false, t) /\ r2 = (false, t)
      else
        r1 = (true, <[fd := Z.lor flags O_NONBLOCK]> t) /\
        r2 = (true, <[fd := Z.land flags (Z.lnot O_NONBLOCK)]> t) /\
        (Z.land flags O_NONBLOCK = 0 -> snd r2 = t)
  | None => r1 = (false, t) /\ r2 = (false, t)
  end.
Proof.
  cbn zeta. unfold set_non_blocking, set_blocking.
  destruct (t !! fd) as [flags|] eqn:Hfd;
    destruct (decide (fd = HANDLE_NOT_VALID)) as [Hbad|Hok];
    cbn [snd]; rewrite ?decide_True by exact Hbad;
    rewrite ?decide_False by exact Hok.
  - now split.
  - unfold fcntl_getfl, fcntl_setfl. rewrite Hfd.
    cbv beta iota zeta. cbn [snd]. rewrite lookup_insert_eq.
    cbv beta iota zeta. rewrite insert_insert_eq, land_lor_lnot.
    split; [reflexivity|]. split; [reflexivity|].
    intros Hclear. cbn [snd]. rewrite land_lnot_clear by exact Hclear.
    now apply insert_id.
  - now split.
  - unfold fcntl_getfl, fcntl_setfl. rewrite Hfd.
    cbv beta iota zeta. cbn [snd]. rewrite Hfd. now split.
Qed.

(** ** A requested file, from the request to the copy *)

(** What [send_file] makes of a path depends on the C string only: the
    bytes behind its NUL play no part. *)
Lemma skipspace_app_ended (x t : list byte) :
  (strlen x < length x)%nat ->
  skipspace (x ++ t) = skipspace x ++ t /\
  (strlen (skipspace x) < length (skipspace x))%nat.
Proof.
  unfold strlen. induction x as [|c x IH]; cbn [app cstr length]; [lia|].
  intros H. cbn [skipspace].
  destruct (decide (c = ASCII_TAB \/ c = ASCII_SPACE)) as [Hb|Hb].
  - apply IH. destruct (decide (c = ASCII_NULL_ZERO)) as [->|Hc].
    + destruct Hb as [Hb|Hb]; discriminate Hb.
    + cbn [length] in H. lia.
  - split; [reflexivity|]. cbn [cstr length]. exact H.
Qed.

Lemma remove_endline_app_ended fuel (p t : list byte) :
  (strlen p < length p)%nat ->
  remove_endline fuel (p ++ t) = remove_endline fuel p ++ t /\
  (strlen (remove_endline fuel p) < length (remove_endline fuel p))%nat.
Proof.
  revert p. induction fuel as [|fuel IH]; intros p Hp; [now split|].
  cbn [remove_endline].
  assert (Hlen : strlen (p ++ t) = strlen p)
    by (unfold strlen; now rewrite cstr_app_ended).
  rewrite cstr_app_ended, Hlen by exact Hp.
  destruct (last (cstr p)) as [c|] eqn:Hlast; [|now split].
  destruct (decide _); [|now split].
  assert (Hpos : (0 < strlen p)%nat).
  { unfold strlen. destruct (cstr p); [discriminate|cbn; lia]. }
  rewrite insert_app_l by lia. apply IH.
  unfold strlen at 1. rewrite cstr_insert_nul by lia.
  rewrite length_take, length_insert. fold (strlen p). lia.
Qed.

Lemma requested_path_app_ended (x t : list byte) :
  (strlen x < length x)%nat ->
  requested_path (x ++ t) = requested_path x ++ t /\
  (strlen (requested_path x) < length (requested_path x))%nat.
Proof.
  intros Hx. unfold requested_path.
  destruct (skipspace_app_ended x t Hx) as [Hskip Hs]. rewrite Hskip.
  replace (strlen (skipspace x ++ t)) with (strlen (skipspace x))
    by (unfold strlen; now rewrite cstr_app_ended).
  now apply remove_endline_app_ended.
Qed.

Lemma strrchr_app_ended (p t : list byte) (c : byte) :
  (strlen p < length p)%nat -> strrchr (p ++ t) c = strrchr p c.
Proof.
  unfold strlen. induction p as [|x p IH]; cbn [app cstr length]; [lia|].
  intros H. cbn [strrchr].
  destruct (decide (x = ASCII_NULL_ZERO)); [reflexivity|].
  rewrite IH by (cbn [length] in H; lia). reflexivity.
Qed.

Lemma strrchr_within (p : list byte) (c : byte) i :
  strrchr p c = Some i -> (i < strlen p)%nat.
Proof.
  unfold strlen. revert i. induction p as [|x p IH]; intros i; cbn [strrchr cstr];
    [discriminate|].
  destruct (decide (x = ASCII_NULL_ZERO)); [discriminate|]. cbn [length].
  destruct (strrchr p c) as [j|].
  - intros [= <-]. specialize (IH j eq_refl). lia.
  - destruct (decide (x = c)); [|discriminate]. intros [= <-]. lia.
Qed.

Lemma cstr_drop k (p : list byte) :
  (k <= strlen p)%nat -> cstr (drop k p) = drop k (cstr p).
Proof.
  unfold strlen. revert k. induction p as [|x p IH]; intros [|k] Hk;
    try reflexivity.
  cbn [cstr] in Hk |- *. destruct (decide (x = ASCII_NULL_ZERO));
    [cbn in Hk; lia|].
  cbn [drop]. apply IH. cbn [length] in Hk. lia.
Qed.

Lemma file_name_of_app_ended (p t : list byte) :
  (strlen p < length p)%nat ->
  cstr (file_name_of (p ++ t)) = cstr (file_name_of p).
Proof.
  intros Hp. unfold file_name_of. rewrite strrchr_app_ended by exact Hp.
  destruct (strrchr p ASCII_SLASH) as [i|] eqn:Hi;
    [|now apply cstr_app_ended].
  apply strrchr_within in Hi.
  rewrite drop_app_le by lia. apply cstr_app_ended.
  unfold strlen. rewrite cstr_drop by lia.
  rewrite !length_drop. fold (strlen p). lia.
Qed.

(** The path [get_file_request] hands on is read like the name field
    alone: the field of a request ends with a NUL. *)
Lemma path_of_request (name t : list byte) :
  let field := memcpy XFER_HDR_NAME_SZIE (memcpy (XFER_HDR_NAME_SZIE - 1) name) in
  cstr (requested_path (field ++ t)) = cstr (requested_path field) /\
  cstr (file_name_of (requested_path (field ++ t)))
  = cstr (file_name_of (requested_path field)).
Proof.
  intros field.
  assert (Hfield : (strlen field < length field)%nat).
  { subst field. unfold strlen at 1. rewrite cstr_name_field.
    pose proof (strlen_name_cut name) as Hcut. unfold strlen in Hcut.
    rewrite length_memcpy. exact Hcut. }
  destruct (requested_path_app_ended field t Hfield) as [Hpath Hended].
  rewrite Hpath. split.
  - now apply cstr_app_ended.
  - now apply file_name_of_app_ended.
Qed.

(** X18: a file asked for with [get_file] arrives.  When the request
    reaches a peer that has the file (not empty, of at most 2^31 - 1
    bytes, no 1024-byte chunk of it beginning like the transfer tag) and
    whose network takes every datagram whole, and the frames the peer
    answers with reach the requester, which has no control block for the
    peer, can create the file named after the sent one with "1" behind
    it, has no such file yet, and whose [fwrite] takes a whole chunk, then
    the requester ends with a file that holds exactly the contents of the
    peer's file, closed, and with its control blocks as before. *)
Theorem requested_file_arrives
    (erq ep : env) (typed : list byte) (ip_q ip_p : string) (wq wp : world)
    (contents : list byte) :
  send_socket wq <> HANDLE_NOT_VALID ->
  sendto_takes sizeof_file_header erq ->
  receive_socket wq <> HANDLE_NOT_VALID ->
  find_send_control (send_control wq) ip_p = None ->
  receive_socket wp <> HANDLE_NOT_VALID ->
  send_socket wp <> HANDLE_NOT_VALID ->
  sendto_takes (Z.to_nat MAX_OUT_DATA_SIZE) ep ->
  let asked :=
    memcpy XFER_HDR_NAME_SZIE
      (memcpy (XFER_HDR_NAME_SZIE - 1) (requested_path typed)) in
  disk wp !! string_of_bytes (cstr (requested_path asked)) = Some contents ->
  contents <> [] ->
  Z.of_nat (length contents) <= INT_MAX ->
  Forall clear_of_tag
    (chunks (length contents) (Z.to_nat MAX_OUT_DATA_SIZE) contents) ->
  let saved :=
    (string_of_bytes
       (cstr (memcpy (XFER_HDR_NAME_SZIE - 1)
                (file_name_of (requested_path asked)))) +:+ "1")%string in
  disk wq !! saved = None ->
  fopen_wb_ok erq saved = true ->
  (forall k, (UDP_IN_BUFFER_SIZE <= fwrite_limit erq k)%nat) ->
  let wq1 := get_file erq typed wq in
  let request := drop (length (wire wq)) (wire wq1) in
  let wp1 := feed ep ip_q request wp in
  let answer := drop (length (wire wp)) (wire wp1) in
  let wq2 := feed erq ip_p answer wq1 in
  disk wq2 = <[saved := contents]> (disk wq) /\
  send_control wq2 = send_control wq /\
  open_files wq2 = delete (next_file wq) (open_files wq).
Proof.
  intros Hqs Hqtakes Hqr Hqnone Hpr Hps Hptakes asked Hhas Hne Hmax Hclear
    saved Hfree Hopen Hfw wq1 request wp1 answer wq2.
  assert (Hwq1 : wq1 = print (msg_file_requested (cstr (requested_path typed)))
                         (set_wire (fun l => l ++ [_]) (set_sendto_calls S wq)))
    by apply (get_file_frame erq typed wq Hqs Hqtakes).
  assert (Hreq : request = [bytes_of_header
            {| header_command := xfer_tag;
               file_name := memcpy (XFER_HDR_NAME_SZIE - 1) (requested_path typed);
               file_size := 0;
               trans_type := trans_type_get_request |}]).
  { subst request. rewrite Hwq1. fields. apply drop_app_length. }
  set (header := {| header_command := xfer_tag;
                    file_name := memcpy (XFER_HDR_NAME_SZIE - 1) (requested_path typed);
                    file_size := 0;
                    trans_type := trans_type_get_request |}) in Hreq.
  set (behind := bytes_of_int 0 ++ bytes_of_int trans_type_get_request).
  assert (Hpointer : name_field_onwards (bytes_of_header header) = asked ++ behind).
  { pose proof (name_field_onwards_header header []) as Hn.
    rewrite app_nil_r in Hn. exact Hn. }
  destruct (path_of_request (requested_path typed) behind) as [Hsame Hbase].
  fold asked in Hsame, Hbase.
  assert (Hwp1 : wp1 = send_file ep (asked ++ behind) true
                         (snd (recvfrom (hd [] request) wp))).
  { subst wp1. rewrite Hreq. unfold feed. cbn [foldl hd].
    rewrite <- Hpointer.
    apply (read_data_get_request ep ip_q _ wp Hpr). }
  assert (Hhas' : disk wp !! string_of_bytes (cstr (requested_path (asked ++ behind)))
                  = Some contents) by (rewrite Hsame; exact Hhas).
  assert (Hanswer : answer =
            bytes_of_header
              {| header_command := xfer_tag;
                 file_name := memcpy (XFER_HDR_NAME_SZIE - 1)
                                (file_name_of (requested_path (asked ++ behind)));
                 file_size := Z.of_nat (length contents);
                 trans_type := trans_type_send |}
            :: chunks (length contents) (Z.to_nat MAX_OUT_DATA_SIZE) contents).
  { subst answer. rewrite Hwp1.
    rewrite (send_file_frames ep (asked ++ behind) true
               (snd (recvfrom (hd [] request) wp))
               contents Hps Hhas' Hmax Hptakes).
    change (wire (snd (recvfrom (hd [] request) wp))) with (wire wp).
    apply drop_app_length. }
  assert (HC : (0 < Z.to_nat MAX_OUT_DATA_SIZE <= UDP_IN_BUFFER_SIZE)%nat)
    by (unfold MAX_OUT_DATA_SIZE, UDP_IN_BUFFER_SIZE; lia).
  assert (Hsaved : saved =
            (string_of_bytes
               (cstr (memcpy XFER_HDR_NAME_SZIE
                        (memcpy (XFER_HDR_NAME_SZIE - 1)
                           (file_name_of (requested_path (asked ++ behind))))))
             +:+ "1")%string).
  { subst saved. rewrite cstr_name_field, !cstr_memcpy_take, Hbase.
    reflexivity. }
  clearbody saved. subst saved.
  assert (Hqr1 : receive_socket wq1 <> HANDLE_NOT_VALID)
    by (rewrite Hwq1; exact Hqr).
  assert (Hqnone1 : find_send_control (send_control wq1) ip_p = None)
    by (rewrite Hwq1; exact Hqnone).
  assert (Hfree1 : disk wq1 !! _ = None) by (rewrite Hwq1; exact Hfree).
  subst wq2. rewrite Hanswer.
  destruct (feed_transfer erq ip_p _ contents _ wq1 Hqr1 Hqnone1
              (strlen_name_cut (file_name_of (requested_path (asked ++ behind))))
              Hne Hmax HC Hclear Hfree1 Hopen Hfw) as (Hd & Hsc & Hof & _).
  assert (Hdq : disk wq1 = disk wq) by (rewrite Hwq1; reflexivity).
  assert (Hscq : send_control wq1 = send_control wq) by (rewrite Hwq1; reflexivity).
  assert (Hofq : open_files wq1 = open_files wq) by (rewrite Hwq1; reflexivity).
  assert (Hnfq : next_file wq1 = next_file wq) by (rewrite Hwq1; reflexivity).
  rewrite Hdq in Hd. rewrite Hscq in Hsc. rewrite Hofq, Hnfq in Hof.
  split; [exact Hd|]. split; [exact Hsc|exact Hof].
Qed.

Lemma notes_asked :
  disk with_notes
    !! string_of_bytes
         (cstr (requested_path
                  (memcpy XFER_HDR_NAME_SZIE
                     (memcpy (XFER_HDR_NAME_SZIE - 1)
                        (requested_path
                           (bytes_of_string " notes.txt" ++ [ASCII_LINE_FEED]))))))
  = Some notes_contents.
Proof. vm_compute. reflexivity. Qed.

Lemma notes_asked_saved :
  (string_of_bytes
     (cstr (memcpy (XFER_HDR_NAME_SZIE - 1)
              (file_name_of
                 (requested_path
                    (memcpy XFER_HDR_NAME_SZIE
                       (memcpy (XFER_HDR_NAME_SZIE - 1)
                          (requested_path
                             (bytes_of_string " notes.txt" ++ [ASCII_LINE_FEED]))))))))
   +:+ "1")%string
  = "notes.txt1"%string.
Proof. vm_compute. reflexivity. Qed.

Lemma requested_file_arrives_witness :
  let typed := bytes_of_string " notes.txt" ++ [ASCII_LINE_FEED] in
  let wq1 := get_file (calm 100) typed fresh in
  let request := drop (length (wire fresh)) (wire wq1) in
  let wp1 := feed (calm 101) peer_a request with_notes in
  let answer := drop (length (wire with_notes)) (wire wp1) in
  disk (feed (calm 102) peer_b answer wq1)
  = <["notes.txt1"%string := notes_contents]> (disk fresh).
Proof.
  pose proof (requested_file_arrives (calm 102) (calm 101)
                (bytes_of_string " notes.txt" ++ [ASCII_LINE_FEED])
                peer_a peer_b fresh with_notes notes_contents
                ltac:(discriminate) (calm_takes_header 102) ltac:(discriminate)
                eq_refl ltac:(discriminate) ltac:(discriminate)
                (calm_takes 101) notes_asked ltac:(discriminate)
                notes_small notes_clear) as H.
  cbv zeta in H. rewrite notes_asked_saved in H.
  exact (proj1 (H eq_refl eq_refl (calm_writes 102))).
Defined.

(** ** The name in the header *)

(** [strrchr] finds the last of the characters [c] of a C string. *)
Lemma strrchr_last (p : list byte) (c : byte) :
  match strrchr p c with
  | Some i =>
      cstr p = take i (cstr p) ++ c :: cstr (drop (S i) p) /\
      c ∉ cstr (drop (S i) p)
  | None => c ∉ cstr p
  end.
Proof.
  induction p as [|x p IH]; cbn [strrchr cstr].
  - apply not_elem_of_nil.
  - destruct (decide (x = ASCII_NULL_ZERO)) as [Hx|Hx]; [apply not_elem_of_nil|].
    destruct (strrchr p c) as [i|].
    + destruct IH as [Hsplit Hnot]. cbn [take drop app]. split; [|exact Hnot].
      f_equal. exact Hsplit.
    + destruct (decide (x = c)) as [->|Hne].
      * cbn [take drop app]. rewrite drop_0. split; [reflexivity|exact IH].
      * intros Hin. apply elem_of_cons in Hin as [->|Hin]; [congruence|].
        exact (IH Hin).
Qed.

(** X19: [send_file] never sends a directory.  The name in the header
    frame it puts on the wire holds no slash: it is what stands behind
    the last slash of the path it was given (the whole path when there is
    none), cut to 100 characters.  The file is there, its size fits an
    [int] and the network takes every datagram whole. *)
Theorem sent_name_has_no_directory
    (e : env) (path : list byte) (reply : bool) (w : world)
    (contents : list byte) :
  send_socket w <> HANDLE_NOT_VALID ->
  disk w !! string_of_bytes (cstr (requested_path path)) = Some contents ->
  Z.of_nat (length contents) <= INT_MAX ->
  sendto_takes (Z.to_nat MAX_OUT_DATA_SIZE) e ->
  exists frame rest dir base,
    drop (length (wire w)) (wire (send_file e path reply w)) = frame :: rest /\
    cstr (requested_path path) = dir ++ base /\
    (dir = [] \/ last dir = Some ASCII_SLASH) /\
    (ASCII_SLASH ∉ base) /\
    cstr (file_name (header_of_bytes frame)) = take 100 base.
Proof.
  intros Hsock Hdisk Hmax Htakes.
  rewrite (send_file_frames e path reply w contents Hsock Hdisk Hmax Htakes).
  rewrite drop_app_length.
  set (p := requested_path path).
  assert (Hname : forall hdr_name size,
            cstr (file_name (header_of_bytes (bytes_of_header
                    {| header_command := xfer_tag;
                       file_name := memcpy (XFER_HDR_NAME_SZIE - 1) hdr_name;
                       file_size := size;
                       trans_type := trans_type_send |})))
            = take 100 (cstr hdr_name)).
  { intros hdr_name size. rewrite header_of_bytes_alone. cbn [file_name].
    rewrite cstr_name_field. apply cstr_memcpy_take. }
  assert (Hbase : exists dir base,
            cstr p = dir ++ base /\
            (dir = [] \/ last dir = Some ASCII_SLASH) /\
            (ASCII_SLASH ∉ base) /\
            cstr (file_name_of p) = base).
  { pose proof (strrchr_last p ASCII_SLASH) as Hlast.
    unfold file_name_of. destruct (strrchr p ASCII_SLASH) as [i|].
    - destruct Hlast as [Hsplit Hnot].
      exists (take i (cstr p) ++ [ASCII_SLASH]), (cstr (drop (S i) p)).
      split; [now rewrite <- app_assoc|].
      split; [right; apply last_snoc|]. split; [exact Hnot|reflexivity].
    - exists [], (cstr p).
      split; [reflexivity|]. split; [now left|]. split; [exact Hlast|reflexivity]. }
  destruct Hbase as (dir & base & Hsplit & Hdir & Hnot & Hbase).
  eexists _, _, dir, base.
  split; [reflexivity|]. split; [exact Hsplit|]. split; [exact Hdir|].
  split; [exact Hnot|]. rewrite Hname. now rewrite Hbase.
Qed.

Lemma sent_name_has_no_directory_witness :
  exists frame rest dir base,
    drop (length (wire with_notes))
      (wire (send_file (calm 100)
               (bytes_of_string " notes.txt" ++ [ASCII_LINE_FEED]) false with_notes))
    = frame :: rest /\
    cstr (requested_path (bytes_of_string " notes.txt" ++ [ASCII_LINE_FEED]))
    = dir ++ base /\
    (dir = [] \/ last dir = Some ASCII_SLASH) /\
    (ASCII_SLASH ∉ base) /\
    cstr (file_name (header_of_bytes frame)) = take 100 base.
Proof.
  exact (sent_name_has_no_directory (calm 100)
           (bytes_of_string " notes.txt" ++ [ASCII_LINE_FEED]) false with_notes
           notes_contents ltac:(discriminate) notes_on_disk notes_small
           (calm_takes 100)).
Defined.

(** ** Writing a chunk in several attempts *)

(** X21: a slow file system loses nothing.  When [fwrite] never takes
    nothing twenty times in a row, a chunk from a device whose entry is
    receiving is written to the end of its file whole, in as many
    attempts as it takes, and no other file is changed. *)
Theorem chunk_is_written_despite_retries
    (e : env) (data : list byte) (ip : string) (w : world)
    (i : nat) (c : file_sent_control) (h : nat) (path : string)
    (old : list byte) :
  find_send_control (send_control w) ip = Some i ->
  send_control w !! i = Some c ->
  in_file_transfer c = true ->
  out_file_p c = Some h ->
  open_files w !! h = Some path ->
  disk w !! path = Some old ->
  (forall k, exists j, (j < MAX_FILE_WRITE_RETRY_COUNT)%nat /\
                       (0 < fwrite_limit e (k + j))%nat) ->
  let w' := snd (receive_file_block e data ip w) in
  disk w' !! path = Some (old ++ data) /\
  forall p, p <> path -> disk w' !! p = disk w !! p.
Proof.
  intros Hfind Hlook Hin Hout Hopen Hold Hlive. cbn zeta.
  rewrite (receive_file_block_receiving e data ip w i c h Hfind Hlook Hin Hout).
  destruct (write_loop_retries e h path Hlive (write_fuel data) data O w old
              Hopen Hold) as [Hd Ho].
  - lia.
  - intros k Hk. lia.
  - unfold write_fuel. lia.
  - destruct (_ =? 0); cbn [snd]; fields; split; assumption.
Qed.

Lemma hesitant_takes t k :
  exists j, (j < MAX_FILE_WRITE_RETRY_COUNT)%nat /\
            (0 < fwrite_limit (hesitant t) (k + j))%nat.
Proof.
  unfold MAX_FILE_WRITE_RETRY_COUNT. cbn [fwrite_limit hesitant].
  destruct (Nat.even k) eqn:Hk.
  - exists 1%nat. split; [lia|].
    rewrite Nat.add_1_r, Nat.even_succ, <- Nat.negb_even, Hk. cbn. lia.
  - exists O. split; [lia|]. rewrite Nat.add_0_r, Hk. lia.
Qed.

Lemma chunk_is_written_despite_retries_witness :
  let w := receiving "report.txt" 5 peer_a 100 in
  let w' := snd (receive_file_block (hesitant 101) (bytes_of_string "hello") peer_a w) in
  disk w' !! "report.txt1"%string = Some ([] ++ bytes_of_string "hello").
Proof.
  exact (proj1 (chunk_is_written_despite_retries (hesitant 101)
                  (bytes_of_string "hello") peer_a
                  (receiving "report.txt" 5 peer_a 100) O
                  (receiving_block peer_a 0 5 100) O "report.txt1" []
                  eq_refl eq_refl eq_refl eq_refl eq_refl eq_refl
                  (hesitant_takes 101))).
Defined.

(** ** The name a received file gets *)

Lemma write_loop_keeps_files fuel e h data k w name :
  is_Some (disk w !! name) ->
  is_Some (disk (write_loop fuel e h data k w) !! name).
Proof.
  revert data k w. induction fuel as [|fuel IH]; intros data k w Hw; [exact Hw|].
  cbn [write_loop]. destruct data as [|b data]; [exact Hw|].
  destruct (k <? MAX_FILE_WRITE_RETRY_COUNT)%nat; [|exact Hw].
  assert (Hw2 : is_Some (disk (snd (fwrite e h (b :: data) w)) !! name)).
  { unfold fwrite. destruct (open_files w !! h); cbn [snd]; fields;
      [now apply lookup_alter_is_Some|exact Hw]. }
  destruct (fwrite e h (b :: data) w) as [[|m] w2]; cbn [snd] in Hw2;
    now apply IH.
Qed.

(** The C string at the name field of a header is the one in the field
    when the field holds a NUL. *)
Lemma cstr_name_field_of_bytes (b : list byte) :
  (strlen (file_name (header_of_bytes b)) < XFER_HDR_NAME_SZIE)%nat ->
  cstr (name_field_onwards b) = cstr (file_name (header_of_bytes b)).
Proof.
  unfold header_of_bytes, name_field_onwards. cbn [file_name].
  set (onwards := drop OFFSET_FILE_NAME (memcpy sizeof_file_header b)).
  intros Hroom.
  rewrite <- (take_drop XFER_HDR_NAME_SZIE onwards) at 1.
  apply cstr_app_ended.
  rewrite length_take. subst onwards.
  rewrite length_drop, length_memcpy.
  change (XFER_HDR_NAME_SZIE `min` (sizeof_file_header - OFFSET_FILE_NAME))%nat
    with XFER_HDR_NAME_SZIE.
  exact Hroom.
Qed.

(** X22: the name a received file gets, for a header of the kind of a
    sent file that announces a file that is not empty.  The sent name is
    the C string [strcpy] finds at the name field of the header, which is
    the one in the field when the field holds a NUL.  The receiver tries
    the sent name with 1, 2, ... up to 20 behind it and takes the first
    that is not on the disk; the sent name itself is never tried.  Only
    when all twenty are there does it find no name; then no transfer is
    started. *)
Theorem first_free_name_is_chosen (e : env) (n : nat) (ip : string) (w : world) :
  let w1 := drop_previous ip w in
  let header := header_of_bytes (udp_inbound_buffer w1) in
  let sent_name := cstr (name_field_onwards (udp_inbound_buffer w1)) in
  let base := string_of_bytes sent_name in
  trans_type header = trans_type_send ->
  file_size header <> 0 ->
  ((strlen (file_name header) < XFER_HDR_NAME_SZIE)%nat ->
   sent_name = cstr (file_name header)) /\
  match choose_file_name MAX_FILE_OVERWRITE_CHECK sent_name O w1 with
  | Some name =>
      (exists j : nat,
         (0 < j <= MAX_FILE_OVERWRITE_CHECK)%nat /\
         name = (base +:+ pretty j)%string /\
         file_exists name w1 = false /\
         forall i : nat, (0 < i < j)%nat ->
           file_exists (base +:+ pretty i) w1 = true) /\
      (fopen_wb_ok e name = true ->
       disk (receive_file_start e n ip w) !! name <> None) /\
      (fopen_wb_ok e name = false -> receive_file_start e n ip w = w1)
  | None =>
      (forall j : nat, (0 < j <= MAX_FILE_OVERWRITE_CHECK)%nat ->
         file_exists (base +:+ pretty j) w1 = true) /\
      receive_file_start e n ip w = w1
  end.
Proof.
  intros w1 header sent_name base _ Hsize.
  split; [apply cstr_name_field_of_bytes|].
  pose proof (choose_file_name_first_free MAX_FILE_OVERWRITE_CHECK
                sent_name O w1 ltac:(lia)) as Hchoice.
  unfold receive_file_start. fold w1. fold header. fold sent_name.
  destruct (Z.eqb_spec (file_size header) 0) as [Hz|_]; [contradiction|].
  destruct (choose_file_name _ _ _ w1) as [name|]; [|now split].
  split; [exact Hchoice|].
  unfold fopen_wb. split; intros Hok; rewrite Hok; [|reflexivity].
  match goal with
  | |- disk (if _ then snd (receive_file_block _ ?d _ ?x) else _) !! _ <> None =>
      set (w4 := x); set (data := d)
  end.
  assert (Hw4 : is_Some (disk w4 !! name)).
  { subst w4. fields. rewrite lookup_insert_eq. eauto. }
  destruct (_ <? _)%nat.
  - intros Hnone. unfold receive_file_block in Hnone.
    destruct (find_send_control (send_control w4) ip) as [i|];
      [|cbn [snd] in Hnone; rewrite Hnone in Hw4; now destruct Hw4].
    destruct (send_control w4 !! i) as [c|];
      [|cbn [snd] in Hnone; rewrite Hnone in Hw4; now destruct Hw4].
    destruct (out_file_p c) as [h|];
      [|cbn [snd] in Hnone; rewrite Hnone in Hw4; now destruct Hw4].
    destruct (in_file_transfer c);
      [|cbn [snd] in Hnone; rewrite Hnone in Hw4; now destruct Hw4].
    pose proof (write_loop_keeps_files (write_fuel data) e h data O w4 name Hw4)
      as Hkeep.
    destruct (_ =? 0); cbn [snd] in Hnone; revert Hnone; fields;
      intros Hnone; rewrite Hnone in Hkeep; now destruct Hkeep.
  - intros Hnone. rewrite Hnone in Hw4. now destruct Hw4.
Qed.

Lemma first_free_name_is_chosen_witness :
  disk (receive_file_start (calm 100) sizeof_file_header peer_a
          (snd (recvfrom (send_frame "report.txt" 5) fresh)))
    !! "report.txt1"%string <> None.
Proof.
  pose proof (first_free_name_is_chosen (calm 100) sizeof_file_header peer_a
                (snd (recvfrom (send_frame "report.txt" 5) fresh))
                eq_refl ltac:(vm_compute; discriminate)) as H.
  exact (proj1 (proj2 (proj2 H)) eq_refl).
Defined.

(** * The log *)

Lemma logging_steps_open (name : string) (calls : list logging_call) :
  forall (l : LoggingClass) (held : list byte),
    write_log_p l = Some name ->
    log_disk l !! name = Some held ->
    let l' := foldl logging_step l calls in
    write_log_p l' = Some name /\
    log_disk l' !! name = Some (held ++ logged (logging_enabled l) calls) /\
    (forall other, other <> name -> log_disk l' !! other = log_disk l !! other) /\
    log_console l' = log_console l.
Proof.
  induction calls as [|c calls IH]; intros l held Hopen Hheld; cbn zeta.
  - cbn [foldl logged]. rewrite app_nil_r.
    split; [exact Hopen|]. split; [exact Hheld|]. split; [|reflexivity].
    intros other _. reflexivity.
  - cbn [foldl]. destruct c as [our_time ok|text|on]; cbn [logging_step logged].
    + unfold logging_create_log. rewrite Hopen. now apply IH.
    + unfold logging_write_log. rewrite Hopen.
      destruct (logging_enabled l) eqn:Hon.
      * specialize (IH
          {| write_log_p := write_log_p l; log_file_name := log_file_name l;
             logging_enabled := logging_enabled l;
             log_disk := alter (fun old => old ++ cstr text) name (log_disk l);
             log_console := log_console l |}
          (held ++ cstr text) Hopen).
        cbn [log_disk logging_enabled write_log_p log_console] in IH.
        rewrite Hopen, Hon in IH.
        destruct IH as (Hp & Hd & Ho & Hc).
        { rewrite lookup_alter_eq, Hheld. reflexivity. }
        rewrite <- app_assoc in Hd.
        split; [exact Hp|]. split; [exact Hd|]. split; [|exact Hc].
        intros other Hne. rewrite Ho by exact Hne.
        apply lookup_alter_ne. congruence.
      * specialize (IH l held Hopen Hheld). cbn zeta in IH.
        rewrite Hon in IH. exact IH.
    + specialize (IH (logging_enable_disable on l) held Hopen Hheld).
      exact IH.
Qed.

(** X17: what the log holds.  After the log was created, whatever calls
    of the three methods follow, the log file holds exactly the texts
    written while logging was switched on, in their order; a later call
    of [logging_create_log] neither empties the log nor opens another,
    and no other file is touched.  If the log could not be created, the
    calls that follow write nothing, until one creates it. *)
Theorem log_holds_what_was_written
    (our_time : tm) (fopen_ok : bool) (files : gmap string (list byte))
    (calls : list logging_call) :
  let name := build_log_file_name our_time in
  let l := logging_create_log our_time fopen_ok (LoggingClass_new files) in
  let l' := foldl logging_step l calls in
  if fopen_ok then
    write_log_p l' = Some name /\
    log_disk l' !! name = Some (logged true calls) /\
    (forall other, other <> name -> log_disk l' !! other = files !! other)
  else
    write_log_p l = None /\ log_disk l = files /\
    (Forall (fun c => match c with call_create_log _ _ => False | _ => True end)
       calls ->
     log_disk l' = files).
Proof.
  cbn zeta. destruct fopen_ok.
  - set (name := build_log_file_name our_time).
    destruct (logging_steps_open name calls
                (logging_create_log our_time true (LoggingClass_new files)) [])
      as (Hp & Hd & Ho & _); [reflexivity|apply lookup_insert_eq|].
    split; [exact Hp|]. split; [exact Hd|].
    intros other Hne. rewrite Ho by exact Hne.
    apply lookup_insert_ne. intros Heq. apply Hne. symmetry. exact Heq.
  - split; [reflexivity|]. split; [reflexivity|].
    unfold logging_create_log, LoggingClass_new. cbn [write_log_p].
    set (l := {| write_log_p := None; log_file_name := _; logging_enabled := _;
                 log_disk := _; log_console := _ |}).
    assert (Hnone : write_log_p l = None) by reflexivity.
    assert (Hfiles : log_disk l = files) by reflexivity.
    clearbody l. revert l Hnone Hfiles.
    induction calls as [|c calls IH]; intros l Hnone Hfiles Hcalls;
      [exact Hfiles|].
    apply Forall_cons in Hcalls as [Hc Hcalls]. cbn [foldl].
    destruct c as [t ok|text|on]; [contradiction| |].
    + apply IH; [| |exact Hcalls]; unfold logging_step, logging_write_log;
        rewrite Hnone; assumption.
    + apply IH; [exact Hnone|exact Hfiles|exact Hcalls].
Qed.

(** The name of a log created on 1 November 2026 at 20:05:03; no
    separator stands between the year and the hour. *)
Lemma all_saints_log_name :
  build_log_file_name all_saints = "01Nov202620-05-03-chatlog.txt"%string.
Proof. vm_compute. reflexivity. Qed.

(** ** The files beside the log *)

Lemma closed_file_logged (p : string) (c : list byte) text w l :
  closed_file p c w -> write_log_p l <> Some p ->
  closed_file p c (fst (logging_in (logging_write_log text) w l)) /\
  write_log_p (snd (logging_in (logging_write_log text) w l)) = write_log_p l.
Proof.
  intros [Hd Ho] Hlog. rewrite logging_in_write_log. cbn [fst snd].
  split; [|reflexivity].
  split; fields; [|exact Ho].
  unfold log_written. destruct (write_log_p l) as [name|]; [|exact Hd].
  destruct (logging_enabled l); [|exact Hd].
  rewrite lookup_alter_ne; [exact Hd|congruence].
Qed.

(** X24: the loop of main, logger included, never touches a file that is
    on the disk unless the chat object has it open for a transfer or it is
    the chat log.  Whatever arrives, whatever the operator types, the
    command that switches logging included, and however long the loop
    runs, a file that is there, on which the chat object holds no handle
    and which is not the file the logger has open, keeps its contents;
    the chat object never opens a handle on it, and the logger stays with
    the file it has. *)
Theorem file_beside_the_log_is_kept
    (p : string) (c : list byte) (wl wl' : world * LoggingClass) :
  disk (fst wl) !! p = Some c ->
  (forall h, open_files (fst wl) !! h <> Some p) ->
  write_log_p (snd wl) <> Some p ->
  runs_logged_to wl wl' ->
  disk (fst wl') !! p = Some c /\
  (forall h, open_files (fst wl') !! h <> Some p) /\
  write_log_p (snd wl') = write_log_p (snd wl).
Proof.
  intros Hd Ho Hlog Hrun.
  assert (Hinv : closed_file p c (fst wl') /\
                 write_log_p (snd wl') = write_log_p (snd wl)).
  { induction Hrun as [|e inbound [w l] _ [Hc Hl]|e cmd [w l] _ [Hc Hl]
                      |[w l] _ [Hc Hl]|e [w l] _ [Hc Hl]];
      cbn [fst snd] in *.
    - split; [split; assumption|reflexivity].
    - unfold main_poll_logged.
      pose proof (closed_file_main_poll p c e inbound w Hc) as Hpoll.
      unfold main_poll in Hpoll.
      destruct (read_data e inbound w) as [read_count w1].
      destruct (0 <? read_count); [|split; [exact Hpoll|exact Hl]].
      rewrite <- Hl in Hlog |- *.
      apply closed_file_logged; [exact Hpoll|exact Hlog].
    - pose proof (closed_file_untouched p c _ _ (main_command_untouched e cmd w) Hc)
        as Hcmd.
      destruct cmd as [path|path|text]; cbn [main_command_logged fst snd];
        [split; [exact Hcmd|exact Hl]..|].
      rewrite <- Hl in Hlog |- *.
      apply closed_file_logged; [exact Hcmd|exact Hlog].
    - split; [exact Hc|exact Hl].
    - split; [now apply closed_file_transfer_timed_out|exact Hl]. }
  destruct Hinv as [[Hd' Ho'] Hl'].
  split; [exact Hd'|]. split; [exact Ho'|exact Hl'].
Qed.

Lemma all_saints_log_is_not_notes :
  write_log_p (logging_create_log all_saints true (LoggingClass_new ∅))
  <> Some "notes.txt"%string.
Proof. vm_compute. discriminate. Qed.

Lemma file_beside_the_log_is_kept_witness :
  let log := logging_create_log all_saints true (LoggingClass_new ∅) in
  let round :=
    main_poll_logged (calm 100) (Some (bytes_of_string "hello", peer_a))
      (with_notes, log) in
  disk (fst round) !! "notes.txt"%string = Some notes_contents.
Proof.
  exact (proj1 (file_beside_the_log_is_kept "notes.txt" notes_contents
                  (with_notes, logging_create_log all_saints true (LoggingClass_new ∅))
                  _ notes_on_disk ltac:(intros h; discriminate)
                  all_saints_log_is_not_notes
                  (logged_poll _ (calm 100)
                     (Some (bytes_of_string "hello", peer_a)) _
                     (logged_nowhere _)))).
Defined.
